(** * 404Bot v2: the opportunity pipeline, embedded and verified

    A shallow embedding of the core of the bot and the proofs of its
    specified properties:

    - [EventBus]       core/event_bus.py
    - [GasPrice]       temp_extract/utils/gas_price.py
    - [Profitability]  temp_extract/utils/profitability.py
    - [Adaptive]       temp_extract/utils/adaptive_parameters.py
    - [Mempool]        mev/mempool.py
    - [Flashbots]      mev/flashbots.py

    Conventions.  Python [int] is [Z].  Python [float] is modelled by the
    exact rationals [Q]: the properties below are about comparisons,
    clamping and truncation, not about rounding error; where a verdict
    depends on how an operation rounds ([is_arbitrage_opportunity]), the
    rounding is a parameter.  Where the type of a number decides what an
    operation does (a [Decimal] does not multiply with a [float]), the
    number carries its type.  A Python
    [dict] with string keys is a [gmap string _]; a [dict] whose insertion
    order is read back is an association list.  I/O (the node, the relays,
    the clock) is an explicit argument of the function that performs it, and
    the I/O a function performs, the delays it sleeps and the events it
    publishes are part of its result. *)

From Stdlib Require Import ZArith QArith Qround Lia Lqa List Permutation Sorted.
From stdpp Require Import gmap strings list sorting.

(* ===================================================================== *)
(** * Part I: the embedding *)
(* ===================================================================== *)

(** ** core/event_bus.py *)

Module EventBus.

(** A callback is compared by identity ([callback not in list] is Python's
    [==] on callables), so it is modelled by its identity. *)
Definition Callback := nat.

Abbreviation Subscribers := (gmap string (list Callback)).

(** [EventBus.__init__]: [self.subscribers = {}]. *)
Definition init : Subscribers := ∅.

(** [list.remove(x)]: drops the first occurrence. *)
Fixpoint list_remove (x : Callback) (l : list Callback) : list Callback :=
  match l with
  | [] => []
  | y :: l' => if decide (x = y) then l' else y :: list_remove x l'
  end.

(** [EventBus.subscribe]. *)
Definition subscribe (event_type : string) (callback : Callback)
    (subscribers : Subscribers) : Subscribers :=
  let subscribers :=
    match subscribers !! event_type with
    | None => <[event_type := []]> subscribers
    | Some _ => subscribers
    end in
  let l := default [] (subscribers !! event_type) in
  if decide (callback ∈ l) then subscribers
  else <[event_type := l ++ [callback]]> subscribers.

(** [EventBus.unsubscribe]. *)
Definition unsubscribe (event_type : string) (callback : Callback)
    (subscribers : Subscribers) : Subscribers :=
  match subscribers !! event_type with
  | Some l =>
      if decide (callback ∈ l)
      then <[event_type := list_remove callback l]> subscribers
      else subscribers
  | None => subscribers
  end.

(** [EventBus.clear_subscribers]; [None] and the empty string are both
    falsy and clear every topic. *)
Definition clear_subscribers (event_type : option string)
    (subscribers : Subscribers) : Subscribers :=
  match event_type with
  | Some t =>
      if decide (t = ""%string) then ∅
      else match subscribers !! t with
           | Some _ => <[t := []]> subscribers
           | None => subscribers
           end
  | None => ∅
  end.

Section Publish.
Context {Data : Type}.

(** What a handler does with a payload is outside the bus; the bus only
    sees whether the call returns or raises.  Handlers do not call back
    into the bus. *)
Variable raises : Callback → Data → bool.

(** The observable effect of one [publish]: the calls made, in order,
    and the errors logged. *)
Record Effects := {
  invoked : list (Callback * Data);
  logged : list (string * Callback)
}.

Fixpoint run_callbacks (event_type : string) (data : Data)
    (l : list Callback) : Effects :=
  match l with
  | [] => {| invoked := []; logged := [] |}
  | callback :: l' =>
      let rest := run_callbacks event_type data l' in
      {| invoked := (callback, data) :: invoked rest;
         logged := if raises callback data
                   then (event_type, callback) :: logged rest
                   else logged rest |}
  end.

(** [EventBus.publish]. *)
Definition publish (event_type : string) (data : Data)
    (subscribers : Subscribers) : Effects :=
  match subscribers !! event_type with
  | None => {| invoked := []; logged := [] |}
  | Some l => run_callbacks event_type data l
  end.

(** How many times [publish] called [callback]. *)
Definition invocations (callback : Callback) (e : Effects) : nat :=
  length (filter (λ c, c.1 = callback) (invoked e)).
End Publish.

(** The mutations a client can perform on a bus. *)
Inductive Op :=
| Subscribe (event_type : string) (callback : Callback)
| Unsubscribe (event_type : string) (callback : Callback)
| Clear (event_type : option string).

Definition apply_op (subscribers : Subscribers) (o : Op) : Subscribers :=
  match o with
  | Subscribe t c => subscribe t c subscribers
  | Unsubscribe t c => unsubscribe t c subscribers
  | Clear t => clear_subscribers t subscribers
  end.

(** The bus after a history of mutations, starting from [__init__]. *)
Definition after (history : list Op) : Subscribers :=
  foldl apply_op init history.

(** Every topic's handler list is free of duplicates. *)
Definition bus_nodup (subscribers : Subscribers) : Prop :=
  ∀ t l, subscribers !! t = Some l → NoDup l.

Section PublishAsync.
Context {Data : Type}.
Variable raises : Callback → Data → bool.

(** [asyncio.iscoroutinefunction(callback)]. *)
Variable is_coroutine : Callback → bool.

(** The loop of [publish_async]: a coroutine handler becomes a task, any
    other handler is called on the spot under [try]. *)
Fixpoint dispatch (event_type : string) (data : Data) (l : list Callback)
    : @Effects Data * list Callback :=
  match l with
  | [] => ({| invoked := []; logged := [] |}, [])
  | callback :: l' =>
      let '(rest, tasks) := dispatch event_type data l' in
      if is_coroutine callback then (rest, callback :: tasks)
      else
        ({| invoked := (callback, data) :: invoked rest;
            logged := if raises callback data
                      then (event_type, callback) :: logged rest
                      else logged rest |},
         tasks)
  end.

(** [EventBus.publish_async].  The tasks start once the loop is over, at
    the [gather], in the order of their creation; [gather] keeps their
    exceptions, which nothing logs. *)
Definition publish_async (event_type : string) (data : Data)
    (subscribers : Subscribers) : @Effects Data :=
  match subscribers !! event_type with
  | None => {| invoked := []; logged := [] |}
  | Some l =>
      let '(called, tasks) := dispatch event_type data l in
      {| invoked := invoked called ++ ((λ c, (c, data)) <$> tasks);
         logged := logged called |}
  end.
End PublishAsync.

End EventBus.

(** ** temp_extract/utils/gas_price.py *)

Module GasPrice.

(** Python's [int(x)] on a float: truncation towards zero. *)
Definition int (x : Q) : Z := Z.quot (Qnum x) (Zpos (Qden x)).

(** [a > b] and [a < b] on floats. *)
Definition Qgtb (a b : Q) : bool := negb (Qle_bool a b).
Definition Qltb (a b : Q) : bool := negb (Qle_bool b a).

(** Transaction parameters: the [gasPrice] entry, and the rest of the
    dictionary, which only the node reads. *)
Record TxParams := {
  gasPrice : option Z;
  body : string
}.

(** A Python number, with its type: web3's [from_wei] returns the [int]
    0 for 0 wei and a [Decimal] otherwise, and the module's own literals
    are [float]s. *)
Inductive Number :=
| PyInt (n : Z)
| PyDecimal (d : Q)
| PyFloat (x : Q).

(** The operand of a product with a [float]: an [int] is converted, a
    [Decimal] is refused with [TypeError]. *)
Definition float_of (a : Number) : option Q :=
  match a with
  | PyInt n => Some (inject_Z n)
  | PyFloat x => Some x
  | PyDecimal _ => None
  end.

(** [a * b] for a [float] [b]; [None] when it raises. *)
Definition times_float (a : Number) (b : Q) : option Q :=
  (λ x, (x * b)%Q) <$> float_of a.

(** The node, as the module uses it.  [None] stands for a call that
    raises.  A block is the list of its transactions, each with its
    [gasPrice] attribute if it has one.  [from_wei] gives the value in
    ether of an amount in wei. *)
Record Web3 := {
  gas_price : option Z;
  block_number : option Z;
  get_block : Z → option (list (option Z));
  estimate_gas : TxParams → option Z;
  from_wei : Z → option Q
}.

(** The calls made to the node. *)
Inductive IO :=
| IO_gas_price
| IO_block_number
| IO_get_block (block_num : Z)
| IO_estimate_gas.

(** The module-level cache: [last_gas_price], [last_gas_update]. *)
Record Cache := {
  last_gas_price : option Z;
  last_gas_update : Q
}.

Definition cold : Cache :=
  {| last_gas_price := None; last_gas_update := 0 |}.

Definition GAS_PRICE_CACHE_TTL : Q := 30.

(** A call's result, the cache it leaves and the I/O it performed. *)
Record Outcome (A : Type) := {
  value : A;
  cache : Cache;
  io : list IO
}.
Arguments value {A} _.
Arguments cache {A} _.
Arguments io {A} _.

(** [range(latest_block - 10, latest_block)]. *)
Definition recent_blocks (latest_block : Z) : list Z :=
  map (λ i : nat, (latest_block - 10 + Z.of_nat i)%Z) (seq 0 10).

(** The loop over the recent blocks: the gas prices collected.  A block
    whose fetch raises is logged and skipped. *)
Definition collect_gas_prices (w3 : Web3) (latest_block : Z) : list Z :=
  flat_map (λ block_num,
              match get_block w3 block_num with
              | Some transactions => omap id transactions
              | None => []
              end)
           (recent_blocks latest_block).

(** [statistics.median]: sorts its argument; the middle element, or the
    mean of the two middle elements. [None] on empty data, where it
    raises. *)
Definition median (data : list Z) : option Q :=
  let data := merge_sort Z.le data in
  let n := length data in
  if decide (n = 0) then None
  else if Nat.odd n then inject_Z <$> data !! (n / 2)
  else
    a ← data !! (n / 2 - 1);
    b ← data !! (n / 2);
    Some (inject_Z (a + b) / 2)%Q.

(** [gas_prices[int(len(gas_prices) * p)]]; [None] is an [IndexError]. *)
Definition percentile (gas_prices : list Z) (p : Q) : option Q :=
  inject_Z <$>
    gas_prices !! Z.to_nat (int (inject_Z (Z.of_nat (length gas_prices)) * p)).

Definition min_gas_price : Z := 1 * 10 ^ 9.
Definition standard_gas_price : Z := 20 * 10 ^ 9.

(** The body of the [try] of [get_optimal_gas_price], once the node has
    answered: [None] when an exception leaves it. *)
Definition optimal_from (gas_price : Z) (gas_prices : list Z)
    (strategy : string) : option Z :=
  let optimal_gas_price :=
    if decide (10 ≤ length gas_prices) then
      let gas_prices := merge_sort Z.le gas_prices in
      selected ←
        (if decide (strategy = "fast"%string)
         then percentile gas_prices (9 # 10)
         else if decide (strategy = "economic"%string)
         then percentile gas_prices (1 # 4)
         else median gas_prices);
      Some (int (selected * (105 # 100)))
    else
      if decide (strategy = "fast"%string)
      then Some (int (inject_Z gas_price * (12 # 10)))
      else if decide (strategy = "economic"%string)
      then Some (int (inject_Z gas_price * (9 # 10)))
      else Some gas_price in
  (λ p, Z.max p min_gas_price) <$> optimal_gas_price.

(** One request to the oracle: the node as it then answers, the tier and
    the time of the call. *)
Record Request := {
  node : Web3;
  tier : string;
  at_time : Q
}.

(** [get_optimal_gas_price(w3, strategy)] called at time [current_time]. *)
Definition get_optimal_gas_price (w3 : Web3) (strategy : string)
    (current_time : Q) (c : Cache) : Outcome Z :=
  let hit :=
    match last_gas_price c with
    | Some p =>
        if negb (p =? 0)%Z
           && Qltb (current_time - last_gas_update c) GAS_PRICE_CACHE_TTL
        then Some p else None
    | None => None
    end in
  match hit with
  | Some p => {| value := p; cache := c; io := [] |}
  | None =>
      match gas_price w3 with
      | None =>
          {| value := standard_gas_price; cache := c; io := [IO_gas_price] |}
      | Some gp =>
          match block_number w3 with
          | None =>
              {| value := standard_gas_price; cache := c;
                 io := [IO_gas_price; IO_block_number] |}
          | Some latest_block =>
              let reads :=
                [IO_gas_price; IO_block_number]
                  ++ map IO_get_block (recent_blocks latest_block) in
              match optimal_from gp (collect_gas_prices w3 latest_block)
                      strategy with
              | Some optimal_gas_price =>
                  {| value := optimal_gas_price;
                     cache := {| last_gas_price := Some optimal_gas_price;
                                 last_gas_update := current_time |};
                     io := reads |}
              | None =>
                  {| value := standard_gas_price; cache := c; io := reads |}
              end
          end
      end
  end.

(** The cache after a sequence of requests, starting cold. *)
Definition cache_after (requests : list Request) : Cache :=
  foldl (λ c r, cache (get_optimal_gas_price (node r) (tier r) (at_time r) c))
        cold requests.

(** Whatever the oracle caches is at least the minimum fee. *)
Definition cache_floor (c : Cache) : Prop :=
  ∀ p, last_gas_price c = Some p → (min_gas_price ≤ p)%Z.

(** [estimate_transaction_cost(w3, tx_params)].  The cost is returned
    as [from_wei] gives it, an [int] or a [Decimal]; the [except] clause
    returns the [float] 0.0. *)
Definition estimate_transaction_cost (w3 : Web3) (tx_params : TxParams)
    (current_time : Q) (c : Cache) : Outcome Number :=
  match estimate_gas w3 tx_params with
  | None => {| value := PyFloat 0; cache := c; io := [IO_estimate_gas] |}
  | Some gas_estimate =>
      let priced :=
        match gasPrice tx_params with
        | Some p =>
            if (p =? 0)%Z
            then get_optimal_gas_price w3 "balanced" current_time c
            else {| value := p; cache := c; io := [] |}
        | None => get_optimal_gas_price w3 "balanced" current_time c
        end in
      let cost_wei := (gas_estimate * value priced)%Z in
      {| value :=
           match from_wei w3 cost_wei with
           | Some cost_eth =>
               if (cost_wei =? 0)%Z then PyInt 0 else PyDecimal cost_eth
           | None => PyFloat 0
           end;
         cache := cache priced;
         io := IO_estimate_gas :: io priced |}
  end.

(** [is_transaction_profitable(w3, tx_params, expected_profit_eth)]; the
    verdict is [None] when [cost_eth * 1.2] raises. *)
Definition is_transaction_profitable (w3 : Web3) (tx_params : TxParams)
    (expected_profit_eth : Q) (current_time : Q) (c : Cache)
    : Outcome (option bool) :=
  let cost := estimate_transaction_cost w3 tx_params current_time c in
  let cost_with_margin := times_float (value cost) (12 # 10) in
  {| value := Qgtb expected_profit_eth <$> cost_with_margin;
     cache := cache cost;
     io := io cost |}.

End GasPrice.

(** ** temp_extract/utils/profitability.py *)

Module Profitability.
Import GasPrice.

(** What [calculate_profitability] returns:
    [(net_profit, profit_percentage, is_profitable)]. *)
Record Verdict := {
  net_profit : Q;
  profit_percentage : Q;
  is_profitable : bool
}.

Definition verdict (raw_profit total_cost buy_price quantity : Q) : Verdict :=
  let net_profit := (raw_profit - total_cost)%Q in
  let investment := (buy_price * quantity)%Q in
  {| net_profit := net_profit;
     profit_percentage :=
       if Qgtb investment 0 then (net_profit / investment * 100)%Q else 0%Q;
     is_profitable := Qgtb net_profit 0 |}.


(** [calculate_profitability].  [eth_price_usd] is what
    [get_web3_provider()] followed by [get_eth_price()] yields, which is
    [get_eth_price] above with the provider as shipped, and [None] when
    obtaining the provider or the price raises; the result is [None]
    when that exception reaches the caller.  On the estimated path the
    product of the cost and the price is inside the [try]: when it
    raises, the gas cost is left out. *)
Definition calculate_profitability (w3 : option Web3)
    (buy_price sell_price quantity : Q) (tx_params : option TxParams)
    (gas_cost_eth : option Q) (flash_loan_fee_percentage : Q)
    (is_flash_loan : bool) (eth_price_usd : option Q)
    (current_time : Q) (c : Cache) : Outcome (option Verdict) :=
  let raw_profit := ((sell_price - buy_price) * quantity)%Q in
  let total_cost :=
    if is_flash_loan
    then (0 + (buy_price * quantity) * (flash_loan_fee_percentage / 100))%Q
    else 0%Q in
  match gas_cost_eth with
  | Some gas_cost_eth =>
      {| value :=
           (λ price, verdict raw_profit (total_cost + gas_cost_eth * price)
                             buy_price quantity) <$> eth_price_usd;
         cache := c; io := [] |}
  | None =>
      match tx_params, w3 with
      | Some tx_params, Some w3 =>
          let cost := estimate_transaction_cost w3 tx_params current_time c in
          let total_cost :=
            match eth_price_usd with
            | Some price =>
                match times_float (value cost) price with
                | Some gas_cost_usd => (total_cost + gas_cost_usd)%Q
                | None => total_cost
                end
            | None => total_cost
            end in
          {| value := Some (verdict raw_profit total_cost buy_price quantity);
             cache := cache cost; io := io cost |}
      | _, _ =>
          {| value := Some (verdict raw_profit total_cost buy_price quantity);
             cache := c; io := [] |}
      end
  end.

Definition default_flash_loan_fee_percentage : Q := 9 # 100.


End Profitability.

(** ** temp_extract/utils/adaptive_parameters.py *)

Module Adaptive.
Import GasPrice.

(** The two options of the configuration the controller reads. *)
Record Config := {
  MIN_PROFIT_THRESHOLD : Q;
  SLIPPAGE_TOLERANCE : Q
}.

(** An entry of [execution_history]; [None] is Python's [None]. *)
Record ExecutionRecord := {
  timestamp : Q;
  spread_percentage : Q;
  profit_expected : Q;
  profit_realized : option Q;
  slippage : option Q;
  success : bool
}.

(** An entry of [exchange_performance]. *)
Record Performance := {
  success_count : Z;
  failure_count : Z;
  total_slippage : Q;
  execution_count : Z
}.

(** The opportunity handed to [update_from_execution]. *)
Record Opportunity := {
  strategy : string;
  exchange_1 : string;
  exchange_2 : string;
  opp_spread_percentage : Q;
  opp_profit_expected : Q;
  opp_profit_realized : option Q;
  opp_slippage : option Q;
  order_status : string
}.

(** The controller.  [execution_history] is iterated in insertion order,
    so it is an association list. *)
Record AdaptiveParameters := {
  config : Config;
  min_profit_threshold : Q;
  slippage_tolerance : Q;
  execution_history : list (string * list ExecutionRecord);
  exchange_performance : gmap string Performance;
  last_update_time : Q
}.

(** [AdaptiveParameters.__init__], run at time [now]. *)
Definition init (cfg : Config) (now : Q) : AdaptiveParameters :=
  {| config := cfg;
     min_profit_threshold := MIN_PROFIT_THRESHOLD cfg;
     slippage_tolerance := SLIPPAGE_TOLERANCE cfg;
     execution_history :=
       [("CEX Arbitrage"%string, []); ("DEX Arbitrage"%string, []);
        ("Triangular Arbitrage"%string, []); ("Flash Loan"%string, [])];
     exchange_performance := ∅;
     last_update_time := now |}.

(** Python's two-argument [max] and [min]: the first argument unless the
    second is strictly beyond it. *)
Definition py_max (a b : Q) : Q := if Qgtb b a then b else a.
Definition py_min (a b : Q) : Q := if Qltb b a then b else a.

(** [sum(l)] and [sum(l) / len(l)]. *)
Definition Qsum (l : list Q) : Q := foldl Qplus 0%Q l.
Definition mean (l : list Q) : Q :=
  (Qsum l / inject_Z (Z.of_nat (length l)))%Q.

(** [l[-n:]]. *)
Definition last_n {A} (n : nat) (l : list A) : list A :=
  drop (length l - n) l.

Definition weight_recent_success : Q := 5 # 10.
Definition weight_slippage : Q := 3 # 10.
Definition weight_profit_ratio : Q := 2 # 10.

(** The three lists gathered by the loop of [_update_parameters] over the
    strategies: the per-strategy mean slippages, success rates and
    profit-realization ratios of the last 20 executions. *)
Record Gathered := {
  all_slippages : list Q;
  all_success_rates : list Q;
  all_profit_ratios : list Q
}.

Definition gather_strategy (g : Gathered) (history : list ExecutionRecord)
    : Gathered :=
  match history with
  | [] => g
  | _ =>
      let recent_history := last_n 20 history in
      let slippages := omap slippage recent_history in
      let success_count :=
        length (filter (λ h, success h = true) recent_history) in
      let success_rate :=
        (inject_Z (Z.of_nat success_count)
           / inject_Z (Z.of_nat (length recent_history)))%Q in
      let profit_ratios :=
        omap (λ h, realized ← profit_realized h;
                   Some (if Qgtb (profit_expected h) 0
                         then (realized / profit_expected h)%Q else 0%Q))
             recent_history in
      {| all_slippages :=
           match slippages with
           | [] => all_slippages g
           | _ => all_slippages g ++ [mean slippages]
           end;
         all_success_rates := all_success_rates g ++ [success_rate];
         all_profit_ratios :=
           match profit_ratios with
           | [] => all_profit_ratios g
           | _ => all_profit_ratios g ++ [mean profit_ratios]
           end |}
  end.

Definition gather (execution_history : list (string * list ExecutionRecord))
    : Gathered :=
  foldl gather_strategy
        {| all_slippages := []; all_success_rates := [];
           all_profit_ratios := [] |}
        (execution_history.*2).

(** What the loop collects, written as one list comprehension per list:
    over the strategies in order, the mean of the slippages recorded
    among the last 20 executions, for the strategies that have one; the
    fraction of successes among the last 20 executions, for the
    strategies with a history; and the mean of the profit-realization
    ratios of the last 20 executions, for the strategies that have
    one. *)
Definition recent_slippage_means
    (execution_history : list (string * list ExecutionRecord)) : list Q :=
  omap (λ e, match omap slippage (last_n 20 e.2) with
             | [] => None
             | slippages => Some (mean slippages)
             end)
       execution_history.

Definition recent_success_rates
    (execution_history : list (string * list ExecutionRecord)) : list Q :=
  omap (λ e, match e.2 with
             | [] => None
             | _ =>
                 let recent_history := last_n 20 e.2 in
                 Some (inject_Z (Z.of_nat (length (filter (λ h, success h = true)
                                                          recent_history)))
                         / inject_Z (Z.of_nat (length recent_history)))%Q
             end)
       execution_history.

Definition recent_profit_ratio_means
    (execution_history : list (string * list ExecutionRecord)) : list Q :=
  omap (λ e, match omap (λ h, realized ← profit_realized h;
                              Some (if Qgtb (profit_expected h) 0
                                    then (realized / profit_expected h)%Q
                                    else 0%Q))
                        (last_n 20 e.2) with
             | [] => None
             | profit_ratios => Some (mean profit_ratios)
             end)
       execution_history.

(** The averages across strategies, when each of the three lists has an
    entry; otherwise [_update_parameters] changes nothing. *)
Record Averages := {
  avg_slippage : Q;
  avg_success_rate : Q;
  avg_profit_ratio : Q
}.

Definition averages (g : Gathered) : option Averages :=
  match all_slippages g, all_success_rates g, all_profit_ratios g with
  | _ :: _, _ :: _, _ :: _ =>
      Some {| avg_slippage := mean (all_slippages g);
              avg_success_rate := mean (all_success_rates g);
              avg_profit_ratio := mean (all_profit_ratios g) |}
  | _, _, _ => None
  end.

Definition combined_factor (a : Averages) : Q :=
  let slippage_factor := (1 + avg_slippage a / 10)%Q in
  let success_factor := (2 - avg_success_rate a)%Q in
  let profit_factor := (1 + (1 - avg_profit_ratio a))%Q in
  (weight_slippage * slippage_factor
   + weight_recent_success * success_factor
   + weight_profit_ratio * profit_factor)%Q.

(** [AdaptiveParameters._update_parameters]. *)
Definition _update_parameters (self : AdaptiveParameters)
    : AdaptiveParameters :=
  match averages (gather (execution_history self)) with
  | Some a =>
      let base_threshold := MIN_PROFIT_THRESHOLD (config self) in
      let new_threshold := (base_threshold * combined_factor a)%Q in
      let min_threshold := (base_threshold * (1 # 2))%Q in
      let max_threshold := (base_threshold * 3)%Q in
      let min_slippage := (SLIPPAGE_TOLERANCE (config self) * (1 # 2))%Q in
      let max_slippage := (SLIPPAGE_TOLERANCE (config self) * 3)%Q in
      {| config := config self;
         min_profit_threshold :=
           py_max min_threshold (py_min new_threshold max_threshold);
         slippage_tolerance :=
           py_max min_slippage
                  (py_min (avg_slippage a * (15 # 10))%Q max_slippage);
         execution_history := execution_history self;
         exchange_performance := exchange_performance self;
         last_update_time := last_update_time self |}
  | None => self
  end.

(** [AdaptiveParameters.get_min_profit_threshold], called at time [now]:
    the threshold, and the controller it leaves. *)
Definition get_min_profit_threshold (now : Q) (self : AdaptiveParameters)
    : Q * AdaptiveParameters :=
  let self :=
    if Qgtb (now - last_update_time self) 3600 then
      let self := _update_parameters self in
      {| config := config self;
         min_profit_threshold := min_profit_threshold self;
         slippage_tolerance := slippage_tolerance self;
         execution_history := execution_history self;
         exchange_performance := exchange_performance self;
         last_update_time := now |}
    else self in
  (min_profit_threshold self, self).

(** [AdaptiveParameters.get_slippage_tolerance]. *)
Definition get_slippage_tolerance (self : AdaptiveParameters) : Q :=
  slippage_tolerance self.

(** The update of one exchange's counters in [update_from_execution];
    the flag is [false] when adding a missing slippage raises, after the
    counters have been incremented. *)
Definition record_exchange (o : Opportunity)
    (performance : gmap string Performance) (exchange : string)
    : gmap string Performance * bool :=
  let perf :=
    default {| success_count := 0; failure_count := 0;
               total_slippage := 0; execution_count := 0 |}
            (performance !! exchange) in
  let filled := bool_decide (order_status o = "filled"%string) in
  let counted :=
    {| success_count :=
         if filled then (success_count perf + 1)%Z else success_count perf;
       failure_count :=
         if filled then failure_count perf else (failure_count perf + 1)%Z;
       total_slippage := total_slippage perf;
       execution_count := (execution_count perf + 1)%Z |} in
  match opp_slippage o with
  | Some s =>
      (<[exchange :=
           {| success_count := success_count counted;
              failure_count := failure_count counted;
              total_slippage := (total_slippage perf + s)%Q;
              execution_count := execution_count counted |}]> performance,
       true)
  | None => (<[exchange := counted]> performance, false)
  end.

(** [history[strategy] = f(history[strategy])], [None] on a [KeyError]. *)
Fixpoint alter_history (f : list ExecutionRecord → list ExecutionRecord)
    (strategy : string) (h : list (string * list ExecutionRecord))
    : option (list (string * list ExecutionRecord)) :=
  match h with
  | [] => None
  | (k, v) :: h' =>
      if decide (k = strategy) then Some ((k, f v) :: h')
      else (λ r, (k, v) :: r) <$> alter_history f strategy h'
  end.

(** [AdaptiveParameters.update_from_execution], called at time [now]:
    the controller it leaves, whether it returns or raises part-way. *)
Definition update_from_execution (now : Q) (o : Opportunity)
    (self : AdaptiveParameters) : AdaptiveParameters :=
  let execution_record :=
    {| timestamp := now;
       spread_percentage := opp_spread_percentage o;
       profit_expected := opp_profit_expected o;
       profit_realized := opp_profit_realized o;
       slippage := opp_slippage o;
       success := bool_decide (order_status o = "filled"%string) |} in
  match alter_history (λ h, last_n 100 (h ++ [execution_record]))
          (strategy o) (execution_history self) with
  | None => self
  | Some history =>
      let '(performance, ok) :=
        record_exchange o (exchange_performance self) (exchange_1 o) in
      let performance :=
        if ok then (record_exchange o performance (exchange_2 o)).1
        else performance in
      {| config := config self;
         min_profit_threshold := min_profit_threshold self;
         slippage_tolerance := slippage_tolerance self;
         execution_history := history;
         exchange_performance := performance;
         last_update_time := last_update_time self |}
  end.

(** The calls a client can make on the controller. *)
Inductive Call :=
| UpdateFromExecution (now : Q) (o : Opportunity)
| GetMinProfitThreshold (now : Q)
| UpdateParameters.

Definition apply_call (self : AdaptiveParameters) (c : Call)
    : AdaptiveParameters :=
  match c with
  | UpdateFromExecution now o => update_from_execution now o self
  | GetMinProfitThreshold now => (get_min_profit_threshold now self).2
  | UpdateParameters => _update_parameters self
  end.

(** The controller built at time [start] after a sequence of calls. *)
Definition after (cfg : Config) (start : Q) (calls : list Call)
    : AdaptiveParameters :=
  foldl apply_call (init cfg start) calls.

(** [y] is [x] clamped to the interval from [lo] to [hi]. *)
Definition clamped (lo hi x y : Q) : Prop :=
  ((x < lo)%Q → (y == lo)%Q) ∧
  ((hi < x)%Q → (y == hi)%Q) ∧
  ((lo <= x)%Q → (x <= hi)%Q → (y == x)%Q).

(** Both parameters lie within half and three times their configured
    base. *)
Definition within_bounds (self : AdaptiveParameters) : Prop :=
  let base := MIN_PROFIT_THRESHOLD (config self) in
  let tolerance := SLIPPAGE_TOLERANCE (config self) in
  (base * (1 # 2) <= min_profit_threshold self)%Q ∧
  (min_profit_threshold self <= base * 3)%Q ∧
  (tolerance * (1 # 2) <= slippage_tolerance self)%Q ∧
  (slippage_tolerance self <= tolerance * 3)%Q.

(** The slippage tolerance as the specification words it: 1.5 times the
    mean of the slippages observed, clamped to between 0.5 and 3 times
    the base tolerance. *)
Definition spec_slippage_tolerance (base_tolerance : Q) (observed : list Q)
    : Q :=
  py_max (base_tolerance * (1 # 2))
         (py_min (mean observed * (15 # 10)) (base_tolerance * 3)).

(** The configured bases are not negative. *)
Definition config_nonneg (cfg : Config) : Prop :=
  (0 <= MIN_PROFIT_THRESHOLD cfg)%Q ∧ (0 <= SLIPPAGE_TOLERANCE cfg)%Q.

(** [AdaptiveParameters._get_exchange_performance_factor]. *)
Definition _get_exchange_performance_factor (exchange : string)
    (self : AdaptiveParameters) : Q :=
  match exchange_performance self !! exchange with
  | None => 1
  | Some perf =>
      let total_executions := execution_count perf in
      if (total_executions =? 0)%Z then 1
      else
        let success_rate :=
          (inject_Z (success_count perf) / inject_Z total_executions)%Q in
        let avg_slippage :=
          if (0 <? total_executions)%Z
          then (total_slippage perf / inject_Z total_executions)%Q else 0%Q in
        let success_component := (success_rate * (15 # 10))%Q in
        let slippage_component := (1 - avg_slippage / 20)%Q in
        let slippage_component := py_max (5 # 10) slippage_component in
        let factor := ((success_component + slippage_component) / 2)%Q in
        py_max (5 # 10) (py_min factor (15 # 10))
  end.

(** The counters of an exchange add up. *)
Definition counters_add_up (perf : Performance) : Prop :=
  (execution_count perf = success_count perf + failure_count perf)%Z ∧
  (0 ≤ success_count perf)%Z ∧ (0 ≤ failure_count perf)%Z ∧
  (1 ≤ execution_count perf)%Z.

(** The names of the strategies that [__init__] gives a history. *)
Definition strategies : list string :=
  ["CEX Arbitrage"; "DEX Arbitrage"; "Triangular Arbitrage"; "Flash Loan"]%string.

Definition max_history : nat := 100.

End Adaptive.

(** ** temp_extract/utils/profitability.py, the pure helpers *)

Module Sizing.
Import GasPrice Adaptive.

(** The order book handed to [estimate_slippage_impact]: its ["asks"] and
    ["bids"], each a list of price and volume; a missing key is an empty
    list.  An absent or empty dictionary is [None]. *)
Record OrderBook := {
  asks : list (Q * Q);
  bids : list (Q * Q)
}.

(** The factor that the [if]/[elif] chain applies for a volume ratio. *)
Definition ratio_factor (volume_ratio : Q) : Q :=
  if Qltb volume_ratio (1 # 100) then 5 # 10
  else if Qltb volume_ratio (5 # 100) then 8 # 10
  else if Qltb volume_ratio (2 # 10) then 12 # 10
  else 2.

(** [estimate_slippage_impact]. *)
Definition estimate_slippage_impact (order_size market_liquidity : Q)
    (order_book_depth : option OrderBook) : Q :=
  if Qle_bool market_liquidity 0 then 5
  else
    let base_slippage := (order_size / market_liquidity * 100)%Q in
    let base_slippage :=
      match order_book_depth with
      | Some book =>
          let total_asks_volume := Qsum (snd <$> asks book) in
          let total_bids_volume := Qsum (snd <$> bids book) in
          let volume_ratio :=
            if Qgtb (py_min total_asks_volume total_bids_volume) 0
            then (order_size / py_min total_asks_volume total_bids_volume)%Q
            else 1%Q in
          if Qltb volume_ratio (1 # 100) then (base_slippage * (5 # 10))%Q
          else if Qltb volume_ratio (5 # 100) then (base_slippage * (8 # 10))%Q
          else if Qltb volume_ratio (2 # 10) then (base_slippage * (12 # 10))%Q
          else (base_slippage * 2)%Q
      | None => base_slippage
      end in
    let slippage := py_min 10 base_slippage in
    py_max (5 # 100) slippage.

Section Rounded.
(** The verdict of [is_arbitrage_opportunity] at the threshold depends
    on how its float operations round, so the rounding is explicit
    here: every operation yields the rounding of its exact result. *)
Variable round : Q → Q.

(** [is_arbitrage_opportunity]: [(is_opportunity, spread_percentage)]. *)
Definition is_arbitrage_opportunity (buy_price sell_price
    min_spread_percentage fees_percentage : Q) : bool * Q :=
  if Qle_bool buy_price 0 || Qle_bool sell_price 0 then (false, 0%Q)
  else
    let spread_percentage :=
      round (round (round (sell_price - buy_price) / buy_price) * 100) in
    (Qgtb spread_percentage (round (min_spread_percentage + fees_percentage)),
     spread_percentage).
End Rounded.

(** A rounding is monotone and exact at 0, as rounding to the nearest
    float is. *)
Definition rounding (round : Q → Q) : Prop :=
  (∀ x y, (x <= y)%Q → (round x <= round y)%Q) ∧ (round 0 == 0)%Q.

Definition default_min_spread_percentage : Q := 1 # 10.
Definition default_fees_percentage : Q := 2 # 10.

End Sizing.

(** ** mev/mempool.py *)

Module Mempool.

(** A transaction hash: a 32-byte value. *)
Definition TxHash := N.

(** The entries of a transaction that the monitor reads. *)
Record Transaction := {
  input : option string;
  to : option string
}.

(** A registered method callback: its answer on a transaction, [None]
    when it raises. *)
Definition MethodCallback := Transaction → option bool.

(** What strategies registered before monitoring starts. *)
Record Filters := {
  interesting_addresses : gset string;
  interesting_methods : gmap string (gmap string MethodCallback)
}.

(** An event handed to the event bus. *)
Record Published := {
  topic : string;
  tx_hash : TxHash;
  tx : Transaction
}.

(** The monitor.  [pending_txs] is a dict read back in insertion order;
    [processed_txs] is a set, kept as the list of its elements in
    iteration order; [published] is what the event bus has been handed
    and [fetched] the transactions asked from the node, oldest first. *)
Record Monitor := {
  pending_txs : list (TxHash * Q);
  processed_txs : list TxHash;
  running : bool;
  tx_count : nat;
  interesting_tx_count : nat;
  published : list Published;
  fetched : list TxHash
}.

(** [MempoolMonitor.__init__] followed by [start]. *)
Definition started : Monitor :=
  {| pending_txs := []; processed_txs := []; running := true;
     tx_count := 0; interesting_tx_count := 0;
     published := []; fetched := [] |}.

(** *** The reconnect loop of [_connect_and_subscribe] *)

(** How streaming ends once the subscription is acknowledged. *)
Inductive StreamEnd :=
| Closed               (* ConnectionClosed on receive: inner loop breaks *)
| PingConnectionError  (* a connection error escapes the ping *)
| PingFailed.          (* the ping times out or fails otherwise *)

(** The outcome of one pass of the outer loop. *)
Inductive Attempt :=
| ConnectionError      (* ConnectionClosed, InvalidStatusCode or
                          ConnectionRefusedError while connecting *)
| UnexpectedError      (* any other exception while connecting *)
| NotSubscribed        (* the reply carries no "result" *)
| Streamed (ending : StreamEnd).

(** The locals of the loop, with the delays slept and the errors logged,
    oldest first.  An error message that ends with the text of the
    exception or of the reply is recorded up to that text. *)
Record Reconnect := {
  retry_count : Z;
  retry_delay : Z;
  slept : list Z;
  errors : list string
}.

Definition max_retries : Z := 10.
Definition base_delay : Z := 5.
Definition max_delay : Z := 60.

Definition fresh : Reconnect :=
  {| retry_count := 0; retry_delay := base_delay; slept := []; errors := [] |}.

(** The first [except] clause. *)
Definition on_connection_error (m : Monitor) (r : Reconnect)
    : Monitor * Reconnect :=
  let retry_count := (retry_count r + 1)%Z in
  if (max_retries <? retry_count)%Z then
    ({| pending_txs := pending_txs m; processed_txs := processed_txs m;
        running := false;
        tx_count := tx_count m;
        interesting_tx_count := interesting_tx_count m;
        published := published m; fetched := fetched m |},
     {| retry_count := retry_count; retry_delay := retry_delay r;
        slept := slept r;
        errors := errors r
                  ++ ["Max retries (10) exceeded. Stopping mempool monitor."%string] |})
  else
    (m,
     {| retry_count := retry_count;
        retry_delay := Z.min (retry_delay r * 2) max_delay;
        slept := slept r ++ [retry_delay r];
        errors := errors r |}).

(** The second [except] clause. *)
Definition on_unexpected_error (m : Monitor) (r : Reconnect)
    : Monitor * Reconnect :=
  (m,
   {| retry_count := retry_count r; retry_delay := retry_delay r;
      slept := slept r ++ [retry_delay r];
      errors := errors r
                ++ ["Unexpected error in websocket connection"%string] |}).

(** One pass of [while self.running]. *)
Definition attempt (s : Monitor * Reconnect) (a : Attempt)
    : Monitor * Reconnect :=
  let '(m, r) := s in
  if running m then
    match a with
    | ConnectionError => on_connection_error m r
    | UnexpectedError => on_unexpected_error m r
    | NotSubscribed =>
        (m, {| retry_count := retry_count r; retry_delay := retry_delay r;
               slept := slept r;
               errors := errors r ++ ["Failed to subscribe"%string] |})
    | Streamed ending =>
        let r := {| retry_count := 0; retry_delay := retry_delay r;
                    slept := slept r; errors := errors r |} in
        match ending with
        | Closed => (m, r)
        | PingConnectionError => on_connection_error m r
        | PingFailed => on_unexpected_error m r
        end
    end
  else s.

(** The loop over a sequence of outcomes, from a started monitor. *)
Definition connect_and_subscribe (attempts : list Attempt)
    : Monitor * Reconnect :=
  foldl attempt (started, fresh) attempts.

(** The outcomes that reach the first [except] clause. *)
Definition connection_failure (a : Attempt) : bool :=
  match a with
  | ConnectionError | Streamed PingConnectionError => true
  | _ => false
  end.

(** The outcomes in which the connection attempt itself fails: the
    exception is of one of the three classes of the first [except]
    clause, or of any other class. *)
Definition failed_attempt (a : Attempt) : Prop :=
  a = ConnectionError ∨ a = UnexpectedError.

(** How many outcomes of a list the first [except] clause counts. *)
Definition counted (attempts : list Attempt) : nat :=
  length (filter (λ a, connection_failure a = true) attempts).

(** *** Ingestion and classification *)

(** A message of the feed: not JSON, or an object with its ["method"] and
    the ["result"] of its ["params"], when present. *)
Inductive WsMessage :=
| InvalidJson
| Json (method : option string) (result : option TxHash).

(** [x in s] on the list of a set's elements. *)
Definition contains (x : TxHash) (l : list TxHash) : bool :=
  existsb (N.eqb x) l.

(** [d[k] = v] on a dict: an existing key keeps its position. *)
Fixpoint dict_set (k : TxHash) (v : Q) (d : list (TxHash * Q))
    : list (TxHash * Q) :=
  match d with
  | [] => [(k, v)]
  | (k', v') :: d' =>
      if decide (k' = k) then (k, v) :: d' else (k', v') :: dict_set k v d'
  end.

(** [d.pop(k, None)]. *)
Definition dict_pop (k : TxHash) (d : list (TxHash * Q)) : list (TxHash * Q) :=
  filter (λ e, e.1 ≠ k) d.

(** [MempoolMonitor._handle_websocket_message], at time [now]. *)
Definition _handle_websocket_message (now : Q) (message : WsMessage)
    (m : Monitor) : Monitor :=
  match message with
  | Json (Some method) (Some tx_hash) =>
      if decide (method = "eth_subscription"%string) then
        if contains tx_hash (processed_txs m) then m
        else
          {| pending_txs := dict_set tx_hash now (pending_txs m);
             processed_txs := processed_txs m;
             running := running m;
             tx_count := S (tx_count m);
             interesting_tx_count := interesting_tx_count m;
             published := published m; fetched := fetched m |}
      else m
  | _ => m
  end.

(** [MempoolMonitor._is_interesting_transaction]. *)
Definition _is_interesting_transaction (f : Filters) (tx : Transaction)
    : bool :=
  match input tx with
  | None => false
  | Some input_data =>
      if decide (input_data = ""%string ∨ input_data = "0x"%string) then false
      else
        match to tx with
        | None => false
        | Some to_address =>
            if decide (to_address = ""%string) then false
            else if decide (to_address ∈ interesting_addresses f) then true
            else
              match interesting_methods f !! to_address with
              | None => false
              | Some methods =>
                  if decide (10 ≤ String.length input_data) then
                    match methods !! String.substring 0 10 input_data with
                    | Some callback => default false (callback tx)
                    | None => false
                    end
                  else false
              end
        end
  end.

Section Pipeline.
(** Where a Python set places a new element in its iteration order is
    decided by its hash table; [slot x l] is the position given to [x]
    in a set whose elements are iterated as [l]. *)
Variable slot : TxHash → list TxHash → nat.

Variable filters : Filters.

(** [s.add(x)]. *)
Definition set_add (x : TxHash) (l : list TxHash) : list TxHash :=
  if contains x l then l
  else take (slot x l) l ++ x :: drop (slot x l) l.

(** [set(l)]. *)
Definition set_of_list (l : list TxHash) : list TxHash :=
  foldl (λ s x, set_add x s) [] l.

(** [MempoolMonitor._process_transaction]; [node] is the node's answer
    to [get_transaction], [None] when the transaction is not found. *)
Definition _process_transaction (node : TxHash → option Transaction)
    (m : Monitor) (tx_hash : TxHash) : Monitor :=
  let interesting :=
    match node tx_hash with
    | Some tx => if _is_interesting_transaction filters tx then Some tx else None
    | None => None
    end in
  {| pending_txs := pending_txs m;
     processed_txs := processed_txs m;
     running := running m;
     tx_count := tx_count m;
     interesting_tx_count :=
       match interesting with
       | Some _ => S (interesting_tx_count m)
       | None => interesting_tx_count m
       end;
     published :=
       match interesting with
       | Some tx =>
           published m
             ++ [ {| topic := "interesting_transaction";
                     tx_hash := tx_hash; tx := tx |} ]
       | None => published m
       end;
     fetched := fetched m ++ [tx_hash] |}.

(** The hashes of a batch leave [pending_txs] and enter
    [processed_txs]. *)
Definition settle (tx_hashes : list TxHash) (m : Monitor) : Monitor :=
  foldl (λ m tx_hash,
           {| pending_txs := dict_pop tx_hash (pending_txs m);
              processed_txs := set_add tx_hash (processed_txs m);
              running := running m;
              tx_count := tx_count m;
              interesting_tx_count := interesting_tx_count m;
              published := published m; fetched := fetched m |})
        m tx_hashes.

Definition dedup_cap : N := 10000.
Definition dedup_keep : nat := 5000.

(** Whether the dedup set is over its cap. *)
Definition overflows (processed : list TxHash) : bool :=
  bool_decide (dedup_cap < N.of_nat (length processed))%N.

(** [if len(s) > 10000: s = set(list(s)[-5000:])]. *)
Definition limit (m : Monitor) : Monitor :=
  if overflows (processed_txs m) then
    {| pending_txs := pending_txs m;
       processed_txs :=
         set_of_list (drop (length (processed_txs m) - dedup_keep)
                           (processed_txs m));
       running := running m;
       tx_count := tx_count m;
       interesting_tx_count := interesting_tx_count m;
       published := published m; fetched := fetched m |}
  else m.

Definition batch_size : nat := 20.

(** The batch that a pass of the loop takes. *)
Definition next_batch (m : Monitor) : list TxHash :=
  take batch_size (pending_txs m).*1.

(** The monitor at the end of the [gather] of a pass: the batch has been
    fetched and classified, and the messages that arrived [during] the
    gather have been handled.  The tasks of a batch are taken in batch
    order; they and the message handler write different fields, so the
    interleaving does not show in the result apart from the order of the
    events of one batch. *)
Definition gathered (node : TxHash → option Transaction)
    (during : list (Q * WsMessage)) (m : Monitor) : Monitor :=
  foldl (λ m e, _handle_websocket_message e.1 e.2 m)
        (foldl (_process_transaction node) m (next_batch m))
        during.

(** One pass of the loop of [_process_pending_transactions]. *)
Definition process_batch (node : TxHash → option Transaction)
    (during : list (Q * WsMessage)) (m : Monitor) : Monitor :=
  match next_batch m with
  | [] => m
  | tx_hashes => limit (settle tx_hashes (gathered node during m))
  end.

(** What happens to a running monitor: a message arrives between two
    passes, or a pass runs. *)
Inductive Step :=
| Receive (now : Q) (message : WsMessage)
| ProcessBatch (node : TxHash → option Transaction)
               (during : list (Q * WsMessage)).

Definition step (m : Monitor) (s : Step) : Monitor :=
  match s with
  | Receive now message => _handle_websocket_message now message m
  | ProcessBatch node during => process_batch node during m
  end.

Definition run (steps : list Step) : Monitor := foldl step started steps.

(** Whether a step makes the dedup set overflow, and so evicts. *)
Definition evicts (m : Monitor) (s : Step) : bool :=
  match s with
  | Receive _ _ => false
  | ProcessBatch node during =>
      match next_batch m with
      | [] => false
      | tx_hashes =>
          overflows (processed_txs (settle tx_hashes (gathered node during m)))
      end
  end.

(** No step of the run evicts. *)
Fixpoint never_evicts (m : Monitor) (steps : list Step) : bool :=
  match steps with
  | [] => true
  | s :: steps => negb (evicts m s) && never_evicts (step m s) steps
  end.

(** Whether a step evicts hash [h]: the dedup set held [h] once the
    batch was settled, and no longer holds it after the cut. *)
Definition drops (h : TxHash) (m : Monitor) (s : Step) : bool :=
  match s with
  | Receive _ _ => false
  | ProcessBatch node during =>
      match next_batch m with
      | [] => false
      | tx_hashes =>
          let settled := settle tx_hashes (gathered node during m) in
          contains h (processed_txs settled)
            && negb (contains h (processed_txs (limit settled)))
      end
  end.

(** No step of the run evicts [h]. *)
Fixpoint never_drops (h : TxHash) (m : Monitor) (steps : list Step) : bool :=
  match steps with
  | [] => true
  | s :: steps => negb (drops h m s) && never_drops h (step m s) steps
  end.

(** How many events were published for a hash, and how many times it
    was fetched for classification. *)
Definition times_published (h : TxHash) (m : Monitor) : nat :=
  length (filter (λ e, tx_hash e = h) (published m)).
Definition times_classified (h : TxHash) (m : Monitor) : nat :=
  length (filter (λ x, x = h) (fetched m)).
End Pipeline.

(** *** Registration *)

Section Registration.
(** [Web3.to_checksum_address], [None] when it raises on a string that is
    no address, and the hex string of the keccak hash of a text. *)
Variable to_checksum_address : string → option string.
Variable keccak_hex : string → string.

(** [MempoolMonitor.register_interesting_address]; [None] when it
    raises. *)
Definition register_interesting_address (address : string) (f : Filters)
    : option Filters :=
  match to_checksum_address address with
  | None => None
  | Some address =>
      Some {| interesting_addresses := interesting_addresses f ∪ {[ address ]};
              interesting_methods := interesting_methods f |}
  end.

(** The method id of a signature: the first ten characters of the hex of
    its hash. *)
Definition method_id_of (method_signature : string) : string :=
  String.substring 0 10 (keccak_hex method_signature).

(** [MempoolMonitor.register_interesting_method]; [None] when it raises.
    Of the entry stored for a method id, the monitor reads the callback
    only. *)
Definition register_interesting_method (contract_address method_signature : string)
    (callback : MethodCallback) (f : Filters) : option Filters :=
  match to_checksum_address contract_address with
  | None => None
  | Some contract_address =>
      let method_id := method_id_of method_signature in
      let methods := default ∅ (interesting_methods f !! contract_address) in
      Some {| interesting_addresses := interesting_addresses f;
              interesting_methods :=
                <[contract_address := <[method_id := callback]> methods]>
                  (interesting_methods f) |}
  end.
End Registration.

(** In every run: the dedup set and the pending queue hold no hash twice,
    no pending hash is in the dedup set, the dedup set is within its cap,
    and the events published are for hashes that were fetched, in the
    order of the fetches. *)
Definition consistent (m : Monitor) : Prop :=
  NoDup (processed_txs m) ∧
  NoDup (pending_txs m).*1 ∧
  (∀ y, y ∈ (pending_txs m).*1 → y ∉ processed_txs m) ∧
  (N.of_nat (length (processed_txs m)) ≤ dedup_cap)%N ∧
  tx_hash <$> published m `sublist_of` fetched m.

(** As long as nothing was evicted: every hash fetched is in the dedup
    set, and none was fetched twice. *)
Definition remembered (m : Monitor) : Prop :=
  NoDup (fetched m) ∧ ∀ y, y ∈ fetched m → y ∈ processed_txs m.

End Mempool.

(** ** mev/flashbots.py *)

Module Flashbots.

(** The [rawTransaction] entry of a signed transaction: a hex string, or
    bytes. *)
Inductive RawTransaction :=
| RawStr (s : string)
| RawBytes (b : list N).

(** An element of the transaction list of a bundle. *)
Inductive Tx :=
| TxDict (rawTransaction : option RawTransaction)
| TxStr (s : string)
| TxOther.

(** The payload of the [submit_bundle] event. *)
Record BundleData := {
  transactions : option (list Tx);
  target_block : option Z
}.

(** The body of a relay request. *)
Record Payload := {
  method : string;
  txs : list string;
  blockNumber : string;
  minTimestamp : Z;
  maxTimestamp : Z;
  revertingTxHashes : option (list string)
}.

(** What comes back from a POST: the transport fails (timeout, refused
    connection), or a response arrives with its status. *)
Inductive HttpResult :=
| TransportError
| Response (status_code : Z).

(** The exceptions that end a relay submission. *)
Inductive SubmissionError :=
| UnsupportedFormat              (* [ValueError] of the conversion loop *)
| SigningError                   (* raised by [_sign_flashbots_request] *)
| RequestError                   (* raised by the HTTP client *)
| StatusError (status_code : Z)  (* [ValueError] on a status other than 200 *)
| JsonNotAwaitable.              (* raised by [await response.json()] *)

(** What a relay submission yields under [gather(return_exceptions=True)]:
    the value returned, or the exception raised. *)
Inductive Submission :=
| Answer (response_json : string)
| Raised (e : SubmissionError).

(** The event published on [bundle_submitted]. *)
Record BundleSubmitted := {
  flashbots_result : option string;
  eden_result : option string;
  event_target_block : Z
}.

(** The manager: its counter, with the requests it sent, the events it
    published and the errors it logged, oldest first. *)
Record Manager := {
  bundles_submitted : Z;
  posted : list (string * Payload);
  published : list BundleSubmitted;
  errors : list string
}.

Definition init : Manager :=
  {| bundles_submitted := 0; posted := []; published := []; errors := [] |}.

(** How a call ends. *)
Inductive Completion := Returns | Raises.

Definition flashbots_endpoint : string := "https://relay.flashbots.net".
Definition eden_endpoint : string := "https://api.edennetwork.io/v1/bundle".

Section Relays.
(** [bytes.hex()] and [hex(int)]. *)
Variable bytes_hex : list N → string.
Variable hex : Z → string.

(** [_sign_flashbots_request] over the request body: the signature for
    the header, [None] when signing raises.  The code hands
    [sign_message] the keccak digest of the body, where eth_account
    expects a signable message. *)
Variable sign : Payload → option string.

(** The network: what a POST of a body with its signature header to a
    URL comes back with. *)
Variable post : string → Payload → string → HttpResult.

(** The conversion loop at the head of both submissions; [None] is the
    [ValueError] on an unsupported format. *)
Fixpoint tx_list (transactions : list Tx) : option (list string) :=
  match transactions with
  | [] => Some []
  | tx :: rest =>
      hex_tx ←
        match tx with
        | TxDict (Some (RawStr s)) => Some s
        | TxDict (Some (RawBytes b)) => Some (bytes_hex b)
        | TxStr s => Some s
        | TxDict None | TxOther => None
        end;
      rest ← tx_list rest;
      Some (hex_tx :: rest)
  end.

(** The part shared by the two submissions, from the payload on: what
    the submission yields, and the request sent if one was.  On a status
    of 200 the code awaits [response.json()]; with httpx that is an
    ordinary method, which raises on a streamed response that was not
    read and whose result could not be awaited. *)
Definition send (endpoint : string) (payload : Payload)
    : Submission * list (string * Payload) :=
  match sign payload with
  | None => (Raised SigningError, [])
  | Some signature =>
      (match post endpoint payload signature with
       | TransportError => Raised RequestError
       | Response status_code =>
           if decide (status_code ≠ 200%Z)
           then Raised (StatusError status_code)
           else Raised JsonNotAwaitable
       end,
       [(endpoint, payload)])
  end.

(** The request bodies of the two relays. *)
Definition flashbots_payload (tx_list : list string) (target_block : Z)
    : Payload :=
  {| method := "eth_sendBundle"; txs := tx_list;
     blockNumber := hex target_block;
     minTimestamp := 0; maxTimestamp := 2 ^ 32 - 1;
     revertingTxHashes := Some [] |}.

Definition eden_payload (tx_list : list string) (target_block : Z) : Payload :=
  {| method := "eth_sendBundle"; txs := tx_list;
     blockNumber := hex target_block;
     minTimestamp := 0; maxTimestamp := 2 ^ 32 - 1;
     revertingTxHashes := None |}.

(** [FlashbotsManager._submit_to_flashbots]: the result, and the request
    sent if one was. *)
Definition _submit_to_flashbots (transactions : list Tx) (target_block : Z)
    : Submission * list (string * Payload) :=
  match tx_list transactions with
  | None => (Raised UnsupportedFormat, [])
  | Some tx_list =>
      send flashbots_endpoint (flashbots_payload tx_list target_block)
  end.

(** [FlashbotsManager._submit_to_eden]. *)
Definition _submit_to_eden (transactions : list Tx) (target_block : Z)
    : Submission * list (string * Payload) :=
  match tx_list transactions with
  | None => (Raised UnsupportedFormat, [])
  | Some tx_list => send eden_endpoint (eden_payload tx_list target_block)
  end.

(** [x if not isinstance(x, Exception) else None]. *)
Definition result_or_none (s : Submission) : option string :=
  match s with
  | Answer response_json => Some response_json
  | Raised _ => None
  end.

(** The error logged for a submission that raised, up to the text of
    the exception. *)
Definition submission_errors (name : string) (s : Submission)
    : list string :=
  match s with
  | Answer _ => []
  | Raised _ => [name +:+ " submission error"]
  end.

Definition missing_error : string :=
  "Missing transactions or target block in bundle submission".

(** [FlashbotsManager.submit_bundle]: the manager it leaves and how the
    call ends.  Both submissions are started and [gather] waits for
    both, whatever the first yields. *)
Definition submit_bundle (data : BundleData) (self : Manager)
    : Manager * Completion :=
  let rejected :=
    ({| bundles_submitted := bundles_submitted self;
        posted := posted self; published := published self;
        errors := errors self ++ [missing_error] |},
     Returns) in
  match default [] (transactions data), target_block data with
  | tx :: rest, Some target_block =>
      if decide (target_block = 0%Z) then rejected
      else
        let transactions := tx :: rest in
        let '(flashbots_result, flashbots_sent) :=
          _submit_to_flashbots transactions target_block in
        let '(eden_result, eden_sent) :=
          _submit_to_eden transactions target_block in
        ({| bundles_submitted := bundles_submitted self + 1;
            posted := posted self ++ flashbots_sent ++ eden_sent;
            published := published self
              ++ [ {| flashbots_result := result_or_none flashbots_result;
                      eden_result := result_or_none eden_result;
                      event_target_block := target_block |} ];
            errors := errors self
              ++ submission_errors "Flashbots" flashbots_result
              ++ submission_errors "Eden Network" eden_result |},
         Returns)
  | _, _ => rejected
  end.

(** The manager after the [submit_bundle] events of a list, oldest
    first. *)
Definition handled (requests : list BundleData) : Manager :=
  foldl (λ self data, (submit_bundle data self).1) init requests.
End Relays.

(** *** Starting and stopping *)

(** The running flag of the manager, with the subscribers of the event
    bus it was given. *)
Record Service := {
  running : bool;
  event_bus : EventBus.Subscribers
}.

(** [FlashbotsManager.__init__] on a bus. *)
Definition constructed (bus : EventBus.Subscribers) : Service :=
  {| running := false; event_bus := bus |}.

(** [FlashbotsManager.start]; [handler] is the bound method
    [self.submit_bundle]. *)
Definition start (handler : EventBus.Callback) (s : Service) : Service :=
  if running s then s
  else {| running := true;
          event_bus :=
            EventBus.subscribe "submit_bundle" handler (event_bus s) |}.

(** [FlashbotsManager.stop]. *)
Definition stop (handler : EventBus.Callback) (s : Service) : Service :=
  if negb (running s) then s
  else {| running := false;
          event_bus :=
            EventBus.unsubscribe "submit_bundle" handler (event_bus s) |}.

Inductive Command := Start | Stop.

Definition command (handler : EventBus.Callback) (s : Service) (c : Command)
    : Service :=
  match c with
  | Start => start handler s
  | Stop => stop handler s
  end.

(** A request that [submit_bundle] goes on to submit: a transaction
    list that is not empty and a target block that is not zero. *)
Definition submittable (data : BundleData) : Prop :=
  default [] (transactions data) ≠ [] ∧
  ∃ block, target_block data = Some block ∧ block ≠ 0%Z.

End Flashbots.

(** ** Scenarios used to exercise the embedding *)

Module Scenario.
Import GasPrice.

(** A node at block 110 whose ten previous blocks each hold one
    transaction, priced at 100 to 109 Gwei; the network fee is 50 Gwei. *)
Definition w3_ten_samples : Web3 :=
  {| gas_price := Some (50 * 10 ^ 9)%Z;
     block_number := Some 110%Z;
     get_block := λ n, Some [Some (n * 10 ^ 9)%Z];
     estimate_gas := λ _, Some 21000%Z;
     from_wei := λ wei, Some (wei # 10 ^ 18) |}.

(** A transaction whose fee is 2 ETH: 2 units of gas at 1 ETH each. *)
Definition w3_fee_two : Web3 :=
  {| gas_price := Some (50 * 10 ^ 9)%Z;
     block_number := Some 110%Z;
     get_block := λ n, Some [];
     estimate_gas := λ _, Some 2%Z;
     from_wei := λ wei, Some (wei # 10 ^ 18) |}.

Definition tx_fee_two : TxParams :=
  {| gasPrice := Some (10 ^ 18)%Z; body := "swap" |}.

(** The default configuration: a 0.1% minimum profit and a 0.2%
    slippage tolerance. *)
Definition default_config : Adaptive.Config :=
  {| Adaptive.MIN_PROFIT_THRESHOLD := 1 # 10;
     Adaptive.SLIPPAGE_TOLERANCE := 2 # 10 |}.

(** A filled DEX trade that realized 90% of its expected profit with 1%
    slippage. *)
Definition filled_trade : Adaptive.Opportunity :=
  {| Adaptive.strategy := "DEX Arbitrage";
     Adaptive.exchange_1 := "Uniswap";
     Adaptive.exchange_2 := "SushiSwap";
     Adaptive.opp_spread_percentage := 1;
     Adaptive.opp_profit_expected := 20 # 1000;
     Adaptive.opp_profit_realized := Some (18 # 1000);
     Adaptive.opp_slippage := Some 1%Q;
     Adaptive.order_status := "filled" |}.

(** A failed trade: 1% slippage was observed, no profit was realized. *)
Definition failed_trade : Adaptive.Opportunity :=
  {| Adaptive.strategy := "DEX Arbitrage";
     Adaptive.exchange_1 := "Uniswap";
     Adaptive.exchange_2 := "SushiSwap";
     Adaptive.opp_spread_percentage := 1;
     Adaptive.opp_profit_expected := 20 # 1000;
     Adaptive.opp_profit_realized := None;
     Adaptive.opp_slippage := Some 1%Q;
     Adaptive.order_status := "failed" |}.

(** Filled trades of two strategies, with 0.1% and 0.3% slippage. *)
Definition calm_trade : Adaptive.Opportunity :=
  {| Adaptive.strategy := "DEX Arbitrage";
     Adaptive.exchange_1 := "Uniswap";
     Adaptive.exchange_2 := "SushiSwap";
     Adaptive.opp_spread_percentage := 1;
     Adaptive.opp_profit_expected := 20 # 1000;
     Adaptive.opp_profit_realized := Some (20 # 1000);
     Adaptive.opp_slippage := Some (1 # 10);
     Adaptive.order_status := "filled" |}.

Definition rough_trade : Adaptive.Opportunity :=
  {| Adaptive.strategy := "CEX Arbitrage";
     Adaptive.exchange_1 := "Binance";
     Adaptive.exchange_2 := "Kraken";
     Adaptive.opp_spread_percentage := 1;
     Adaptive.opp_profit_expected := 20 # 1000;
     Adaptive.opp_profit_realized := Some (20 # 1000);
     Adaptive.opp_slippage := Some (3 # 10);
     Adaptive.order_status := "filled" |}.

(** Rounding to the nearest multiple of 1/1024, halves upwards. *)
Definition round_to_grid (x : Q) : Q :=
  (inject_Z (Qfloor (x * 1024 + (1 # 2))) / 1024)%Q.

(** A filter that watches one router, and a node that answers every
    hash with a swap sent to that router. *)
Definition watch_router : Mempool.Filters :=
  {| Mempool.interesting_addresses := {[ "0xRouter"%string ]};
     Mempool.interesting_methods := ∅ |}.

Definition swap_node : Mempool.TxHash → option Mempool.Transaction :=
  λ _, Some {| Mempool.input := Some "0x38ed1739"%string;
               Mempool.to := Some "0xRouter"%string |}.

(** A Python set that iterates in insertion order. *)
Definition insertion_order : Mempool.TxHash → list Mempool.TxHash → nat :=
  λ _ l, length l.

(** The feed notifies hash [h]. *)
Definition notify (h : Mempool.TxHash) : Mempool.Step :=
  Mempool.Receive 0 (Mempool.Json (Some "eth_subscription"%string) (Some h)).

Definition pass : Mempool.Step := Mempool.ProcessBatch swap_node [].

(** The [n] hashes from [h] on. *)
Fixpoint hashes_from (h : Mempool.TxHash) (n : nat) : list Mempool.TxHash :=
  match n with
  | 0 => []
  | S n => h :: hashes_from (N.succ h) n
  end.

(** The hashes 1 to [n] are delivered, each classified by a pass of its
    own. *)
Definition flood (n : nat) : list Mempool.Step :=
  flat_map (λ h, [notify h; pass]) (hashes_from 1%N n).

(** After the hashes 1 to 10001, hash 1 is delivered again and a pass
    runs. *)
Definition replay : list Mempool.Step :=
  flood (N.to_nat 10001) ++ [notify 1%N; pass].

(** After the hashes 1 to 10001, hash 10001, which the eviction kept, is
    delivered again and a pass runs. *)
Definition redelivery : list Mempool.Step :=
  flood (N.to_nat 10001) ++ [notify 10001%N; pass].

(** The event published for a hash, and the monitor once the hashes 1 to
    [k] have been delivered and classified with nothing evicted. *)
Definition swap_event (h : Mempool.TxHash) : Mempool.Published :=
  {| Mempool.topic := "interesting_transaction";
     Mempool.tx_hash := h;
     Mempool.tx := {| Mempool.input := Some "0x38ed1739"%string;
                      Mempool.to := Some "0xRouter"%string |} |}.

Definition flooded (k : nat) : Mempool.Monitor :=
  {| Mempool.pending_txs := [];
     Mempool.processed_txs := hashes_from 1%N k;
     Mempool.running := true;
     Mempool.tx_count := k;
     Mempool.interesting_tx_count := k;
     Mempool.published := swap_event <$> hashes_from 1%N k;
     Mempool.fetched := hashes_from 1%N k |}.

(** Two relays: Flashbots times out, Eden answers every request with
    status 200. *)
Definition one_relay_down
    : string → Flashbots.Payload → string → Flashbots.HttpResult :=
  λ endpoint _ _,
    if decide (endpoint = Flashbots.eden_endpoint)
    then Flashbots.Response 200
    else Flashbots.TransportError.

Definition no_hex_bytes : list N → string := λ _, "0x"%string.
Definition no_hex : Z → string := λ _, "0x64"%string.

(** Signing as it ends with eth_account, where [sign_message] refuses
    the digest, and a signer that succeeds. *)
Definition no_sign : Flashbots.Payload → option string := λ _, None.
Definition fixed_sign : Flashbots.Payload → option string :=
  λ _, Some "0xsig"%string.

(** A bundle of one raw transaction for block 100, a request without
    transactions, and a bundle whose only element is not a transaction. *)
Definition bundle : Flashbots.BundleData :=
  {| Flashbots.transactions := Some [Flashbots.TxStr "0xf86b"%string];
     Flashbots.target_block := Some 100%Z |}.

Definition bundle_without_transactions : Flashbots.BundleData :=
  {| Flashbots.transactions := None;
     Flashbots.target_block := Some 100%Z |}.

Definition malformed_bundle : Flashbots.BundleData :=
  {| Flashbots.transactions := Some [Flashbots.TxOther];
     Flashbots.target_block := Some 100%Z |}.

(** A node that cannot estimate gas. *)
Definition w3_no_estimate : Web3 :=
  {| gas_price := Some (50 * 10 ^ 9)%Z;
     block_number := Some 110%Z;
     get_block := λ n, Some [];
     estimate_gas := λ _, None;
     from_wei := λ wei, Some (wei # 10 ^ 18) |}.
End Scenario.

(* ===================================================================== *)
(** * Part II: the properties *)
(* ===================================================================== *)

(** ** Event bus *)

Section EventBusFacts.
Import EventBus.

Lemma list_remove_subset x l y : y ∈ list_remove x l → y ∈ l.
Proof.
  induction l as [|z l IH]; simpl; [done|].
  destruct (decide (x = z)) as [->|Hne]; [by right|].
  intros [->|H]%elem_of_cons; [left | right; auto].
Qed.

Lemma list_remove_nodup x l : NoDup l → NoDup (list_remove x l).
Proof.
  induction 1 as [|z l Hz Hl IH]; simpl; [constructor|].
  destruct (decide (x = z)); [done|].
  constructor; [|done]. intros H%list_remove_subset. done.
Qed.

Lemma bus_nodup_init : bus_nodup init.
Proof. intros t l. unfold init. by rewrite lookup_empty. Qed.

Lemma bus_nodup_insert t l (subscribers : Subscribers) :
  NoDup l → bus_nodup subscribers → bus_nodup (<[t := l]> subscribers).
Proof.
  intros Hl Hs t' l'. rewrite lookup_insert.
  case_decide; [naive_solver | apply Hs].
Qed.

Lemma subscribe_lookup t c (subscribers : Subscribers) :
  subscribe t c subscribers !! t =
    Some (let l := default [] (subscribers !! t) in
          if decide (c ∈ l) then l else l ++ [c]).
Proof.
  unfold subscribe. destruct (subscribers !! t) as [l|] eqn:E; simpl.
  - rewrite E. simpl. destruct (decide (c ∈ l)); [done|].
    by rewrite lookup_insert_eq.
  - rewrite lookup_insert_eq. simpl.
    destruct (decide (c ∈ [])) as [H|_]; [by apply elem_of_nil in H|].
    by rewrite lookup_insert_eq.
Qed.

Lemma bus_nodup_subscribe t c subscribers :
  bus_nodup subscribers → bus_nodup (subscribe t c subscribers).
Proof.
  intros Hs. unfold subscribe.
  destruct (subscribers !! t) as [l|] eqn:E; simpl.
  - rewrite E. simpl. destruct (decide (c ∈ l)); [done|].
    apply bus_nodup_insert; [|done].
    apply NoDup_app. split_and!; [by eapply Hs | | apply NoDup_singleton].
    intros x Hx ->%list_elem_of_singleton. done.
  - rewrite lookup_insert_eq. simpl.
    destruct (decide (c ∈ [])) as [H|_]; [by apply elem_of_nil in H|].
    apply bus_nodup_insert; [apply NoDup_singleton|].
    apply bus_nodup_insert; [constructor | done].
Qed.

Lemma bus_nodup_apply_op subscribers o :
  bus_nodup subscribers → bus_nodup (apply_op subscribers o).
Proof.
  intros Hs. destruct o as [t c|t c|[t|]]; simpl.
  - by apply bus_nodup_subscribe.
  - unfold unsubscribe. destruct (subscribers !! t) as [l|] eqn:E; [|done].
    destruct (decide (c ∈ l)); [|done].
    apply bus_nodup_insert; [|done]. apply list_remove_nodup. by eapply Hs.
  - destruct (decide (t = ""%string)); [apply bus_nodup_init|].
    destruct (subscribers !! t); [|done].
    apply bus_nodup_insert; [constructor | done].
  - apply bus_nodup_init.
Qed.

Lemma bus_nodup_after history : bus_nodup (after history).
Proof.
  unfold after. induction history as [|o h IH] using rev_ind; simpl.
  - apply bus_nodup_init.
  - rewrite foldl_app. simpl. by apply bus_nodup_apply_op.
Qed.

Lemma subscribe_twice t c subscribers :
  subscribe t c (subscribe t c subscribers) = subscribe t c subscribers.
Proof.
  unfold subscribe at 1. cbv zeta. rewrite !subscribe_lookup. simpl.
  set (l := default [] (subscribers !! t)).
  destruct (decide (c ∈ l)) as [Hin|Hnin].
  - rewrite decide_True; done.
  - rewrite decide_True; [done | set_solver].
Qed.

Context {Data : Type} (raises : Callback → Data → bool).

Lemma invocations_run_callbacks t (d : Data) c l :
  invocations c (run_callbacks raises t d l) =
    length (filter (λ x, x = c) l).
Proof.
  unfold invocations. induction l as [|x l IH]; simpl; [done|].
  rewrite !filter_cons. simpl.
  destruct (decide (x = c)); simpl; by rewrite IH.
Qed.

Lemma absent_count_zero (c : Callback) l :
  c ∉ l → length (filter (λ x, x = c) l) = 0.
Proof.
  induction l as [|x l IH]; intros Hc; [done|].
  rewrite filter_cons. destruct (decide (x = c)) as [->|Hne]; simpl.
  - exfalso. apply Hc. left.
  - apply IH. intros H. apply Hc. by right.
Qed.

Lemma nodup_count_one (c : Callback) l :
  NoDup l → c ∈ l → length (filter (λ x, x = c) l) = 1.
Proof.
  induction 1 as [|x l Hx Hl IH]; intros Hc; [by apply elem_of_nil in Hc|].
  rewrite filter_cons. destruct (decide (x = c)) as [->|Hne]; simpl.
  - f_equal. by apply absent_count_zero.
  - apply IH. by apply elem_of_cons in Hc as [->|Hc].
Qed.

(** C9.  On a bus reached by any history of subscriptions, removals and
    clears, subscribing a handler to a topic a second time changes
    nothing: the bus is the one obtained by subscribing it once, and a
    publish on that topic then calls the handler exactly once. *)
Theorem subscribe_idempotent_single_invocation
    (history : list Op) (event_type : string) (callback : Callback)
    (data : Data) :
  let once := subscribe event_type callback (after history) in
  let twice := subscribe event_type callback once in
  twice = once ∧
  publish raises event_type data twice = publish raises event_type data once ∧
  invocations callback (publish raises event_type data twice) = 1.
Proof.
  intros once twice.
  assert (Heq : twice = once) by apply subscribe_twice.
  split; [done|]. rewrite Heq. split; [done|].
  assert (Hnd : bus_nodup once)
    by (apply bus_nodup_subscribe, bus_nodup_after).
  unfold publish. pose proof (subscribe_lookup event_type callback
    (after history)) as Hl. fold once in Hl. rewrite Hl.
  rewrite invocations_run_callbacks.
  apply nodup_count_one; [by eapply Hnd|].
  simpl. case_decide; set_solver.
Qed.

End EventBusFacts.

(** ** Gas price oracle *)

Section GasPriceFacts.
Import GasPrice.

(** *** Truncation and comparisons *)

Lemma int_nonneg (x : Q) : (0 ≤ Qnum x)%Z → int x = Qfloor x.
Proof.
  destruct x as [a b]. simpl. intros Ha. unfold int. simpl.
  apply Z.quot_div_nonneg; lia.
Qed.

Lemma int_nonpos (x : Q) : (Qnum x ≤ 0)%Z → int x = Qceiling x.
Proof.
  destruct x as [a b]. simpl. intros Ha. unfold int, Qceiling. simpl.
  rewrite <- (Z.opp_involutive a) at 1.
  rewrite Z.quot_opp_l by lia. f_equal.
  apply Z.quot_div_nonneg; lia.
Qed.

Lemma int_mono (x y : Q) : (x <= y)%Q → (int x ≤ int y)%Z.
Proof.
  intros Hxy.
  destruct (Z.le_gt_cases 0 (Qnum x)) as [Hx|Hx].
  - assert (0 ≤ Qnum y)%Z.
    { unfold Qle in Hxy. destruct x as [a b], y as [c d]; simpl in *. nia. }
    rewrite !int_nonneg by done. by apply Qfloor_resp_le.
  - destruct (Z.le_gt_cases 0 (Qnum y)) as [Hy|Hy].
    + rewrite (int_nonpos x) by lia. rewrite (int_nonneg y) by done.
      transitivity 0%Z.
      * change 0%Z with (Qceiling 0). apply Qceiling_resp_le.
        unfold Qle. simpl. lia.
      * change 0%Z with (Qfloor 0). apply Qfloor_resp_le.
        unfold Qle. simpl. lia.
    + rewrite !int_nonpos by lia. by apply Qceiling_resp_le.
Qed.

Lemma Qgtb_true (a b : Q) : Qgtb a b = true ↔ (b < a)%Q.
Proof.
  unfold Qgtb. rewrite negb_true_iff, <- not_true_iff_false, Qle_bool_iff.
  split; [apply Qnot_le_lt | apply Qlt_not_le].
Qed.

Lemma Qltb_true (a b : Q) : Qltb a b = true ↔ (a < b)%Q.
Proof. apply Qgtb_true. Qed.

(** *** Sorted samples *)

Lemma sorted_lookup_le (l : list Z) i j a b :
  StronglySorted Z.le l → i ≤ j → l !! i = Some a → l !! j = Some b →
  (a ≤ b)%Z.
Proof.
  intros Hl. revert i j. induction Hl as [|x l Hl IH Hx]; intros i j Hij Ha Hb.
  - done.
  - destruct i as [|i], j as [|j]; simpl in *.
    + naive_solver lia.
    + injection Ha as <-. rewrite Forall_forall in Hx.
      apply Hx. by eapply list_elem_of_lookup_2.
    + lia.
    + apply (IH i j); [lia | done | done].
Qed.

Lemma merge_sort_sorted (l : list Z) : StronglySorted Z.le (merge_sort Z.le l).
Proof. apply StronglySorted_merge_sort; apply _. Qed.

Lemma merge_sort_length (l : list Z) : length (merge_sort Z.le l) = length l.
Proof. apply Permutation_length, merge_sort_Permutation. Qed.

Lemma merge_sort_idem (l : list Z) :
  merge_sort Z.le (merge_sort Z.le l) = merge_sort Z.le l.
Proof.
  apply (StronglySorted_unique Z.le); try apply merge_sort_sorted.
  apply merge_sort_Permutation.
Qed.

Lemma merge_sort_of_sorted (l : list Z) :
  StronglySorted Z.le l → merge_sort Z.le l = l.
Proof.
  intros Hl. apply (StronglySorted_unique Z.le); [apply merge_sort_sorted|done|].
  apply merge_sort_Permutation.
Qed.

Ltac nat_div :=
  repeat match goal with
  | |- context [?a / ?b] =>
      lazymatch type of a with nat =>
        pose proof (Nat.div_mod_eq a b);
        pose proof (Nat.mod_upper_bound a b ltac:(lia));
        generalize dependent (a mod b); generalize dependent (a / b); intros
      end
  end.

Lemma percentile_index_fast (n : nat) :
  Z.to_nat (int (inject_Z (Z.of_nat n) * (9 # 10))) = n * 9 / 10.
Proof.
  unfold int, Qmult, inject_Z. cbn [Qnum Qden].
  change (1 * 10)%positive with 10%positive.
  rewrite Z.quot_div_nonneg by lia.
  rewrite <- (Nat2Z.id (n * 9 / 10)). f_equal.
  by rewrite Nat2Z.inj_div, Nat2Z.inj_mul.
Qed.

Lemma percentile_index_economic (n : nat) :
  Z.to_nat (int (inject_Z (Z.of_nat n) * (1 # 4))) = n / 4.
Proof.
  unfold int, Qmult, inject_Z. cbn [Qnum Qden].
  change (1 * 4)%positive with 4%positive.
  rewrite Z.mul_1_r, Z.quot_div_nonneg by lia.
  rewrite <- (Nat2Z.id (n / 4)). f_equal. by rewrite Nat2Z.inj_div.
Qed.

Lemma inject_Z_le (a b : Z) : (a ≤ b)%Z → (inject_Z a <= inject_Z b)%Q.
Proof. intros. unfold Qle. simpl. lia. Qed.

(** On sorted samples the three statistics exist and are ordered. *)
Lemma statistics_ordered (l : list Z) :
  StronglySorted Z.le l → 4 ≤ length l →
  ∃ p90 p50 p25 : Q,
    percentile l (9 # 10) = Some p90 ∧ median l = Some p50 ∧
    percentile l (1 # 4) = Some p25 ∧
    (p25 <= p50)%Q ∧ (p50 <= p90)%Q.
Proof.
  intros Hl Hn. unfold percentile, median.
  rewrite percentile_index_fast, percentile_index_economic.
  rewrite (merge_sort_of_sorted l Hl).
  set (n := length l) in *.
  destruct (lookup_lt_is_Some_2 l (n * 9 / 10)) as [f Hf].
  { fold n. nat_div. lia. }
  destruct (lookup_lt_is_Some_2 l (n / 4)) as [e He].
  { fold n. nat_div. lia. }
  destruct (lookup_lt_is_Some_2 l (n / 2)) as [m Hm].
  { fold n. nat_div. lia. }
  destruct (lookup_lt_is_Some_2 l (n / 2 - 1)) as [m' Hm'].
  { fold n. nat_div. lia. }
  assert (Hem' : (e ≤ m')%Z).
  { apply (sorted_lookup_le l (n / 4) (n / 2 - 1)); [done| |done|done].
    nat_div. lia. }
  assert (Hm'm : (m' ≤ m)%Z).
  { apply (sorted_lookup_le l (n / 2 - 1) (n / 2)); [done|lia|done|done]. }
  assert (Hmf : (m ≤ f)%Z).
  { apply (sorted_lookup_le l (n / 2) (n * 9 / 10)); [done| |done|done].
    nat_div. lia. }
  rewrite Hf, He, Hm, Hm'. simpl.
  rewrite decide_False by lia.
  destruct (Nat.odd n).
  - exists (inject_Z f), (inject_Z m), (inject_Z e).
    split_and!; try done; apply inject_Z_le; lia.
  - exists (inject_Z f), (inject_Z (m' + m) / 2)%Q, (inject_Z e).
    split_and!; try done; unfold Qle, Qdiv; simpl; lia.
Qed.

Lemma buffer_floor_mono (x y : Q) :
  (x <= y)%Q →
  (Z.max (int (x * (105 # 100))) min_gas_price
     ≤ Z.max (int (y * (105 # 100))) min_gas_price)%Z.
Proof.
  intros Hxy. apply Z.max_le_compat_r, int_mono.
  apply Qmult_le_compat_r; [done|]. unfold Qle. simpl. lia.
Qed.

(** On a cold cache with a responsive node and at least ten samples,
    every tier is the buffered, floored statistic of the sorted samples. *)
Lemma cold_estimate (w3 : Web3) (gp latest_block : Z) (now : Q)
    (strategy : string) (sel : Q) :
  gas_price w3 = Some gp → block_number w3 = Some latest_block →
  10 ≤ length (collect_gas_prices w3 latest_block) →
  (if decide (strategy = "fast"%string)
   then percentile (merge_sort Z.le (collect_gas_prices w3 latest_block))
          (9 # 10)
   else if decide (strategy = "economic"%string)
   then percentile (merge_sort Z.le (collect_gas_prices w3 latest_block))
          (1 # 4)
   else median (merge_sort Z.le (collect_gas_prices w3 latest_block)))
    = Some sel →
  value (get_optimal_gas_price w3 strategy now cold)
    = Z.max (int (sel * (105 # 100))) min_gas_price.
Proof.
  intros Hgp Hbn Hlen Hsel. unfold get_optimal_gas_price. simpl.
  rewrite Hgp, Hbn. unfold optimal_from.
  rewrite decide_True by done. rewrite Hsel. done.
Qed.

(** C8.  With a cold cache, a responsive node and at least ten fee
    samples, the three tiers are the 90th percentile, the median and the
    25th percentile of the sorted samples, each with the 5% buffer and
    floored at the minimum fee, and fast >= balanced >= economic. *)
Theorem tier_estimates_ordered (w3 : Web3) (current_gas_price latest_block : Z)
    (current_time : Q) :
  gas_price w3 = Some current_gas_price →
  block_number w3 = Some latest_block →
  10 ≤ length (collect_gas_prices w3 latest_block) →
  let estimate strategy :=
    value (get_optimal_gas_price w3 strategy current_time cold) in
  let samples := merge_sort Z.le (collect_gas_prices w3 latest_block) in
  ∃ p90 p50 p25 : Q,
    percentile samples (9 # 10) = Some p90 ∧
    median samples = Some p50 ∧
    percentile samples (1 # 4) = Some p25 ∧
    estimate "fast"%string = Z.max (int (p90 * (105 # 100))) min_gas_price ∧
    estimate "balanced"%string = Z.max (int (p50 * (105 # 100))) min_gas_price ∧
    estimate "economic"%string = Z.max (int (p25 * (105 # 100))) min_gas_price ∧
    (estimate "economic"%string ≤ estimate "balanced"%string)%Z ∧
    (estimate "balanced"%string ≤ estimate "fast"%string)%Z.
Proof.
  intros Hgp Hbn Hlen estimate samples.
  destruct (statistics_ordered samples) as (p90 & p50 & p25 & H90 & H50 & H25 & Hlo & Hhi).
  { apply merge_sort_sorted. }
  { unfold samples. rewrite merge_sort_length. lia. }
  assert (Hf : estimate "fast"%string = Z.max (int (p90 * (105 # 100))) min_gas_price).
  { by apply (cold_estimate w3 current_gas_price latest_block). }
  assert (Hb : estimate "balanced"%string = Z.max (int (p50 * (105 # 100))) min_gas_price).
  { by apply (cold_estimate w3 current_gas_price latest_block). }
  assert (He : estimate "economic"%string = Z.max (int (p25 * (105 # 100))) min_gas_price).
  { by apply (cold_estimate w3 current_gas_price latest_block). }
  exists p90, p50, p25. split_and!; try done.
  - rewrite He, Hb. by apply buffer_floor_mono.
  - rewrite Hb, Hf. by apply buffer_floor_mono.
Qed.

Lemma tier_estimates_ordered_witness :
  let estimate strategy :=
    value (get_optimal_gas_price Scenario.w3_ten_samples strategy 0 cold) in
  (estimate "economic"%string ≤ estimate "balanced"%string)%Z ∧
  (estimate "balanced"%string ≤ estimate "fast"%string)%Z.
Proof.
  destruct (tier_estimates_ordered Scenario.w3_ten_samples
              (50 * 10 ^ 9) 110 0)
    as (p90 & p50 & p25 & _ & _ & _ & _ & _ & _ & Hlo & Hhi).
  - reflexivity.
  - reflexivity.
  - vm_compute. lia.
  - split; [exact Hlo | exact Hhi].
Defined.

(** *** The cache *)

Lemma cache_floor_step (w3 : Web3) (strategy : string) (now : Q) (c : Cache) :
  cache_floor c → cache_floor (cache (get_optimal_gas_price w3 strategy now c)).
Proof.
  intros Hc. unfold get_optimal_gas_price. cbv zeta.
  match goal with |- context [match ?h with Some _ => _ | None => _ end] =>
    destruct h end; [done|].
  destruct (gas_price w3) as [gp|]; [|done].
  destruct (block_number w3) as [latest|]; [|done].
  destruct (optimal_from _ _ _) as [v|] eqn:E; [|done].
  simpl. intros p [= <-].
  unfold optimal_from in E. apply fmap_Some in E as (q & _ & ->). lia.
Qed.

Lemma cache_floor_after (requests : list Request) :
  cache_floor (cache_after requests).
Proof.
  unfold cache_after.
  induction requests as [|r rs IH] using rev_ind; simpl.
  - intros p. done.
  - rewrite foldl_app. simpl. by apply cache_floor_step.
Qed.

(** A live entry is returned as it is, for any tier. *)
Lemma cache_hit (w3 : Web3) (strategy : string) (now : Q) (c : Cache) (p : Z) :
  last_gas_price c = Some p → p ≠ 0%Z →
  (now - last_gas_update c < GAS_PRICE_CACHE_TTL)%Q →
  get_optimal_gas_price w3 strategy now c
    = {| value := p; cache := c; io := [] |}.
Proof.
  intros Hp Hnz Hage. unfold get_optimal_gas_price. rewrite Hp.
  apply Z.eqb_neq in Hnz. rewrite Hnz. simpl.
  apply Qltb_true in Hage. rewrite Hage. done.
Qed.

(** C3, as the code has it.  After any sequence of requests, if the cache
    holds an estimate that was stored less than the TTL (30 s) ago, a new
    request returns that estimate unchanged, whatever tier it asks for
    and whatever tier the estimate was computed for, leaves the cache as
    it is and performs no I/O: the cache holds one estimate, shared by
    all tiers. *)
Theorem cached_estimate_served_to_any_tier
    (requests : list Request) (w3 : Web3) (strategy : string)
    (current_time : Q) (cached : Z) :
  let c := cache_after requests in
  last_gas_price c = Some cached →
  (current_time - last_gas_update c < GAS_PRICE_CACHE_TTL)%Q →
  get_optimal_gas_price w3 strategy current_time c
    = {| value := cached; cache := c; io := [] |}.
Proof.
  intros c Hp Hage. apply cache_hit; [done| |done].
  pose proof (cache_floor_after requests cached Hp) as Hfloor.
  unfold min_gas_price in Hfloor. lia.
Qed.

Lemma cached_estimate_served_to_any_tier_witness :
  ∃ cached,
    get_optimal_gas_price Scenario.w3_no_estimate "fast" 110
        (cache_after [ {| node := Scenario.w3_ten_samples;
                          tier := "economic"; at_time := 100 |} ])
      = {| value := cached;
           cache := cache_after [ {| node := Scenario.w3_ten_samples;
                                     tier := "economic"; at_time := 100 |} ];
           io := [] |}.
Proof.
  exists 107100000000%Z.
  apply (cached_estimate_served_to_any_tier
           [ {| node := Scenario.w3_ten_samples;
                tier := "economic"; at_time := 100 |} ]
           Scenario.w3_no_estimate "fast" 110 107100000000).
  - vm_compute. reflexivity.
  - vm_compute. reflexivity.
Defined.

(** C3 as stated fails: on a cold cache the economic tier is computed at
    time 100; ten seconds later a request for the fast tier is served that
    economic estimate, with no I/O, although the fast estimate of the same
    samples is higher. *)
Lemma fast_request_served_economic_estimate :
  let first :=
    get_optimal_gas_price Scenario.w3_ten_samples "economic" 100 cold in
  let second :=
    get_optimal_gas_price Scenario.w3_ten_samples "fast" 110 (cache first) in
  value first = 107100000000%Z ∧
  value second = 107100000000%Z ∧
  io second = [] ∧
  value (get_optimal_gas_price Scenario.w3_ten_samples "fast" 110 cold)
    = 114450000000%Z.
Proof. vm_compute. done. Qed.

End GasPriceFacts.

(** ** Profitability gate *)

Section ProfitabilityFacts.
Import GasPrice Profitability.

Lemma Qgtb_zero_margin (profit : Q) :
  Qgtb profit (0 * (12 # 10)) = true ↔ (0 < profit)%Q.
Proof. rewrite Qgtb_true. by rewrite Qmult_0_l. Qed.


(** C10.  When the estimation fails, because the node cannot estimate
    the gas of the transaction or because the conversion of the cost
    raises, [estimate_transaction_cost] answers 0.0 instead of raising, so
    [is_transaction_profitable] returns a verdict and accepts exactly the
    strictly positive expected profits. *)
Theorem failed_estimation_costs_nothing (w3 : Web3) (tx_params : TxParams)
    (current_time : Q) (c : Cache) :
  estimate_gas w3 tx_params = None ∨ (∀ wei, from_wei w3 wei = None) →
  value (estimate_transaction_cost w3 tx_params current_time c) = PyFloat 0 ∧
  ∀ expected_profit_eth : Q,
    ∃ verdict : bool,
      value (is_transaction_profitable w3 tx_params expected_profit_eth
               current_time c) = Some verdict ∧
      (verdict = true ↔ (0 < expected_profit_eth)%Q).
Proof.
  intros Hfail.
  assert (Hcost : value (estimate_transaction_cost w3 tx_params current_time c)
            = PyFloat 0).
  { unfold estimate_transaction_cost.
    destruct (estimate_gas w3 tx_params) as [gas_estimate|] eqn:E; [|done].
    destruct Hfail as [?|Hwei]; [done|]. simpl. by rewrite Hwei. }
  split; [done|]. intros profit.
  unfold is_transaction_profitable. cbn [value]. rewrite Hcost.
  eexists. split; [reflexivity|]. apply Qgtb_zero_margin.
Qed.

Lemma failed_estimation_costs_nothing_witness :
  value (estimate_transaction_cost Scenario.w3_no_estimate
           Scenario.tx_fee_two 0 cold) = PyFloat 0 ∧
  value (is_transaction_profitable Scenario.w3_no_estimate
           Scenario.tx_fee_two (1 # 1000000) 0 cold) = Some true.
Proof.
  destruct (failed_estimation_costs_nothing Scenario.w3_no_estimate
              Scenario.tx_fee_two 0 cold) as [Hcost Hgate].
  - left. reflexivity.
  - split; [exact Hcost|].
    destruct (Hgate (1 # 1000000)) as (verdict & -> & Hverdict).
    f_equal. by apply Hverdict.
Defined.



End ProfitabilityFacts.

(** ** Adaptive parameter controller *)

Section AdaptiveFacts.
Import GasPrice Adaptive.

Lemma Qgtb_false (a b : Q) : Qgtb a b = false ↔ (a <= b)%Q.
Proof.
  unfold Qgtb. rewrite negb_false_iff. apply Qle_bool_iff.
Qed.

Lemma Qltb_false (a b : Q) : Qltb a b = false ↔ (b <= a)%Q.
Proof. apply Qgtb_false. Qed.

(** Python's [max(lo, min(x, hi))] stays between [lo] and [hi]. *)
Lemma py_clamp_bounds (lo hi x : Q) :
  (lo <= hi)%Q →
  (lo <= py_max lo (py_min x hi))%Q ∧ (py_max lo (py_min x hi) <= hi)%Q.
Proof.
  intros Hlh. unfold py_max, py_min.
  destruct (Qltb hi x) eqn:E1.
  - destruct (Qgtb hi lo) eqn:E2; split;
      [done | apply Qle_refl | apply Qle_refl | done].
  - apply Qltb_false in E1.
    destruct (Qgtb x lo) eqn:E2.
    + apply Qgtb_true in E2. split; [by apply Qlt_le_weak | done].
    + split; [apply Qle_refl | done].
Qed.

(** ... and is [x] clamped to that interval. *)
Lemma py_clamp_clamped (lo hi x : Q) :
  (lo <= hi)%Q → clamped lo hi x (py_max lo (py_min x hi)).
Proof.
  intros Hlh. unfold clamped, py_max, py_min.
  destruct (Qltb hi x) eqn:E1.
  - apply Qltb_true in E1. destruct (Qgtb hi lo) eqn:E2.
    + split_and!.
      * intros Hx. exfalso. apply (Qlt_irrefl x).
        apply (Qlt_le_trans x lo x); [done|].
        apply (Qle_trans lo hi x); [done | by apply Qlt_le_weak].
      * reflexivity.
      * intros _ Hx. exfalso. apply (Qlt_irrefl x).
        by apply (Qle_lt_trans x hi x).
    + apply Qgtb_false in E2. split_and!.
      * reflexivity.
      * intros _. by apply Qle_antisym.
      * intros _ Hx. exfalso. apply (Qlt_irrefl x).
        by apply (Qle_lt_trans x hi x).
  - apply Qltb_false in E1. destruct (Qgtb x lo) eqn:E2.
    + apply Qgtb_true in E2. split_and!.
      * intros Hx. exfalso. apply (Qlt_irrefl x).
        by apply (Qlt_trans x lo x).
      * intros Hx. exfalso. apply (Qlt_irrefl x).
        by apply (Qle_lt_trans x hi x).
      * reflexivity.
    + apply Qgtb_false in E2. split_and!.
      * reflexivity.
      * intros Hx. exfalso. apply (Qlt_irrefl x).
        by apply (Qle_lt_trans x hi x).
      * intros Hx _. by apply Qle_antisym.
Qed.

Lemma half_le_triple (b : Q) : (0 <= b)%Q → (b * (1 # 2) <= b * 3)%Q.
Proof.
  intros Hb. rewrite !(Qmult_comm b). apply Qmult_le_compat_r; [|done].
  unfold Qle. simpl. lia.
Qed.

Lemma half_le_self (b : Q) : (0 <= b)%Q → (b * (1 # 2) <= b)%Q.
Proof.
  intros Hb. rewrite <- (Qmult_1_r b) at 2.
  rewrite !(Qmult_comm b). apply Qmult_le_compat_r; [|done].
  unfold Qle. simpl. lia.
Qed.

Lemma self_le_triple (b : Q) : (0 <= b)%Q → (b <= b * 3)%Q.
Proof.
  intros Hb. rewrite <- (Qmult_1_r b) at 1.
  rewrite !(Qmult_comm b). apply Qmult_le_compat_r; [|done].
  unfold Qle. simpl. lia.
Qed.

Lemma within_bounds_init (cfg : Config) (now : Q) :
  config_nonneg cfg → within_bounds (init cfg now).
Proof.
  intros [Hb Ht]. unfold within_bounds. simpl.
  auto using half_le_self, self_le_triple.
Qed.

Lemma update_parameters_config (self : AdaptiveParameters) :
  config (_update_parameters self) = config self.
Proof. unfold _update_parameters. by destruct (averages _). Qed.

Lemma within_bounds_update_parameters (self : AdaptiveParameters) :
  config_nonneg (config self) → within_bounds self →
  within_bounds (_update_parameters self).
Proof.
  intros [Hb Ht] Hin. unfold _update_parameters.
  destruct (averages _) as [a|]; [|done].
  unfold within_bounds. simpl.
  pose proof (py_clamp_bounds _ _
    (MIN_PROFIT_THRESHOLD (config self) * combined_factor a)
    (half_le_triple _ Hb)) as [??].
  pose proof (py_clamp_bounds _ _ (avg_slippage a * (15 # 10))
    (half_le_triple _ Ht)) as [??].
  done.
Qed.

Lemma apply_call_config (self : AdaptiveParameters) (c : Call) :
  config (apply_call self c) = config self.
Proof.
  destruct c as [now o|now|]; simpl.
  - unfold update_from_execution. destruct (alter_history _ _ _); [|done].
    by destruct (record_exchange _ _ _).
  - destruct (Qgtb _ _); [|done]. simpl. apply update_parameters_config.
  - apply update_parameters_config.
Qed.

Lemma within_bounds_apply_call (self : AdaptiveParameters) (c : Call) :
  config_nonneg (config self) → within_bounds self →
  within_bounds (apply_call self c).
Proof.
  intros Hcfg Hin. destruct c as [now o|now|]; simpl.
  - unfold update_from_execution. destruct (alter_history _ _ _); [|done].
    by destruct (record_exchange _ _ _).
  - destruct (Qgtb _ _); [|done].
    pose proof (within_bounds_update_parameters self Hcfg Hin) as H.
    unfold within_bounds in *. simpl. by rewrite update_parameters_config in *.
  - by apply within_bounds_update_parameters.
Qed.

Lemma after_invariant (cfg : Config) (start : Q) (calls : list Call) :
  config_nonneg cfg →
  config (after cfg start calls) = cfg ∧ within_bounds (after cfg start calls).
Proof.
  intros Hcfg. unfold after.
  induction calls as [|c calls [IHc IHb]] using rev_ind; simpl.
  - split; [done | by apply within_bounds_init].
  - rewrite foldl_app. simpl. split.
    + by rewrite apply_call_config.
    + apply within_bounds_apply_call; [by rewrite IHc | done].
Qed.

(** The loop of [_update_parameters] collects the three lists of
    per-strategy figures. *)
Lemma gather_from (g : Gathered)
    (execution_history : list (string * list ExecutionRecord)) :
  foldl gather_strategy g (execution_history.*2)
    = {| all_slippages :=
           all_slippages g ++ recent_slippage_means execution_history;
         all_success_rates :=
           all_success_rates g ++ recent_success_rates execution_history;
         all_profit_ratios :=
           all_profit_ratios g ++ recent_profit_ratio_means execution_history |}.
Proof.
  revert g. induction execution_history as [|[k history] eh IH]; intros g.
  - simpl. rewrite !app_nil_r. by destruct g.
  - rewrite fmap_cons. cbn [foldl snd]. rewrite IH.
    unfold recent_slippage_means, recent_success_rates,
      recent_profit_ratio_means.
    cbn [omap list_omap snd]. unfold gather_strategy.
    destruct history as [|h history]; [done|].
    cbv zeta. cbn [all_slippages all_success_rates all_profit_ratios].
    set (recent := last_n 20 (h :: history)).
    destruct (omap slippage recent) as [|s ss];
      destruct (omap _ recent) as [|p ps];
      cbn [all_slippages all_success_rates all_profit_ratios];
      by rewrite <- ?app_assoc.
Qed.

Lemma gather_spec (execution_history : list (string * list ExecutionRecord)) :
  gather execution_history
    = {| all_slippages := recent_slippage_means execution_history;
         all_success_rates := recent_success_rates execution_history;
         all_profit_ratios := recent_profit_ratio_means execution_history |}.
Proof. unfold gather. by rewrite gather_from. Qed.

(** C7 as stated fails.  After a failed trade with 1% slippage and no
    realized profit, the recompute leaves the tolerance at its base of
    0.2, where 1.5 times the mean observed slippage, clamped, is 0.6: the
    recompute is skipped when no profit ratio was recorded.  And the
    mean is taken per strategy first: after three trades of one strategy
    with 0.1% slippage and one trade of another with 0.3%, the tolerance
    is 1.5 times 0.2, the mean of the two strategy means, not 1.5 times
    0.15, the mean of the four slippages observed. *)
Lemma recompute_skipped_without_profit_ratio :
  slippage_tolerance
    (_update_parameters
       (after Scenario.default_config 0
          [UpdateFromExecution 10 Scenario.failed_trade])) = (2 # 10)%Q ∧
  (spec_slippage_tolerance (2 # 10) [1%Q] == 6 # 10)%Q ∧
  (slippage_tolerance
     (_update_parameters
        (after Scenario.default_config 0
           [UpdateFromExecution 10 Scenario.calm_trade;
            UpdateFromExecution 11 Scenario.calm_trade;
            UpdateFromExecution 12 Scenario.calm_trade;
            UpdateFromExecution 13 Scenario.rough_trade])) == 3 # 10)%Q ∧
  (spec_slippage_tolerance (2 # 10) [1 # 10; 1 # 10; 1 # 10; 3 # 10]
     == 9 # 40)%Q.
Proof. split_and!; [reflexivity | | |]; vm_compute; reflexivity. Qed.

(** C7, as the code has it.  Whatever executions were recorded and
    whatever calls were made on the controller, after a recompute the
    minimum-profit threshold lies between 0.5 and 3 times the configured
    base and the slippage tolerance between 0.5 and 3 times the base
    tolerance.  When some strategy has a slippage and some strategy has
    a realized profit among its last 20 executions, the threshold is the
    base times the combined factor, clamped to its interval, and the
    tolerance is 1.5 times the mean over the strategies of each
    strategy's mean recent slippage, clamped to its interval.
    Otherwise the recompute changes nothing. *)
Theorem recompute_clamps_parameters (cfg : Config) (start : Q)
    (calls : list Call) :
  (0 <= MIN_PROFIT_THRESHOLD cfg)%Q → (0 <= SLIPPAGE_TOLERANCE cfg)%Q →
  let before := after cfg start calls in
  let self := _update_parameters before in
  let base := MIN_PROFIT_THRESHOLD cfg in
  let base_tolerance := SLIPPAGE_TOLERANCE cfg in
  let slippages := recent_slippage_means (execution_history before) in
  let success_rates := recent_success_rates (execution_history before) in
  let profit_ratios := recent_profit_ratio_means (execution_history before) in
  (base * (1 # 2) <= min_profit_threshold self)%Q ∧
  (min_profit_threshold self <= base * 3)%Q ∧
  (base_tolerance * (1 # 2) <= slippage_tolerance self)%Q ∧
  (slippage_tolerance self <= base_tolerance * 3)%Q ∧
  (slippages ≠ [] → profit_ratios ≠ [] →
   clamped (base * (1 # 2)) (base * 3)
           (base * combined_factor
                     {| avg_slippage := mean slippages;
                        avg_success_rate := mean success_rates;
                        avg_profit_ratio := mean profit_ratios |})
           (min_profit_threshold self) ∧
   clamped (base_tolerance * (1 # 2)) (base_tolerance * 3)
           (mean slippages * (15 # 10)) (slippage_tolerance self)) ∧
  (slippages = [] ∨ profit_ratios = [] → self = before).
Proof.
  intros Hb Ht before self base base_tolerance slippages success_rates
    profit_ratios.
  destruct (after_invariant cfg start calls (conj Hb Ht)) as [Hcfg Hin].
  fold before in Hcfg, Hin.
  assert (Hself : within_bounds self).
  { apply within_bounds_update_parameters; [by rewrite Hcfg | done]. }
  assert (Hself_cfg : config self = cfg).
  { unfold self. by rewrite update_parameters_config. }
  unfold within_bounds in Hself. rewrite Hself_cfg in Hself.
  destruct Hself as (H1 & H2 & H3 & H4). split_and!; try done.
  - intros Hs Hp. unfold self, _update_parameters.
    rewrite gather_spec. unfold averages.
    cbn [all_slippages all_success_rates all_profit_ratios].
    fold slippages success_rates profit_ratios.
    assert (Hr : success_rates ≠ []).
    { unfold success_rates, slippages, recent_success_rates,
        recent_slippage_means in *.
      induction (execution_history before) as [|[k [|h history]] eh IH];
        [done | | done].
      cbn [omap list_omap snd] in Hs |- *. by apply IH. }
    destruct slippages as [|s ss] eqn:Es; [done|].
    destruct success_rates as [|r rs] eqn:Er; [done|].
    destruct profit_ratios as [|p ps] eqn:Ep; [done|].
    rewrite Hcfg. cbn [min_profit_threshold slippage_tolerance avg_slippage].
    split; apply py_clamp_clamped; by apply half_le_triple.
  - intros Hnone. unfold self, _update_parameters.
    rewrite gather_spec. unfold averages.
    cbn [all_slippages all_success_rates all_profit_ratios].
    fold slippages success_rates profit_ratios.
    destruct Hnone as [-> | ->]; [done|].
    by destruct slippages, success_rates.
Qed.

Lemma recompute_clamps_parameters_witness :
  let self :=
    _update_parameters
      (after Scenario.default_config 0
         [UpdateFromExecution 10 Scenario.filled_trade]) in
  ((1 # 10) * (1 # 2) <= min_profit_threshold self)%Q ∧
  (min_profit_threshold self <= (1 # 10) * 3)%Q ∧
  (slippage_tolerance self == 6 # 10)%Q.
Proof.
  destruct (recompute_clamps_parameters Scenario.default_config 0
              [UpdateFromExecution 10 Scenario.filled_trade])
    as (Hlo & Hhi & _ & _ & Hvalue & _).
  - vm_compute. discriminate.
  - vm_compute. discriminate.
  - destruct Hvalue as [_ (_ & Hcap & _)]; [done | done |].
    split_and!; [exact Hlo | exact Hhi |].
    rewrite Hcap; [reflexivity | vm_compute; reflexivity].
Defined.

End AdaptiveFacts.

(** ** Mempool monitor: the reconnect loop *)

Section ReconnectFacts.
Import Mempool.

Lemma min_delay_double (x : Z) :
  Z.min (Z.min x max_delay * 2) max_delay = Z.min (x * 2) max_delay.
Proof. unfold max_delay. lia. Qed.

(** [k] connection failures in a row on a running monitor that has room
    for them. *)
Lemma consecutive_failures (k : nat) (m : Monitor) (r : Reconnect) :
  running m = true → (retry_count r + Z.of_nat k ≤ max_retries)%Z →
  (retry_delay r ≤ max_delay)%Z →
  foldl attempt (m, r) (replicate k ConnectionError)
    = (m, {| retry_count := retry_count r + Z.of_nat k;
             retry_delay := Z.min (retry_delay r * 2 ^ Z.of_nat k) max_delay;
             slept :=
               slept r
                 ++ map (λ i : nat,
                           Z.min (retry_delay r * 2 ^ Z.of_nat i) max_delay)
                        (seq 0 k);
             errors := errors r |}).
Proof.
  revert r. induction k as [|k IH] using nat_ind; intros r Hrun Hroom Hd.
  - simpl. destruct r. simpl in *. f_equal.
    f_equal; [lia | lia | by rewrite app_nil_r].
  - rewrite replicate_S_end, foldl_app, IH by (done || lia).
    rewrite seq_S, map_app, app_assoc.
    cbn [foldl attempt]. rewrite Hrun. unfold on_connection_error.
    cbn [retry_count retry_delay slept errors].
    destruct (Z.ltb_spec max_retries (retry_count r + Z.of_nat k + 1)) as [?|_];
      [lia|].
    f_equal. rewrite min_delay_double.
    replace (Z.of_nat (S k)) with (Z.of_nat k + 1)%Z by lia.
    rewrite Z.pow_add_r by lia.
    f_equal; [lia | f_equal; lia].
Qed.

(** Outcomes that are not connection failures leave a fresh loop with
    its base delay and no failure counted. *)
Lemma quiet_prefix (prefix : list Attempt) :
  Forall (λ a, connection_failure a = false) prefix →
  let s := connect_and_subscribe prefix in
  s.1 = started ∧ retry_count s.2 = 0%Z ∧ retry_delay s.2 = base_delay.
Proof.
  unfold connect_and_subscribe.
  induction prefix as [|a prefix IH] using rev_ind; intros Hq; [done|].
  apply Forall_app in Hq as [Hq Ha]. rewrite Forall_singleton in Ha.
  rewrite foldl_app. simpl.
  destruct (foldl attempt (started, fresh) prefix) as [m r].
  destruct (IH Hq) as (Hm & Hc & Hd). simpl in *. subst m. simpl.
  destruct a as [| | |[| |]]; simpl in *; try done.
Qed.

Lemma counted_app (l k : list Attempt) :
  counted (l ++ k) = counted l + counted k.
Proof. unfold counted. by rewrite filter_app, length_app. Qed.

Lemma counted_replicate (n : nat) : counted (replicate n ConnectionError) = n.
Proof.
  induction n as [|n IH]; [done|].
  change (replicate (S n) ConnectionError)
    with ([ConnectionError] ++ replicate n ConnectionError).
  rewrite counted_app, IH. done.
Qed.

(** Failed attempts of both kinds, in any order, on a running monitor
    that has room for the counted ones: each waits the delay reached by
    the counted failures before it. *)
Lemma mixed_failures (failures : list Attempt) (m : Monitor) (r : Reconnect) :
  running m = true → Forall failed_attempt failures →
  (retry_count r + Z.of_nat (counted failures) ≤ max_retries)%Z →
  (retry_delay r ≤ max_delay)%Z →
  let s := foldl attempt (m, r) failures in
  s.1 = m ∧
  retry_count s.2 = (retry_count r + Z.of_nat (counted failures))%Z ∧
  retry_delay s.2
    = Z.min (retry_delay r * 2 ^ Z.of_nat (counted failures)) max_delay ∧
  slept s.2
    = slept r
        ++ imap (λ i _, Z.min (retry_delay r
                                 * 2 ^ Z.of_nat (counted (take i failures)))
                              max_delay)
                failures.
Proof.
  intros Hrun. induction failures as [|a l IH] using rev_ind;
    intros Hkind Hroom Hd.
  - cbn [foldl imap fst snd]. change (counted []) with 0.
    rewrite app_nil_r, Z.pow_0_r. split_and!; [done | lia | lia | done].
  - apply Forall_app in Hkind as [Hl Ha]. rewrite Forall_singleton in Ha.
    rewrite counted_app in Hroom |- *.
    destruct IH as (I1 & I2 & I3 & I4); [done | lia | done |].
    rewrite foldl_app. cbn [foldl].
    destruct (foldl attempt (m, r) l) as [m' r']. simpl in I1, I2, I3, I4.
    subst m'. unfold attempt. rewrite Hrun.
    rewrite imap_app. cbn [imap]. rewrite Nat.add_0_r, take_app_length.
    rewrite (imap_ext _ (λ i _, Z.min (retry_delay r
                                         * 2 ^ Z.of_nat (counted (take i l)))
                                      max_delay));
      [|intros i x Hi%lookup_lt_Some; rewrite take_app_le by lia; done].
    rewrite app_assoc, <- I4.
    destruct Ha as [-> | ->].
    + change (counted [ConnectionError]) with 1 in *.
      unfold on_connection_error.
      destruct (Z.ltb_spec max_retries (retry_count r' + 1)) as [?|_]; [lia|].
      cbn [fst snd retry_count retry_delay slept].
      split_and!; [done | lia | | by rewrite I3].
      rewrite I3, min_delay_double.
      replace (Z.of_nat (counted l + 1)) with (Z.of_nat (counted l) + 1)%Z
        by lia.
      rewrite Z.pow_add_r by lia. f_equal. lia.
    + change (counted [UnexpectedError]) with 0 in *.
      unfold on_unexpected_error.
      cbn [fst snd retry_count retry_delay slept].
      rewrite Nat.add_0_r. split_and!; [done | lia | done | by rewrite I3].
Qed.

(** C5 as stated fails: after one connection failure the monitor waits
    the base delay of 5 seconds before the second attempt, not
    [min(5 * 2^1, 60) = 10].  And the doubling is for the three
    exception classes that the loop counts only: after two failed
    attempts of any other kind the wait is still 5 seconds. *)
Lemma first_retry_waits_base_delay :
  slept (connect_and_subscribe [ConnectionError]).2 = [5%Z] ∧
  Z.min (base_delay * 2 ^ 1) max_delay = 10%Z ∧
  slept (connect_and_subscribe [UnexpectedError; UnexpectedError]).2
    = [5%Z; 5%Z].
Proof. split_and!; reflexivity. Qed.

(** C5, as the code has it.  Consider failed connection attempts in a
    row, of which at most 10 are of the three classes that the loop
    counts (connection closed, invalid status, connection refused), with
    no counted failure before them.  The monitor is still running, the
    counter holds the number of counted failures, and each failed
    attempt is followed by a wait of [min(5 * 2^c, 60)] seconds, where
    [c] is the number of counted failures before it: a counted failure
    doubles the delay of the next wait, a failure of any other kind
    waits the current delay and doubles nothing.  In particular, after
    [N] counted failures in a row, [1 <= N <= 10], the wait before
    attempt [N+1] is [min(5 * 2^(N-1), 60)] seconds. *)
Theorem backoff_doubles_from_base (prefix failures : list Attempt) :
  Forall (λ a, connection_failure a = false) prefix →
  Forall failed_attempt failures →
  (Z.of_nat (counted failures) ≤ max_retries)%Z →
  let before := connect_and_subscribe prefix in
  let after := connect_and_subscribe (prefix ++ failures) in
  running after.1 = true ∧
  retry_count after.2 = Z.of_nat (counted failures) ∧
  slept after.2
    = slept before.2
        ++ imap (λ i _, Z.min (base_delay
                                 * 2 ^ Z.of_nat (counted (take i failures)))
                              max_delay)
                failures ∧
  ∀ N : nat,
    1 ≤ N → failures = replicate N ConnectionError →
    last (slept after.2)
      = Some (Z.min (base_delay * 2 ^ (Z.of_nat N - 1)) max_delay).
Proof.
  intros Hq Hkind Hroom before after.
  destruct (quiet_prefix prefix Hq) as (Hm & Hc & Hd). fold before in Hm, Hc, Hd.
  assert (Hafter : after = foldl attempt before failures).
  { unfold after, connect_and_subscribe. by rewrite foldl_app. }
  destruct before as [m r]. simpl in Hm, Hc, Hd. subst m.
  destruct (mixed_failures failures started r) as (M1 & M2 & M3 & M4);
    [done | done | lia | rewrite Hd; unfold base_delay, max_delay; lia |].
  rewrite <- Hafter in M1, M2, M3, M4. rewrite Hd in M4.
  cbn [fst snd]. rewrite M1, M2, M4, Hc.
  split_and!; [done | lia | done |].
  intros N HN ->. destruct N as [|N]; [lia|].
  rewrite replicate_S_end, imap_app. cbn [imap].
  rewrite app_assoc, last_snoc, Nat.add_0_r, length_replicate.
  rewrite take_app_length' by by rewrite length_replicate.
  rewrite counted_replicate.
  by replace (Z.of_nat (S N) - 1)%Z with (Z.of_nat N) by lia.
Qed.

Lemma backoff_doubles_from_base_witness :
  slept (connect_and_subscribe
           ([NotSubscribed; Streamed Closed]
              ++ [ConnectionError; UnexpectedError; ConnectionError;
                  ConnectionError])).2
    = [5; 10; 10; 20]%Z.
Proof.
  apply (backoff_doubles_from_base [NotSubscribed; Streamed Closed]
           [ConnectionError; UnexpectedError; ConnectionError;
            ConnectionError]).
  - repeat constructor.
  - repeat constructor; by (left || right).
  - vm_compute. discriminate.
Defined.

(** The loop never publishes, and a running loop has counted at most
    [max_retries] failures. *)
Lemma attempt_invariant (s : Monitor * Reconnect) (a : Attempt) :
  (running s.1 = true → 0 ≤ retry_count s.2 ≤ max_retries)%Z →
  published (attempt s a).1 = published s.1 ∧
  (running (attempt s a).1 = true →
   0 ≤ retry_count (attempt s a).2 ≤ max_retries)%Z.
Proof.
  destruct s as [m r]. simpl. intros Hinv.
  destruct (running m) eqn:Hrun;
    [|split; [done | simpl; intros ?; congruence]].
  specialize (Hinv eq_refl). unfold max_retries in *.
  destruct a as [| | |[| |]]; simpl; unfold on_connection_error; simpl;
    repeat case_match; simpl; rewrite ?Hrun; split; try done;
    intros; try match goal with H : (_ <? _)%Z = false |- _ =>
              apply Z.ltb_ge in H end; unfold max_retries in *; lia.
Qed.

Lemma connect_invariant (attempts : list Attempt) :
  let s := connect_and_subscribe attempts in
  published s.1 = [] ∧
  (running s.1 = true → 0 ≤ retry_count s.2 ≤ max_retries)%Z.
Proof.
  unfold connect_and_subscribe.
  induction attempts as [|a attempts [IHp IHr]] using rev_ind.
  - simpl. unfold max_retries. split; [done | lia].
  - rewrite foldl_app. simpl.
    destruct (attempt_invariant (foldl attempt (started, fresh) attempts) a IHr)
      as [Hp Hr].
    split; [by rewrite Hp | done].
Qed.

Lemma stopped_stays (m : Monitor) (r : Reconnect) (more : list Attempt) :
  running m = false → foldl attempt (m, r) more = (m, r).
Proof.
  intros Hstop. induction more as [|a more IH]; [done|].
  simpl. by rewrite Hstop.
Qed.

(** Failed attempts of both kinds, of which more are counted than the
    loop has room for: the monitor stops at the counted failure that
    exceeds the maximum, and the exhaustion is the last error logged. *)
Lemma failures_exhaust (failures : list Attempt) (m : Monitor) (r : Reconnect) :
  running m = true → Forall failed_attempt failures →
  (retry_count r ≤ max_retries)%Z →
  (max_retries < retry_count r + Z.of_nat (counted failures))%Z →
  let s := foldl attempt (m, r) failures in
  running s.1 = false ∧ published s.1 = published m ∧
  last (errors s.2)
    = Some "Max retries (10) exceeded. Stopping mempool monitor."%string.
Proof.
  intros Hrun Hkind. revert r.
  induction Hkind as [|a l Ha Hl IH]; intros r Hroom Hover.
  - change (counted []) with 0 in Hover. lia.
  - change (a :: l) with ([a] ++ l) in Hover. rewrite counted_app in Hover.
    cbn [foldl].
    destruct Ha as [-> | ->].
    + change (counted [ConnectionError]) with 1 in Hover.
      assert (Hstep : attempt (m, r) ConnectionError = on_connection_error m r)
        by (simpl; by rewrite Hrun).
      rewrite Hstep. unfold on_connection_error.
      destruct (Z.ltb_spec max_retries (retry_count r + 1)) as [Hstop|Hgo].
      * rewrite stopped_stays by done.
        cbn [fst snd errors running published]. by rewrite last_snoc.
      * apply IH; simpl; lia.
    + change (counted [UnexpectedError]) with 0 in Hover.
      assert (Hstep : attempt (m, r) UnexpectedError = on_unexpected_error m r)
        by (simpl; by rewrite Hrun).
      rewrite Hstep. unfold on_unexpected_error. apply IH; simpl; lia.
Qed.

(** Failed attempts that the loop does not count never stop it. *)
Lemma uncounted_failures (n : nat) (m : Monitor) (r : Reconnect) :
  let s := foldl attempt (m, r) (replicate n UnexpectedError) in
  s.1 = m ∧ retry_count s.2 = retry_count r.
Proof.
  revert r. induction n as [|n IH]; intros r; [done|].
  rewrite replicate_S. cbn [foldl attempt].
  destruct (running m) eqn:Hrun.
  - unfold on_unexpected_error.
    match goal with |- context [foldl attempt (m, ?r1) _] =>
      destruct (IH r1) as [I1 I2] end.
    simpl in *. by rewrite I1, I2.
  - rewrite stopped_stays by done. done.
Qed.

(** C6 as stated fails: eleven counted connection failures in a row stop
    the monitor, yet the event bus was handed nothing, so no [error]
    event was raised; the exhaustion is only logged.  And only the three
    exception classes that the loop counts exhaust it: after eleven
    failed attempts of any other kind the monitor is still running. *)
Lemma exhaustion_publishes_no_error_event :
  let s := connect_and_subscribe (replicate 11 ConnectionError) in
  running s.1 = false ∧
  errors s.2
    = ["Max retries (10) exceeded. Stopping mempool monitor."%string] ∧
  (¬ ∃ e, e ∈ published s.1 ∧ topic e = "error"%string) ∧
  running (connect_and_subscribe (replicate 11 UnexpectedError)).1 = true.
Proof.
  split_and!; [reflexivity | reflexivity | | reflexivity].
  intros (e & He & _). vm_compute in He. by apply elem_of_nil in He.
Qed.

(** C6, as the code has it.  On a running monitor, when failed
    connection attempts follow one another and those of the three
    counted classes (connection closed, invalid status, connection
    refused) bring the counter above the maximum retry count of 10, the
    monitor clears its running flag and leaves the loop, the exhaustion
    being the last error it logs; no later outcome changes anything, so
    it never retries again; and the event bus is handed no event.
    Failed attempts of any other kind, however many, are not counted
    and do not stop the monitor. *)
Theorem exhausted_retries_stop_monitor
    (prefix failures more : list Attempt) (n : nat) :
  let before := connect_and_subscribe prefix in
  running before.1 = true →
  Forall failed_attempt failures →
  (max_retries < retry_count before.2 + Z.of_nat (counted failures))%Z →
  let stopped := connect_and_subscribe (prefix ++ failures) in
  running stopped.1 = false ∧
  last (errors stopped.2)
    = Some "Max retries (10) exceeded. Stopping mempool monitor."%string ∧
  published stopped.1 = [] ∧
  connect_and_subscribe (prefix ++ failures ++ more) = stopped ∧
  running (connect_and_subscribe (prefix ++ replicate n UnexpectedError)).1
    = true.
Proof.
  intros before Hrun Hkind Hover stopped.
  destruct (connect_invariant prefix) as [Hpub Hcount].
  fold before in Hpub, Hcount. specialize (Hcount Hrun).
  assert (Hstopped : stopped = foldl attempt before failures).
  { unfold stopped, connect_and_subscribe. by rewrite foldl_app. }
  assert (Hquiet : connect_and_subscribe (prefix ++ replicate n UnexpectedError)
                   = foldl attempt before (replicate n UnexpectedError)).
  { unfold connect_and_subscribe. by rewrite foldl_app. }
  destruct before as [m r]. simpl in Hrun, Hpub, Hcount, Hover.
  destruct (failures_exhaust failures m r) as (Hstop & Hp & He);
    [done | done | lia | done |].
  rewrite <- Hstopped in Hstop, Hp, He.
  destruct (uncounted_failures n m r) as [Hsame _].
  rewrite <- Hquiet in Hsame.
  split_and!; [done | done | by rewrite Hp | | by rewrite Hsame].
  unfold connect_and_subscribe. rewrite app_assoc, foldl_app.
  change (foldl attempt (started, fresh) (prefix ++ failures)) with stopped.
  destruct stopped as [m' r']. by apply stopped_stays.
Qed.

Lemma exhausted_retries_stop_monitor_witness :
  running (connect_and_subscribe
             ([Streamed Closed; ConnectionError]
                ++ UnexpectedError :: replicate 10 ConnectionError)).1 = false.
Proof.
  apply (exhausted_retries_stop_monitor [Streamed Closed; ConnectionError]
           (UnexpectedError :: replicate 10 ConnectionError) [] 0).
  - reflexivity.
  - repeat constructor; by (left || right).
  - vm_compute. reflexivity.
Defined.

End ReconnectFacts.

(** ** Mempool monitor: ingestion and classification *)

Section PipelineFacts.
Import Mempool.

Context (slot : TxHash → list TxHash → nat) (filters : Filters).

(** *** Sets and dicts *)

Lemma contains_spec (x : TxHash) (l : list TxHash) :
  contains x l = true ↔ x ∈ l.
Proof.
  unfold contains. induction l as [|y l IH]; simpl.
  - split; [done | by intros ?%elem_of_nil].
  - rewrite orb_true_iff, IH, N.eqb_eq, elem_of_cons. done.
Qed.

Lemma contains_false (x : TxHash) (l : list TxHash) :
  contains x l = false ↔ x ∉ l.
Proof. rewrite <- contains_spec. by destruct (contains x l). Qed.

Lemma set_add_elem (x y : TxHash) (l : list TxHash) :
  y ∈ set_add slot x l ↔ y = x ∨ y ∈ l.
Proof.
  unfold set_add. destruct (contains x l) eqn:E.
  - apply contains_spec in E. split; [by right | by intros [->|]].
  - rewrite elem_of_app, elem_of_cons.
    rewrite <- (take_drop (slot x l) l) at 5. rewrite elem_of_app. tauto.
Qed.

Lemma set_add_nodup (x : TxHash) (l : list TxHash) :
  NoDup l → NoDup (set_add slot x l).
Proof.
  intros Hl. unfold set_add. destruct (contains x l) eqn:E; [done|].
  apply contains_false in E.
  rewrite <- (take_drop (slot x l) l) in Hl, E.
  apply NoDup_app in Hl as (H1 & H2 & H3).
  rewrite elem_of_app in E.
  apply NoDup_app. split_and!; [done| |].
  - intros y Hy [->|Hy']%elem_of_cons; [tauto | by eapply H2].
  - apply NoDup_cons. split; [tauto | done].
Qed.

Lemma set_add_length (x : TxHash) (l : list TxHash) :
  x ∉ l → length (set_add slot x l) = S (length l).
Proof.
  intros Hx. unfold set_add. apply contains_false in Hx. rewrite Hx.
  rewrite length_app. simpl. rewrite length_take, length_drop. lia.
Qed.

Lemma set_add_length_le (x : TxHash) (l : list TxHash) :
  length (set_add slot x l) ≤ S (length l).
Proof.
  destruct (contains x l) eqn:E.
  - unfold set_add. rewrite E. lia.
  - apply contains_false in E. by rewrite set_add_length.
Qed.

Lemma fold_set_add_elem (y : TxHash) (l acc : list TxHash) :
  y ∈ foldl (λ s x, set_add slot x s) acc l ↔ y ∈ acc ∨ y ∈ l.
Proof.
  revert acc. induction l as [|x l IH]; intros acc; simpl.
  - rewrite elem_of_nil. tauto.
  - rewrite IH, set_add_elem, elem_of_cons. tauto.
Qed.

Lemma fold_set_add_nodup (l acc : list TxHash) :
  NoDup acc → NoDup (foldl (λ s x, set_add slot x s) acc l).
Proof.
  revert acc. induction l as [|x l IH]; intros acc Hacc; simpl; [done|].
  by apply IH, set_add_nodup.
Qed.

Lemma fold_set_add_length (l acc : list TxHash) :
  NoDup l → (∀ x, x ∈ l → x ∉ acc) →
  length (foldl (λ s x, set_add slot x s) acc l) = length acc + length l.
Proof.
  revert acc. induction l as [|x l IH]; intros acc Hl Hfresh; simpl; [lia|].
  apply NoDup_cons in Hl as [Hx Hl].
  rewrite IH; [|done|].
  - rewrite set_add_length; [lia|]. apply Hfresh. left.
  - intros y Hy [->|Hy']%set_add_elem; [done|].
    apply (Hfresh y); [by right | done].
Qed.

Lemma fold_set_add_length_le (l acc : list TxHash) :
  length (foldl (λ s x, set_add slot x s) acc l) ≤ length acc + length l.
Proof.
  revert acc. induction l as [|x l IH]; intros acc; simpl; [lia|].
  etrans; [apply IH|]. pose proof (set_add_length_le x acc). lia.
Qed.

Lemma set_of_list_length (l : list TxHash) :
  NoDup l → length (set_of_list slot l) = length l.
Proof.
  intros Hl. unfold set_of_list. rewrite fold_set_add_length; [done|done|].
  intros x _. apply not_elem_of_nil.
Qed.

Lemma dict_set_keys (k y : TxHash) (v : Q) (d : list (TxHash * Q)) :
  y ∈ (dict_set k v d).*1 ↔ y = k ∨ y ∈ d.*1.
Proof.
  induction d as [|[k' v'] d IH]; simpl.
  - rewrite elem_of_cons. tauto.
  - destruct (decide (k' = k)) as [->|Hne]; simpl.
    + rewrite !elem_of_cons. tauto.
    + rewrite !elem_of_cons, IH. tauto.
Qed.

Lemma dict_set_nodup (k : TxHash) (v : Q) (d : list (TxHash * Q)) :
  NoDup d.*1 → NoDup (dict_set k v d).*1.
Proof.
  induction d as [|[k' v'] d IH]; simpl; intros Hd.
  - apply NoDup_singleton.
  - apply NoDup_cons in Hd as [Hk Hd].
    destruct (decide (k' = k)) as [->|Hne]; simpl.
    + by apply NoDup_cons.
    + apply NoDup_cons. split; [|by apply IH].
      rewrite dict_set_keys. intros [?|?]; [congruence | done].
Qed.

Lemma dict_pop_keys (k : TxHash) (d : list (TxHash * Q)) :
  (dict_pop k d).*1 = filter (λ x, x ≠ k) d.*1.
Proof.
  unfold dict_pop. induction d as [|[k' v'] d IH]; [done|].
  rewrite fmap_cons, !filter_cons. cbn [fst].
  destruct (decide (k' ≠ k)); [rewrite fmap_cons|]; by rewrite IH.
Qed.


(** *** What each operation changes *)

Lemma handle_fields (now : Q) (message : WsMessage) (m : Monitor) :
  let m' := _handle_websocket_message now message m in
  processed_txs m' = processed_txs m ∧ published m' = published m ∧
  fetched m' = fetched m ∧
  (∀ y, y ∈ (pending_txs m').*1 →
        y ∈ (pending_txs m).*1 ∨ y ∉ processed_txs m) ∧
  (∀ y, y ∈ (pending_txs m).*1 → y ∈ (pending_txs m').*1) ∧
  (NoDup (pending_txs m).*1 → NoDup (pending_txs m').*1).
Proof.
  unfold _handle_websocket_message.
  destruct message as [|[method|] [h|]]; try by (simpl; auto 10).
  destruct (decide (method = "eth_subscription"%string)); [|by (simpl; auto 10)].
  destruct (contains h (processed_txs m)) eqn:E; [by (simpl; auto 10)|].
  apply contains_false in E. simpl. split_and!; try done.
  - intros y [->|Hy]%dict_set_keys; auto.
  - intros y Hy. apply dict_set_keys. auto.
  - apply dict_set_nodup.
Qed.

Lemma handle_all_fields (during : list (Q * WsMessage)) (m : Monitor) :
  let m' := foldl (λ m e, _handle_websocket_message e.1 e.2 m) m during in
  processed_txs m' = processed_txs m ∧ published m' = published m ∧
  fetched m' = fetched m ∧
  (∀ y, y ∈ (pending_txs m').*1 →
        y ∈ (pending_txs m).*1 ∨ y ∉ processed_txs m) ∧
  (∀ y, y ∈ (pending_txs m).*1 → y ∈ (pending_txs m').*1) ∧
  (NoDup (pending_txs m).*1 → NoDup (pending_txs m').*1).
Proof.
  revert m. induction during as [|[now msg] during IH]; intros m; simpl.
  - auto 10.
  - destruct (handle_fields now msg m) as (H1 & H2 & H3 & H4 & H5 & H6).
    destruct (IH (_handle_websocket_message now msg m))
      as (I1 & I2 & I3 & I4 & I5 & I6).
    simpl in *. split_and!.
    + by rewrite I1.
    + by rewrite I2.
    + by rewrite I3.
    + intros y Hy. destruct (I4 y Hy) as [Hy'|Hy']; [auto|].
      right. by rewrite <- H1.
    + auto.
    + auto.
Qed.

Lemma classify_fields (node : TxHash → option Transaction)
    (hashes : list TxHash) (m : Monitor) :
  let m' := foldl (_process_transaction filters node) m hashes in
  pending_txs m' = pending_txs m ∧ processed_txs m' = processed_txs m ∧
  fetched m' = fetched m ++ hashes ∧
  ∃ announced,
    published m' = published m ++ announced ∧
    tx_hash <$> announced `sublist_of` hashes.
Proof.
  revert m. induction hashes as [|h hashes IH]; intros m; simpl.
  - split_and!; try done; [by rewrite app_nil_r|].
    exists []. by rewrite app_nil_r.
  - destruct (IH (_process_transaction filters node m h))
      as (I1 & I2 & I3 & announced & I4 & I5).
    split_and!; [done | done | rewrite I3; simpl; by rewrite <- app_assoc |].
    rewrite I4. unfold _process_transaction. cbn [published].
    destruct (node h) as [t|]; [destruct (_is_interesting_transaction filters t)|].
    + eexists (_ :: announced). rewrite <- app_assoc. split; [done|].
      simpl. by apply sublist_skip.
    + exists announced. split; [done | by apply sublist_cons].
    + exists announced. split; [done | by apply sublist_cons].
Qed.

Lemma settle_fields (hashes : list TxHash) (m : Monitor) :
  let m' := settle slot hashes m in
  published m' = published m ∧ fetched m' = fetched m ∧
  processed_txs m'
    = foldl (λ s x, set_add slot x s) (processed_txs m) hashes ∧
  (∀ y, y ∈ (pending_txs m').*1 ↔ y ∈ (pending_txs m).*1 ∧ y ∉ hashes) ∧
  (NoDup (pending_txs m).*1 → NoDup (pending_txs m').*1).
Proof.
  unfold settle. revert m.
  induction hashes as [|h hashes IH]; intros m; simpl.
  - split_and!; try done. intros y. rewrite elem_of_nil. tauto.
  - match goal with |- context [foldl ?f ?m1 hashes] =>
      destruct (IH m1) as (I1 & I2 & I3 & I4 & I5) end.
    simpl in *. split_and!; [done | done | done | |].
    + intros y. rewrite I4, dict_pop_keys, list_elem_of_filter, elem_of_cons.
      tauto.
    + intros Hnd. apply I5. rewrite dict_pop_keys. by apply NoDup_filter.
Qed.

Lemma keep_as_N : N.of_nat dedup_keep = 5000%N.
Proof. reflexivity. Qed.

Lemma overflows_spec (l : list TxHash) :
  overflows l = true ↔ (dedup_cap < N.of_nat (length l))%N.
Proof. unfold overflows. apply bool_decide_eq_true. Qed.

Lemma limit_fields (m : Monitor) :
  NoDup (processed_txs m) →
  let m' := limit slot m in
  pending_txs m' = pending_txs m ∧ published m' = published m ∧
  fetched m' = fetched m ∧
  NoDup (processed_txs m') ∧
  (∀ y, y ∈ processed_txs m' → y ∈ processed_txs m) ∧
  (N.of_nat (length (processed_txs m')) ≤ dedup_cap)%N ∧
  (overflows (processed_txs m) = true →
   length (processed_txs m') = dedup_keep) ∧
  (overflows (processed_txs m) = false → m' = m).
Proof.
  intros Hnd. unfold limit.
  destruct (overflows (processed_txs m)) eqn:E; simpl.
  - apply overflows_spec in E.
    set (kept := drop (length (processed_txs m) - dedup_keep)
                      (processed_txs m)).
    assert (Hkept : NoDup kept).
    { eapply sublist_NoDup; [exact Hnd | apply sublist_drop]. }
    assert (Hlen : length (set_of_list slot kept) = dedup_keep).
    { rewrite set_of_list_length by done. unfold kept. rewrite length_drop.
      pose proof keep_as_N. unfold dedup_cap in E. lia. }
    split_and!; try done.
    + apply fold_set_add_nodup. constructor.
    + intros y [Hy|Hy]%fold_set_add_elem; [by apply elem_of_nil in Hy|].
      eapply elem_of_sublist; [done | apply sublist_drop].
    + rewrite Hlen, keep_as_N. unfold dedup_cap. lia.
  - split_and!; try done.
    apply not_true_iff_false in E. rewrite overflows_spec in E. lia.
Qed.

(** *** The invariants of a run *)

Lemma consistent_started : consistent started ∧ remembered started.
Proof.
  unfold consistent, remembered. simpl.
  split_and!; try constructor; try done;
    intros y Hy; by apply elem_of_nil in Hy.
Qed.

Lemma consistent_handle (now : Q) (message : WsMessage) (m : Monitor) :
  consistent m → consistent (_handle_websocket_message now message m).
Proof.
  intros (C1 & C2 & C3 & C4 & C5).
  destruct (handle_fields now message m) as (H1 & H2 & H3 & H4 & H5 & H6).
  simpl in *. unfold consistent. rewrite H1, H2, H3.
  split_and!; try done; [by apply H6|].
  intros y Hy. destruct (H4 y Hy); auto.
Qed.

Lemma remembered_handle (now : Q) (message : WsMessage) (m : Monitor) :
  remembered m → remembered (_handle_websocket_message now message m).
Proof.
  intros [R1 R2].
  destruct (handle_fields now message m) as (H1 & H2 & H3 & _).
  simpl in *. unfold remembered. by rewrite H1, H3.
Qed.

(** The batch of a pass holds no hash twice and only pending hashes. *)
Lemma next_batch_pending (m : Monitor) :
  NoDup (pending_txs m).*1 →
  NoDup (next_batch m) ∧ ∀ y, y ∈ next_batch m → y ∈ (pending_txs m).*1.
Proof.
  intros Hnd. unfold next_batch. split.
  - eapply sublist_NoDup; [exact Hnd | apply sublist_take].
  - intros y Hy. eapply elem_of_sublist; [done | apply sublist_take].
Qed.

(** A pass over a batch of pending hashes. *)
Lemma pass_fields (node : TxHash → option Transaction)
    (during : list (Q * WsMessage)) (batch : list TxHash) (m : Monitor) :
  consistent m → NoDup batch → (∀ y, y ∈ batch → y ∈ (pending_txs m).*1) →
  let settled :=
    settle slot batch
      (foldl (λ m e, _handle_websocket_message e.1 e.2 m)
             (foldl (_process_transaction filters node) m batch) during) in
  consistent (limit slot settled) ∧
  (overflows (processed_txs settled) = true →
   length (processed_txs (limit slot settled)) = dedup_keep) ∧
  (overflows (processed_txs settled) = false → remembered m →
   remembered (limit slot settled)).
Proof.
  intros (C1 & C2 & C3 & C4 & C5) Hbatch Hpending settled.
  destruct (classify_fields node batch m)
    as (P1 & P2 & P3 & announced & P4 & P5).
  set (m1 := foldl (_process_transaction filters node) m batch) in *.
  destruct (handle_all_fields during m1) as (H1 & H2 & H3 & H4 & H5 & H6).
  set (m2 := foldl (λ m e, _handle_websocket_message e.1 e.2 m) m1 during) in *.
  destruct (settle_fields batch m2) as (S1 & S2 & S3 & S4 & S5).
  fold settled in S1, S2, S3, S4, S5. simpl in *.
  assert (Hprocessed : ∀ y, y ∈ processed_txs settled
                            ↔ y ∈ processed_txs m ∨ y ∈ batch).
  { intros y. by rewrite S3, fold_set_add_elem, H1, P2. }
  assert (Hnd : NoDup (processed_txs settled)).
  { rewrite S3. apply fold_set_add_nodup. by rewrite H1, P2. }
  destruct (limit_fields settled Hnd) as (L1 & L2 & L3 & L4 & L5 & L6 & L7 & L8).
  simpl in *. split_and!.
  - unfold consistent. rewrite L1, L2, L3. split_and!; try done.
    + apply S5, H6. by rewrite P1.
    + intros y [Hy Hnb]%S4 Hin%L5. apply Hprocessed in Hin as [Hin|Hin]; [|done].
      destruct (H4 y Hy) as [Hy'|Hy'].
      * rewrite P1 in Hy'. by apply (C3 y).
      * by rewrite P2 in Hy'.
    + rewrite S1, S2, H2, H3, P3, P4, fmap_app. by apply sublist_app.
  - done.
  - intros Hno [R1 R2]. rewrite (L8 Hno). unfold remembered.
    rewrite S2, H3, P3. split.
    + apply NoDup_app. split_and!; [done | | done].
      intros y Hy Hb. apply (C3 y); auto.
    + intros y Hy. apply Hprocessed. apply elem_of_app in Hy as [Hy|Hy]; auto.
Qed.

Lemma step_invariant (m : Monitor) (s : Step) :
  consistent m →
  consistent (step slot filters m s) ∧
  (evicts slot filters m s = true →
   length (processed_txs (step slot filters m s)) = dedup_keep) ∧
  (evicts slot filters m s = false → remembered m →
   remembered (step slot filters m s)).
Proof.
  intros Hc. destruct s as [now message|node during]; simpl.
  - split_and!; [by apply consistent_handle | done |].
    intros _. apply remembered_handle.
  - destruct (next_batch_pending m) as [Hnd Hin]; [apply Hc|].
    unfold process_batch, gathered.
    destruct (next_batch m) as [|h batch] eqn:E; [done|].
    by apply pass_fields.
Qed.

Lemma run_consistent (steps : list Step) (m : Monitor) :
  consistent m → consistent (foldl (step slot filters) m steps).
Proof.
  revert m. induction steps as [|s steps IH]; intros m Hc; simpl; [done|].
  apply IH. by apply step_invariant.
Qed.

Lemma run_remembered (steps : list Step) (m : Monitor) :
  consistent m → remembered m →
  never_evicts slot filters m steps = true →
  remembered (foldl (step slot filters) m steps).
Proof.
  revert m. induction steps as [|s steps IH]; intros m Hc Hr Hne; simpl; [done|].
  simpl in Hne. apply andb_true_iff in Hne as [He Hne].
  apply negb_true_iff in He.
  destruct (step_invariant m s Hc) as (Hc' & _ & Hr').
  apply IH; auto.
Qed.

Lemma count_sublist (h : TxHash) (l k : list TxHash) :
  l `sublist_of` k →
  length (filter (λ x, x = h) l) ≤ length (filter (λ x, x = h) k).
Proof.
  induction 1 as [|x l k Hs IH|x l k Hs IH]; [done| |].
  - rewrite !filter_cons. destruct (decide (x = h)); simpl; lia.
  - rewrite filter_cons. destruct (decide (x = h)); simpl; lia.
Qed.

Lemma count_absent (h : TxHash) (l : list TxHash) :
  h ∉ l → length (filter (λ x, x = h) l) = 0.
Proof.
  induction l as [|x l IH]; intros Hh; [done|].
  rewrite filter_cons. destruct (decide (x = h)) as [->|Hne].
  - exfalso. apply Hh. left.
  - apply IH. intros Hin. apply Hh. by right.
Qed.

Lemma count_nodup (h : TxHash) (l : list TxHash) :
  NoDup l → length (filter (λ x, x = h) l) ≤ 1.
Proof.
  induction 1 as [|x l Hx Hl IH]; [simpl; lia|].
  rewrite filter_cons. destruct (decide (x = h)) as [->|]; [|done].
  simpl. by rewrite count_absent.
Qed.

Lemma times_published_fmap (h : TxHash) (m : Monitor) :
  times_published h m = length (filter (λ x, x = h) (tx_hash <$> published m)).
Proof.
  unfold times_published. induction (published m) as [|e l IH]; [done|].
  rewrite fmap_cons, !filter_cons.
  destruct (decide (tx_hash e = h)); simpl; by rewrite IH.
Qed.

Lemma published_le_classified (h : TxHash) (m : Monitor) :
  consistent m → times_published h m ≤ times_classified h m.
Proof.
  intros (_ & _ & _ & _ & Hs). rewrite times_published_fmap.
  by apply count_sublist.
Qed.

(** A hash that was fetched at most once and, if fetched, is in the
    dedup set, stays so over a step that does not evict it, whatever
    else the step evicts. *)
Lemma step_keeps_known (h : TxHash) (m : Monitor) (s : Step) :
  consistent m → drops slot filters h m s = false →
  times_classified h m ≤ 1 ∧ (h ∈ fetched m → h ∈ processed_txs m) →
  times_classified h (step slot filters m s) ≤ 1 ∧
  (h ∈ fetched (step slot filters m s) →
   h ∈ processed_txs (step slot filters m s)).
Proof.
  intros Hc Hkeep [Honce Hknown]. destruct s as [now message|node during].
  - destruct (handle_fields now message m) as (H1 & _ & H3 & _).
    cbn [step]. unfold times_classified in *. simpl in H1, H3.
    by rewrite H1, H3.
  - destruct Hc as (C1 & C2 & C3 & _).
    destruct (next_batch_pending m C2) as [Hnd Hin].
    cbn [step]. unfold drops in Hkeep. unfold process_batch, gathered in *.
    destruct (next_batch m) as [|h0 rest] eqn:E; [done|].
    rewrite <- E in *. clear E h0 rest.
    destruct (classify_fields node (next_batch m) m) as (_ & P2 & P3 & _).
    set (m1 := foldl (_process_transaction filters node) m (next_batch m)) in *.
    destruct (handle_all_fields during m1) as (H1 & _ & H3 & _).
    set (m2 := foldl (λ m e, _handle_websocket_message e.1 e.2 m) m1 during)
      in *.
    destruct (settle_fields (next_batch m) m2) as (_ & S2 & S3 & _).
    set (settled := settle slot (next_batch m) m2) in *.
    cbv zeta in *.
    assert (Hprocessed : ∀ y, y ∈ processed_txs settled
                              ↔ y ∈ processed_txs m ∨ y ∈ next_batch m).
    { intros y. by rewrite S3, fold_set_add_elem, H1, P2. }
    assert (Hfetched : fetched (limit slot settled) = fetched m ++ next_batch m).
    { unfold limit. destruct (overflows (processed_txs settled)); simpl;
        by rewrite S2, H3, P3. }
    assert (Hstays : h ∈ processed_txs settled →
                     h ∈ processed_txs (limit slot settled)).
    { intros Hs%contains_spec. rewrite Hs in Hkeep. simpl in Hkeep.
      apply negb_false_iff in Hkeep. by apply contains_spec. }
    unfold times_classified in *. rewrite Hfetched, filter_app, length_app.
    split.
    + destruct (decide (h ∈ next_batch m)) as [Hb|Hb].
      * rewrite (count_absent h (fetched m)).
        -- pose proof (count_nodup h (next_batch m) Hnd). lia.
        -- intros Hf. apply (C3 h); auto.
      * rewrite (count_absent h (next_batch m)) by done. lia.
    + intros Hf. apply Hstays, Hprocessed.
      apply elem_of_app in Hf as [Hf|Hf]; auto.
Qed.

Lemma run_keeps_known (h : TxHash) (steps : list Step) (m : Monitor) :
  consistent m → never_drops slot filters h m steps = true →
  times_classified h m ≤ 1 ∧ (h ∈ fetched m → h ∈ processed_txs m) →
  let m' := foldl (step slot filters) m steps in
  times_classified h m' ≤ 1 ∧ (h ∈ fetched m' → h ∈ processed_txs m').
Proof.
  revert m. induction steps as [|s steps IH]; intros m Hc Hnd Hk; [done|].
  simpl in Hnd. apply andb_true_iff in Hnd as [Hs Hnd].
  apply negb_true_iff in Hs. cbn [foldl].
  apply IH; [by apply step_invariant | done | by apply step_keeps_known].
Qed.

(** C4, as the code has it.  In a run in which hash [h] is never evicted
    from the dedup set, whatever other hashes are evicted, [h] is
    fetched for classification at most once and an
    [interesting_transaction] event is published for it at most once,
    however often the feed delivers it.  In every run the dedup set
    holds at most 10000 hashes after each step, and a pass that makes it
    overflow cuts it down to 5000 hashes. *)
Theorem dedup_holds_until_eviction (steps : list Step) (h : TxHash) :
  let m := run slot filters steps in
  (never_drops slot filters h started steps = true →
   times_classified h m ≤ 1 ∧ times_published h m ≤ 1) ∧
  (N.of_nat (length (processed_txs m)) ≤ 10000)%N ∧
  (∀ s : Step,
     evicts slot filters m s = true →
     length (processed_txs (step slot filters m s)) = 5000).
Proof.
  intros m. destruct consistent_started as [Hc0 Hr0].
  assert (Hc : consistent m) by by apply run_consistent.
  split_and!.
  - intros Hnd.
    destruct (run_keeps_known h steps started Hc0 Hnd) as [Hcl _].
    { split; [vm_compute; lia|]. intros Hf. by apply elem_of_nil in Hf. }
    change (times_classified h m ≤ 1) in Hcl.
    split; [done|]. pose proof (published_le_classified h m Hc). lia.
  - apply Hc.
  - intros s He. by apply (step_invariant m s Hc).
Qed.

End PipelineFacts.

(** *** A hash delivered again after its eviction *)

Section ReplayFacts.
Import Mempool Scenario.

Lemma hashes_from_snoc (h : TxHash) (n : nat) :
  hashes_from h (S n) = hashes_from h n ++ [(h + N.of_nat n)%N].
Proof.
  revert h. induction n as [|n IH]; intros h.
  - simpl. f_equal. lia.
  - change (hashes_from h (S (S n))) with (h :: hashes_from (N.succ h) (S n)).
    rewrite IH. simpl. do 3 f_equal. lia.
Qed.

Lemma hashes_from_bounds (h x : TxHash) (n : nat) :
  x ∈ hashes_from h n → (h ≤ x < h + N.of_nat n)%N.
Proof.
  revert h. induction n as [|n IH]; intros h; simpl.
  - by intros ?%elem_of_nil.
  - intros [->|Hx%IH]%elem_of_cons; lia.
Qed.

Lemma hashes_from_length (h : TxHash) (n : nat) :
  length (hashes_from h n) = n.
Proof. revert h. induction n as [|n IH]; intros h; simpl; by rewrite ?IH. Qed.

Lemma contains_beyond (h x : TxHash) (n : nat) :
  (h + N.of_nat n ≤ x)%N → contains x (hashes_from h n) = false.
Proof.
  intros Hx. apply not_true_iff_false. unfold contains.
  rewrite existsb_exists. intros (y & Hy%list_elem_of_In & ->%N.eqb_eq).
  apply hashes_from_bounds in Hy. lia.
Qed.

Lemma set_add_insertion_order (x : TxHash) (l : list TxHash) :
  contains x l = false → set_add insertion_order x l = l ++ [x].
Proof.
  intros Hx. unfold set_add, insertion_order. rewrite Hx.
  by rewrite take_ge, drop_ge by lia.
Qed.

Lemma swap_is_interesting :
  _is_interesting_transaction watch_router (tx (swap_event 0%N)) = true.
Proof. reflexivity. Qed.

Lemma dict_pop_single (h : TxHash) (t : Q) : dict_pop h [(h, t)] = [].
Proof.
  unfold dict_pop. rewrite filter_cons. simpl.
  by rewrite decide_False by (intros H; by apply H).
Qed.

(** A pass on a monitor whose queue holds one fresh hash. *)
Lemma pass_single (m : Monitor) (h : TxHash) (t : Q) :
  pending_txs m = [(h, t)] → contains h (processed_txs m) = false →
  step insertion_order watch_router m pass
    = limit insertion_order
        {| pending_txs := [];
           processed_txs := processed_txs m ++ [h];
           running := running m;
           tx_count := tx_count m;
           interesting_tx_count := S (interesting_tx_count m);
           published := published m ++ [swap_event h];
           fetched := fetched m ++ [h] |}.
Proof.
  intros Hpending Hfresh.
  unfold pass, step, process_batch, gathered, next_batch. rewrite Hpending.
  cbn [fmap list_fmap fst take batch_size foldl settle].
  unfold _process_transaction at 1. cbn [swap_node].
  change (_is_interesting_transaction watch_router _) with
    (_is_interesting_transaction watch_router (tx (swap_event 0%N))).
  rewrite swap_is_interesting.
  cbn [pending_txs processed_txs running tx_count interesting_tx_count
       published fetched].
  rewrite Hpending, dict_pop_single, set_add_insertion_order by done.
  done.
Qed.

Lemma notify_fresh (m : Monitor) (h : TxHash) :
  pending_txs m = [] → contains h (processed_txs m) = false →
  step insertion_order watch_router m (notify h)
    = {| pending_txs := [(h, 0%Q)];
         processed_txs := processed_txs m;
         running := running m;
         tx_count := S (tx_count m);
         interesting_tx_count := interesting_tx_count m;
         published := published m;
         fetched := fetched m |}.
Proof.
  intros Hpending Hfresh. unfold notify, step, _handle_websocket_message.
  rewrite decide_True by done. by rewrite Hfresh, Hpending.
Qed.

Lemma limit_within_cap (m : Monitor) :
  (N.of_nat (length (processed_txs m)) ≤ dedup_cap)%N →
  limit insertion_order m = m.
Proof.
  intros Hcap. unfold limit.
  destruct (overflows (processed_txs m)) eqn:E; [|done].
  apply overflows_spec in E. lia.
Qed.

(** While the dedup set is within its cap, delivering and classifying the
    next hash extends every list by that hash. *)
Lemma flood_round (k : nat) :
  (N.of_nat k < dedup_cap)%N →
  foldl (step insertion_order watch_router) (flooded k)
        [notify (1 + N.of_nat k)%N; pass]
    = flooded (S k).
Proof.
  intros Hk. cbn [foldl].
  rewrite notify_fresh; [|done|by apply contains_beyond].
  erewrite pass_single; [|done|by apply contains_beyond].
  rewrite limit_within_cap.
  - unfold flooded. rewrite hashes_from_snoc, fmap_app. done.
  - cbn [processed_txs flooded]. rewrite length_app, hashes_from_length.
    simpl. lia.
Qed.

Lemma flood_snoc (k : nat) :
  flood (S k) = flood k ++ [notify (1 + N.of_nat k)%N; pass].
Proof. unfold flood. by rewrite hashes_from_snoc, flat_map_app. Qed.

Lemma flood_run (k : nat) :
  (N.of_nat k ≤ dedup_cap)%N →
  foldl (step insertion_order watch_router) started (flood k) = flooded k.
Proof.
  induction k as [|k IH]; intros Hk; [done|].
  rewrite flood_snoc, foldl_app, IH by lia. apply flood_round. lia.
Qed.

(** The pass that classifies hash [k + 1] when the dedup set already
    holds [k = 10000] hashes evicts hash 1. *)
Lemma overflow_evicts_first (k : nat) :
  N.of_nat k = dedup_cap →
  let m := foldl (step insertion_order watch_router) (flooded k)
                 [notify (1 + N.of_nat k)%N; pass] in
  pending_txs m = [] ∧ contains 1%N (processed_txs m) = false ∧
  fetched m = hashes_from 1%N (S k) ∧
  published m = swap_event <$> hashes_from 1%N (S k).
Proof.
  intros Hk. cbn [foldl].
  rewrite notify_fresh; [|done|by apply contains_beyond].
  erewrite pass_single; [|done|by apply contains_beyond].
  cbn [pending_txs processed_txs running tx_count interesting_tx_count
       published fetched flooded].
  rewrite <- fmap_snoc, <- hashes_from_snoc.
  unfold limit. cbn [processed_txs].
  assert (Hover : overflows (hashes_from 1%N (S k)) = true).
  { apply overflows_spec. rewrite hashes_from_length. lia. }
  rewrite Hover. cbn [pending_txs processed_txs published fetched].
  split_and!; try done.
  apply contains_false. unfold set_of_list.
  intros [Hin|Hin]%fold_set_add_elem; [by apply elem_of_nil in Hin|].
  rewrite hashes_from_length in Hin.
  destruct (S k - dedup_keep) as [|j] eqn:Ej.
  { pose proof keep_as_N. unfold dedup_cap in Hk. lia. }
  change (hashes_from 1%N (S k)) with (1%N :: hashes_from 2%N k) in Hin.
  cbn [drop] in Hin.
  assert (Hin' : 1%N ∈ hashes_from 2%N k).
  { eapply elem_of_sublist; [exact Hin | apply sublist_drop]. }
  apply hashes_from_bounds in Hin'. lia.
Qed.

Lemma limit_logs (m : Monitor) :
  fetched (limit insertion_order m) = fetched m ∧
  published (limit insertion_order m) = published m.
Proof. unfold limit. by destruct (overflows _). Qed.

Lemma count_first (k : nat) :
  length (filter (λ x, x = 1%N) (hashes_from 1%N (S k))) = 1.
Proof.
  change (hashes_from 1%N (S k)) with (1%N :: hashes_from 2%N k).
  rewrite filter_cons, decide_True by done. simpl. f_equal.
  apply count_absent. intros Hin%hashes_from_bounds. lia.
Qed.

Lemma swap_event_hashes (l : list TxHash) : tx_hash <$> (swap_event <$> l) = l.
Proof. induction l as [|h l IH]; [done|]. rewrite !fmap_cons. by rewrite IH. Qed.

Lemma replay_from (k : nat) :
  N.of_nat k = dedup_cap →
  let m := foldl (step insertion_order watch_router) started
                 (flood (S k) ++ [notify 1%N; pass]) in
  times_classified 1%N m = 2 ∧ times_published 1%N m = 2.
Proof.
  intros Hk. rewrite flood_snoc, !foldl_app, flood_run by lia.
  destruct (overflow_evicts_first k Hk) as (Hp & Hc & Hf & Hpub).
  set (m1 := foldl (step insertion_order watch_router) (flooded k) _) in *.
  cbn [foldl]. rewrite notify_fresh by done.
  erewrite pass_single; [|done|done].
  rewrite times_published_fmap. unfold times_classified.
  match goal with |- context [limit insertion_order ?x] =>
    destruct (limit_logs x) as [-> ->] end.
  cbn [published fetched]. rewrite Hf, Hpub.
  rewrite fmap_app, swap_event_hashes. cbn [fmap list_fmap tx_hash swap_event].
  rewrite !filter_app, !length_app, count_first. done.
Qed.

(** *** A hash delivered again after an eviction that kept it *)

Lemma never_drops_app (x : TxHash) (m : Monitor) (l k : list Step) :
  never_drops insertion_order watch_router x m (l ++ k)
    = never_drops insertion_order watch_router x m l
        && never_drops insertion_order watch_router x
             (foldl (step insertion_order watch_router) m l) k.
Proof.
  revert m. induction l as [|s l IH]; intros m; [done|].
  cbn [app never_drops foldl]. by rewrite IH, andb_assoc.
Qed.

(** What a pass evicts on a monitor whose queue holds one fresh hash. *)
Lemma drops_single (x : TxHash) (m : Monitor) (h : TxHash) (t : Q) :
  pending_txs m = [(h, t)] → contains h (processed_txs m) = false →
  drops insertion_order watch_router x m pass
    = contains x (processed_txs m ++ [h])
        && negb (contains x
                   (processed_txs
                      (limit insertion_order
                         {| pending_txs := [];
                            processed_txs := processed_txs m ++ [h];
                            running := running m;
                            tx_count := tx_count m;
                            interesting_tx_count := S (interesting_tx_count m);
                            published := published m ++ [swap_event h];
                            fetched := fetched m ++ [h] |}))).
Proof.
  intros Hpending Hfresh.
  unfold pass, drops, gathered, next_batch. rewrite Hpending.
  cbn [fmap list_fmap fst take batch_size foldl settle].
  unfold _process_transaction. cbn [swap_node].
  change (_is_interesting_transaction watch_router _) with
    (_is_interesting_transaction watch_router (tx (swap_event 0%N))).
  rewrite swap_is_interesting.
  cbn [pending_txs processed_txs running tx_count interesting_tx_count
       published fetched].
  rewrite Hpending, dict_pop_single, set_add_insertion_order by done.
  done.
Qed.

(** While the dedup set is within its cap, a round evicts nothing. *)
Lemma round_keeps (x : TxHash) (k : nat) :
  (N.of_nat k < dedup_cap)%N →
  never_drops insertion_order watch_router x (flooded k)
    [notify (1 + N.of_nat k)%N; pass] = true.
Proof.
  intros Hk. cbn [never_drops drops notify negb andb].
  change (Receive 0 (Json (Some "eth_subscription"%string)
                          (Some (1 + N.of_nat k)%N)))
    with (notify (1 + N.of_nat k)%N).
  rewrite notify_fresh; [|done|by apply contains_beyond].
  erewrite drops_single; [|done|by apply contains_beyond].
  rewrite limit_within_cap; [by rewrite andb_negb_r|].
  cbn [processed_txs flooded]. rewrite length_app, hashes_from_length.
  simpl. lia.
Qed.

Lemma flood_keeps (x : TxHash) (k : nat) :
  (N.of_nat k ≤ dedup_cap)%N →
  never_drops insertion_order watch_router x started (flood k) = true.
Proof.
  induction k as [|k IH]; intros Hk; [done|].
  rewrite flood_snoc, never_drops_app, IH, flood_run by lia.
  apply round_keeps. lia.
Qed.

Lemma contains_last (x : TxHash) (l : list TxHash) :
  contains x (l ++ [x]) = true.
Proof. apply contains_spec, elem_of_app. right. left. Qed.

(** The pass that classifies hash [k + 1] when the dedup set already
    holds [k = 10000] hashes keeps hash [k + 1]. *)
Lemma overflow_keeps_newest (k : nat) :
  N.of_nat k = dedup_cap →
  let m := foldl (step insertion_order watch_router) (flooded k)
                 [notify (1 + N.of_nat k)%N; pass] in
  never_drops insertion_order watch_router (1 + N.of_nat k)%N (flooded k)
    [notify (1 + N.of_nat k)%N; pass] = true ∧
  pending_txs m = [] ∧
  contains (1 + N.of_nat k)%N (processed_txs m) = true.
Proof.
  intros Hk.
  assert (Hkept :
    contains (1 + N.of_nat k)%N
      (processed_txs
         (limit insertion_order
            {| pending_txs := [];
               processed_txs := hashes_from 1%N k ++ [(1 + N.of_nat k)%N];
               running := true;
               tx_count := S k;
               interesting_tx_count := S k;
               published := (swap_event <$> hashes_from 1%N k)
                              ++ [swap_event (1 + N.of_nat k)%N];
               fetched := hashes_from 1%N k ++ [(1 + N.of_nat k)%N] |}))
    = true).
  { unfold limit. cbn [processed_txs].
    assert (Hover : overflows (hashes_from 1%N k ++ [(1 + N.of_nat k)%N])
                    = true).
    { apply overflows_spec. rewrite length_app, hashes_from_length.
      simpl. lia. }
    rewrite Hover. cbn [processed_txs].
    apply contains_spec. unfold set_of_list. apply fold_set_add_elem. right.
    rewrite length_app, hashes_from_length. cbn [length].
    rewrite drop_app_le.
    - apply elem_of_app. right. left.
    - rewrite hashes_from_length. pose proof keep_as_N. lia. }
  split_and!.
  - cbn [never_drops drops notify negb andb].
    change (Receive 0 (Json (Some "eth_subscription"%string)
                            (Some (1 + N.of_nat k)%N)))
      with (notify (1 + N.of_nat k)%N).
    rewrite notify_fresh; [|done|by apply contains_beyond].
    erewrite drops_single; [|done|by apply contains_beyond].
    cbn [pending_txs processed_txs running tx_count interesting_tx_count
         published fetched flooded].
    rewrite contains_last. cbn [andb]. rewrite andb_true_r.
    apply negb_true_iff, negb_false_iff. exact Hkept.
  - by destruct (overflow_evicts_first k Hk) as (Hp & _).
  - cbn [foldl]. rewrite notify_fresh; [|done|by apply contains_beyond].
    erewrite pass_single; [|done|by apply contains_beyond].
    exact Hkept.
Qed.

(** Over the whole redelivery, the newest hash is never evicted. *)
Lemma redelivery_keeps (k : nat) :
  N.of_nat k = dedup_cap →
  never_drops insertion_order watch_router (1 + N.of_nat k)%N started
    (flood (S k) ++ [notify (1 + N.of_nat k)%N; pass]) = true.
Proof.
  intros Hk.
  destruct (overflow_keeps_newest k Hk) as (Hround & Hpending & Hkept).
  rewrite flood_snoc, !never_drops_app, flood_keeps, flood_run by lia.
  rewrite Hround. cbn [andb].
  rewrite foldl_app, flood_run by lia.
  set (m := foldl (step insertion_order watch_router) (flooded k) _) in *.
  cbn [never_drops drops notify negb andb step].
  unfold _handle_websocket_message. rewrite decide_True by done.
  rewrite Hkept. unfold drops, pass, next_batch. by rewrite Hpending.
Qed.

End ReplayFacts.

(** C4 as stated fails.  With a set that iterates in insertion order, the
    hashes 1 to 10001 are delivered and classified in turn; the pass that
    brings the dedup set to 10001 entries evicts hash 1; delivered once
    more, hash 1 is classified and published a second time. *)
Lemma hash_republished_after_eviction :
  let m := Mempool.run Scenario.insertion_order Scenario.watch_router
             Scenario.replay in
  Mempool.times_classified 1%N m = 2 ∧ Mempool.times_published 1%N m = 2.
Proof.
  unfold Mempool.run, Scenario.replay.
  replace (N.to_nat 10001) with (S (N.to_nat 10000)) by lia.
  apply replay_from. unfold Mempool.dedup_cap. lia.
Qed.

(** ** Bundle submission *)

Section FlashbotsFacts.
Import Flashbots.

Context (bytes_hex : list N → string) (hex : Z → string)
        (sign : Payload → option string)
        (post : string → Payload → string → HttpResult).

(** A request is sent exactly when its signing succeeds. *)
Lemma send_sent (endpoint : string) (payload : Payload) :
  (send sign post endpoint payload).2
    = match sign payload with
      | Some _ => [(endpoint, payload)]
      | None => []
      end.
Proof. unfold send. by destruct (sign payload). Qed.

Lemma not_submittable (data : BundleData) :
  ¬ submittable data →
  default [] (transactions data) = [] ∨ target_block data = None ∨
  target_block data = Some 0%Z.
Proof.
  unfold submittable. intros Hn.
  destruct (default [] (transactions data)) as [|tx rest]; [by left|].
  destruct (target_block data) as [block|]; [|by right; left].
  destruct (decide (block = 0%Z)) as [->|Hne]; [by right; right|].
  exfalso. apply Hn. split; [done | by exists block].
Qed.

(** C2, as the code has it.  [submit_bundle] never raises.  For a
    request with transactions and a target block, both relay submissions
    are made and awaited, whatever either yields; a submission that
    raises is that endpoint's error and is null in the event; the
    submitted counter is incremented and one [bundle_submitted] event
    carries both outcomes.  When the transactions convert, each relay is
    sent its request if the signing of that request succeeds.  A request
    without transactions or without target block is logged and dropped:
    nothing is sent, counted or published. *)
Theorem submit_bundle_aggregates (data : BundleData) (self : Manager) :
  let after := submit_bundle bytes_hex hex sign post data self in
  after.2 = Returns ∧
  (submittable data →
   ∃ block,
     target_block data = Some block ∧
     let transactions := default [] (transactions data) in
     let flashbots := _submit_to_flashbots bytes_hex hex sign post
                        transactions block in
     let eden := _submit_to_eden bytes_hex hex sign post transactions block in
     bundles_submitted after.1 = (bundles_submitted self + 1)%Z ∧
     posted after.1 = posted self ++ flashbots.2 ++ eden.2 ∧
     published after.1
       = published self
           ++ [ {| flashbots_result := result_or_none flashbots.1;
                   eden_result := result_or_none eden.1;
                   event_target_block := block |} ] ∧
     errors after.1
       = errors self ++ submission_errors "Flashbots" flashbots.1
           ++ submission_errors "Eden Network" eden.1 ∧
     (∀ e, flashbots.1 = Raised e →
        flashbots_result <$> last (published after.1) = Some None) ∧
     (∀ e, eden.1 = Raised e →
        eden_result <$> last (published after.1) = Some None) ∧
     (∀ hex_txs, tx_list bytes_hex transactions = Some hex_txs →
        let to_flashbots := flashbots_payload hex hex_txs block in
        let to_eden := eden_payload hex hex_txs block in
        posted after.1
          = posted self
              ++ match sign to_flashbots with
                 | Some _ => [(flashbots_endpoint, to_flashbots)]
                 | None => []
                 end
              ++ match sign to_eden with
                 | Some _ => [(eden_endpoint, to_eden)]
                 | None => []
                 end)) ∧
  (¬ submittable data →
   bundles_submitted after.1 = bundles_submitted self ∧
   posted after.1 = posted self ∧
   published after.1 = published self ∧
   errors after.1 = errors self ++ [missing_error]).
Proof.
  intros after. split_and!.
  - unfold after, submit_bundle.
    destruct (default [] (transactions data)), (target_block data);
      try done.
    destruct (decide _); [done|].
    by destruct (_submit_to_flashbots _ _ _ _ _ _), (_submit_to_eden _ _ _ _ _ _).
  - intros (Htxs & block & Hblock & Hnz). exists block. split; [done|].
    unfold after, submit_bundle. rewrite Hblock.
    destruct (default [] (transactions data)) as [|tx rest] eqn:E; [done|].
    rewrite decide_False by done.
    destruct (_submit_to_flashbots _ _ _ _ _ _) as [fr fs] eqn:Ef.
    destruct (_submit_to_eden _ _ _ _ _ _) as [er es] eqn:Ee.
    cbn [fst snd bundles_submitted posted published errors].
    rewrite last_snoc. cbn [fmap option_fmap option_map
      flashbots_result eden_result].
    split_and!; try done.
    + by intros e ->.
    + by intros e ->.
    + intros hex_txs Hhex.
      unfold _submit_to_flashbots in Ef. unfold _submit_to_eden in Ee.
      rewrite Hhex in Ef, Ee.
      pose proof (send_sent flashbots_endpoint
                    (flashbots_payload hex hex_txs block)) as Hf.
      pose proof (send_sent eden_endpoint (eden_payload hex hex_txs block))
        as He.
      rewrite Ef in Hf. rewrite Ee in He. simpl in Hf, He.
      by rewrite Hf, He.
  - intros Hn. unfold after, submit_bundle.
    destruct (not_submittable data Hn) as [->| [->| ->]]; [done | |].
    + by destruct (default [] (transactions data)).
    + destruct (default [] (transactions data)); [done|].
      by rewrite decide_True.
Qed.

End FlashbotsFacts.

Lemma submit_bundle_aggregates_witness :
  let after :=
    Flashbots.submit_bundle Scenario.no_hex_bytes Scenario.no_hex
      Scenario.no_sign Scenario.one_relay_down Scenario.bundle
      Flashbots.init in
  ∃ block,
    Flashbots.target_block Scenario.bundle = Some block ∧
    Flashbots.bundles_submitted after.1 = 1%Z ∧
    Flashbots.posted after.1 = [] ∧
    Flashbots.published after.1
      = [ {| Flashbots.flashbots_result := None;
             Flashbots.eden_result := None;
             Flashbots.event_target_block := block |} ].
Proof.
  destruct (submit_bundle_aggregates Scenario.no_hex_bytes Scenario.no_hex
              Scenario.no_sign Scenario.one_relay_down Scenario.bundle
              Flashbots.init)
    as (_ & Hsubmitted & _).
  destruct Hsubmitted
    as (block & Hblock & Hcount & Hposted & Hpublished & _).
  - split; [discriminate | exists 100%Z; split; [reflexivity | discriminate]].
  - exists block. split; [exact Hblock|].
    split; [exact Hcount | split; [exact Hposted | exact Hpublished]].
Defined.

(** C2 as stated fails: a request without transaction list does not raise,
    yet nothing is submitted, counted or published; and a bundle whose
    only element is not a transaction does not raise either: both
    submissions fail, the counter is incremented and the event carries two
    nulls. *)
Lemma missing_transactions_neither_raise_nor_submit :
  Flashbots.submit_bundle Scenario.no_hex_bytes Scenario.no_hex
    Scenario.no_sign Scenario.one_relay_down
    Scenario.bundle_without_transactions Flashbots.init
  = ({| Flashbots.bundles_submitted := 0;
        Flashbots.posted := [];
        Flashbots.published := [];
        Flashbots.errors := [Flashbots.missing_error] |},
     Flashbots.Returns) ∧
  let malformed :=
    Flashbots.submit_bundle Scenario.no_hex_bytes Scenario.no_hex
      Scenario.no_sign Scenario.one_relay_down
      Scenario.malformed_bundle Flashbots.init in
  malformed.2 = Flashbots.Returns ∧
  Flashbots.bundles_submitted malformed.1 = 1%Z ∧
  Flashbots.posted malformed.1 = [] ∧
  Flashbots.published malformed.1
    = [ {| Flashbots.flashbots_result := None;
           Flashbots.eden_result := None;
           Flashbots.event_target_block := 100 |} ].
Proof. split; [reflexivity|]. split_and!; reflexivity. Qed.

Lemma dedup_holds_until_eviction_witness :
  let m := Mempool.run Scenario.insertion_order Scenario.watch_router
             Scenario.redelivery in
  Mempool.times_classified 10001%N m ≤ 1 ∧
  Mempool.times_published 10001%N m ≤ 1.
Proof.
  apply (dedup_holds_until_eviction Scenario.insertion_order
           Scenario.watch_router Scenario.redelivery 10001%N).
  unfold Scenario.redelivery.
  replace (N.to_nat 10001) with (S (N.to_nat 10000)) by lia.
  replace 10001%N with (1 + N.of_nat (N.to_nat 10000))%N by lia.
  apply redelivery_keeps. unfold Mempool.dedup_cap. lia.
Defined.

(* ===================================================================== *)
(** * Part III: further properties of the code *)
(* ===================================================================== *)

(** ** Event bus: removal, order, topics, asynchronous publish *)

Section EventBusMore.
Import EventBus.
Context {Data : Type} (raises : Callback → Data → bool).

Lemma run_callbacks_invoked (t : string) (d : Data) (l : list Callback) :
  invoked (run_callbacks raises t d l) = (λ c, (c, d)) <$> l.
Proof. induction l as [|c l IH]; [done|]. simpl. by rewrite IH. Qed.

Lemma run_callbacks_logged (t : string) (d : Data) (l : list Callback) :
  logged (run_callbacks raises t d l)
    = (λ c, (t, c)) <$> filter (λ c, raises c d = true) l.
Proof.
  induction l as [|c l IH]; [done|]. simpl. rewrite filter_cons.
  destruct (raises c d) eqn:E.
  - rewrite decide_True by done. rewrite fmap_cons. by rewrite IH.
  - rewrite decide_False by done. done.
Qed.

Lemma list_remove_absent (c : Callback) (l : list Callback) :
  NoDup l → c ∉ list_remove c l.
Proof.
  induction 1 as [|x l Hx Hl IH]; simpl; [apply not_elem_of_nil|].
  destruct (decide (c = x)) as [->|Hne]; [done|].
  intros [?|?]%elem_of_cons; [done | by apply IH].
Qed.

Lemma list_remove_filter (c : Callback) (l : list Callback) :
  NoDup l → list_remove c l = filter (λ x, x ≠ c) l.
Proof.
  induction 1 as [|x l Hx Hl IH]; simpl; [done|].
  rewrite filter_cons. destruct (decide (c = x)) as [->|Hne].
  - rewrite decide_False by (intros H; by apply H).
    symmetry. clear IH Hl. induction l as [|y l IH]; [done|].
    rewrite filter_cons, decide_True.
    + f_equal. apply IH. intros Hin. apply Hx. by right.
    + intros ->. apply Hx. left.
  - rewrite decide_True by done. by rewrite IH.
Qed.

(** X1.  On a bus reached by any history, once a handler is unsubscribed
    from a topic a publish on that topic no longer calls it, and calls
    the topic's other handlers as before, in the same order. *)
Theorem unsubscribe_stops_invocations (history : list Op)
    (event_type : string) (callback : Callback) (data : Data) :
  let before := after history in
  let bus := unsubscribe event_type callback before in
  invocations callback (publish raises event_type data bus) = 0 ∧
  invoked (publish raises event_type data bus)
    = filter (λ call, call.1 ≠ callback)
             (invoked (publish raises event_type data before)).
Proof.
  intros before bus. pose proof (bus_nodup_after history) as Hnd.
  fold before in Hnd. unfold bus, unsubscribe, publish.
  destruct (before !! event_type) as [l|] eqn:E; [|by rewrite E].
  specialize (Hnd _ _ E).
  assert (Hfilter : ∀ k : list Callback,
            filter (λ call : Callback * Data, call.1 ≠ callback)
                   ((λ c, (c, data)) <$> k)
            = (λ c, (c, data)) <$> filter (λ x, x ≠ callback) k).
  { induction k as [|x k IH]; [done|]. rewrite fmap_cons, !filter_cons. simpl.
    destruct (decide (x ≠ callback)); [rewrite fmap_cons|]; by rewrite IH. }
  destruct (decide (callback ∈ l)) as [Hin|Hnin].
  - rewrite lookup_insert_eq, invocations_run_callbacks, !run_callbacks_invoked.
    split.
    + apply absent_count_zero. by apply list_remove_absent.
    + by rewrite Hfilter, list_remove_filter.
  - rewrite E, invocations_run_callbacks, !run_callbacks_invoked. split.
    + by apply absent_count_zero.
    + rewrite Hfilter. f_equal. symmetry.
      clear E Hnd. induction l as [|y l IH]; [done|].
      rewrite filter_cons, decide_True.
      * f_equal. apply IH. intros Hin. apply Hnin. by right.
      * intros ->. apply Hnin. left.
Qed.

(** X2.  A handler subscribed to a topic for the first time is called
    last: a publish calls the earlier handlers first, in their order,
    whether or not any of them raises, then the new one; the errors logged
    are those of the handlers that raise. *)
Theorem new_subscriber_called_last (subscribers : Subscribers)
    (event_type : string) (callback : Callback) (data : Data) :
  callback ∉ default [] (subscribers !! event_type) →
  let earlier := publish raises event_type data subscribers in
  let later :=
    publish raises event_type data (subscribe event_type callback subscribers) in
  invoked later = invoked earlier ++ [(callback, data)] ∧
  logged later
    = logged earlier
        ++ (if raises callback data then [(event_type, callback)] else []).
Proof.
  intros Hnew earlier later. unfold later, earlier, publish.
  rewrite subscribe_lookup. cbv zeta. rewrite decide_False by done.
  destruct (subscribers !! event_type) as [l|]; simpl.
  - rewrite !run_callbacks_invoked, !run_callbacks_logged.
    rewrite fmap_app, filter_app, fmap_app. split; [done|]. f_equal.
    rewrite filter_cons. by destruct (raises callback data).
  - by destruct (raises callback data).
Qed.

(** X3.  Topics are independent: subscribing to, unsubscribing from or
    clearing one topic leaves what a publish on any other topic does
    unchanged; and after a topic is cleared a publish on it calls
    nothing. *)
Theorem topics_are_independent (subscribers : Subscribers)
    (event_type other : string) (callback : Callback) (data : Data) :
  event_type ≠ other → event_type ≠ ""%string →
  publish raises other data (subscribe event_type callback subscribers)
    = publish raises other data subscribers ∧
  publish raises other data (unsubscribe event_type callback subscribers)
    = publish raises other data subscribers ∧
  publish raises other data (clear_subscribers (Some event_type) subscribers)
    = publish raises other data subscribers ∧
  invoked (publish raises event_type data
             (clear_subscribers (Some event_type) subscribers)) = [].
Proof.
  intros Hne Hnonempty. unfold publish. split_and!.
  - unfold subscribe. cbv zeta.
    destruct (subscribers !! event_type) as [l|] eqn:E;
      destruct (decide _); by rewrite ?lookup_insert_ne by done.
  - unfold unsubscribe. destruct (subscribers !! event_type) as [l|]; [|done].
    destruct (decide _); [|done]. by rewrite lookup_insert_ne.
  - unfold clear_subscribers. rewrite decide_False by done.
    destruct (subscribers !! event_type); [|done]. by rewrite lookup_insert_ne.
  - unfold clear_subscribers. rewrite decide_False by done.
    destruct (subscribers !! event_type) eqn:E; [|by rewrite E].
    by rewrite lookup_insert_eq.
Qed.

Context (is_coroutine : Callback → bool).

Lemma dispatch_spec (t : string) (d : Data) (l : list Callback) :
  dispatch raises is_coroutine t d l
    = (run_callbacks raises t d (filter (λ c, is_coroutine c = false) l),
       filter (λ c, is_coroutine c = true) l).
Proof.
  induction l as [|c l IH]; [done|]. simpl. rewrite IH, !filter_cons.
  destruct (is_coroutine c) eqn:E.
  - rewrite decide_False by done. by rewrite decide_True by done.
  - rewrite decide_True by done. by rewrite decide_False by done.
Qed.

(** X4.  [publish_async] calls exactly the handlers that [publish] calls,
    each once: first the plain handlers in registration order, then the
    coroutine handlers in registration order.  It logs the errors of the
    plain handlers that raise and nothing for a coroutine that raises;
    when no handler is a coroutine it does what [publish] does. *)
Theorem publish_async_calls_same_handlers (subscribers : Subscribers)
    (event_type : string) (data : Data) :
  let sync := publish raises event_type data subscribers in
  let async := publish_async raises is_coroutine event_type data subscribers in
  invoked async
    = filter (λ call, is_coroutine call.1 = false) (invoked sync)
        ++ filter (λ call, is_coroutine call.1 = true) (invoked sync) ∧
  invoked async ≡ₚ invoked sync ∧
  logged async = filter (λ e, is_coroutine e.2 = false) (logged sync) ∧
  ((∀ c, c ∈ default [] (subscribers !! event_type) → is_coroutine c = false) →
   async = sync).
Proof.
  intros sync async. unfold sync, async, publish, publish_async.
  destruct (subscribers !! event_type) as [l|]; [|done].
  rewrite dispatch_spec. simpl.
  rewrite !run_callbacks_invoked, !run_callbacks_logged.
  assert (Hinv : ∀ (b : bool) (k : list Callback),
            filter (λ call : Callback * Data, is_coroutine call.1 = b)
                   ((λ c, (c, data)) <$> k)
            = (λ c, (c, data)) <$> filter (λ c, is_coroutine c = b) k).
  { intros b k. induction k as [|x k IH]; [done|].
    rewrite fmap_cons, !filter_cons. simpl.
    destruct (decide (is_coroutine x = b)); [rewrite fmap_cons|]; by rewrite IH. }
  split_and!.
  - by rewrite !Hinv.
  - rewrite <- fmap_app. apply fmap_Permutation.
    clear Hinv. induction l as [|x k IH]; [done|]. rewrite !filter_cons.
    destruct (is_coroutine x) eqn:E.
    + rewrite decide_False by done. rewrite decide_True by done.
      rewrite <- Permutation_middle. by rewrite IH.
    + rewrite decide_True by done. rewrite decide_False by done.
      simpl. by rewrite IH.
  - clear Hinv. induction l as [|x k IH]; [done|]. rewrite !filter_cons.
    destruct (is_coroutine x) eqn:E.
    + rewrite (decide_False (P := true = false)) by done.
      destruct (decide (raises x data = true)); [|done].
      rewrite fmap_cons, filter_cons. simpl. rewrite E.
      by rewrite decide_False by done.
    + rewrite (decide_True (P := false = false)) by done.
      rewrite filter_cons. destruct (decide (raises x data = true)); [|done].
      rewrite !fmap_cons, filter_cons. simpl. rewrite E.
      rewrite decide_True by done. by rewrite IH.
  - intros Hsync. simpl in Hsync.
    assert (Hall : filter (λ c, is_coroutine c = false) l = l).
    { clear Hinv. induction l as [|x k IH]; [done|]. rewrite filter_cons.
      rewrite decide_True by (apply Hsync; left). f_equal.
      apply IH. intros c Hc. apply Hsync. by right. }
    assert (Hnone : filter (λ c, is_coroutine c = true) l = []).
    { clear Hinv Hall. induction l as [|x k IH]; [done|]. rewrite filter_cons.
      rewrite decide_False by (rewrite Hsync; [done | left]).
      apply IH. intros c Hc. apply Hsync. by right. }
    rewrite Hall, Hnone. simpl. rewrite app_nil_r.
    rewrite <- (run_callbacks_invoked event_type), <- run_callbacks_logged.
    by destruct (run_callbacks raises event_type data l).
Qed.

End EventBusMore.

Lemma new_subscriber_called_last_witness :
  EventBus.invoked
    (EventBus.publish (λ c (_ : nat), bool_decide (c = 1)) "trade_executed" 7
       (EventBus.subscribe "trade_executed" 2
          (EventBus.after [EventBus.Subscribe "trade_executed" 1])))
    = [(1, 7); (2, 7)].
Proof.
  apply (new_subscriber_called_last (λ c (_ : nat), bool_decide (c = 1))
           (EventBus.after [EventBus.Subscribe "trade_executed" 1])
           "trade_executed" 2 7).
  vm_compute. intros H. inversion H as [|? ? ? H']; inversion H'.
Defined.

Lemma topics_are_independent_witness :
  EventBus.publish (λ _ (_ : nat), false) "trade_executed" 7
    (EventBus.subscribe "error" 3
       (EventBus.after [EventBus.Subscribe "trade_executed" 1]))
  = EventBus.publish (λ _ (_ : nat), false) "trade_executed" 7
      (EventBus.after [EventBus.Subscribe "trade_executed" 1]).
Proof.
  apply (topics_are_independent (λ _ (_ : nat), false)
           (EventBus.after [EventBus.Subscribe "trade_executed" 1])
           "error" "trade_executed" 3 7); discriminate.
Defined.

Lemma publish_async_calls_same_handlers_witness :
  EventBus.publish_async (λ _ (_ : nat), false) (λ _, false) "trade_executed" 7
    (EventBus.after [EventBus.Subscribe "trade_executed" 1])
  = EventBus.publish (λ _ (_ : nat), false) "trade_executed" 7
      (EventBus.after [EventBus.Subscribe "trade_executed" 1]).
Proof.
  apply (publish_async_calls_same_handlers (λ _ (_ : nat), false) (λ _, false)
           (EventBus.after [EventBus.Subscribe "trade_executed" 1])
           "trade_executed" 7).
  reflexivity.
Defined.

(** ** Gas price oracle: ordering on any node, floor, stale entries *)

Section GasPriceMore.
Import GasPrice.

Lemma scaled_fee_ordered (gp : Z) :
  (Z.max (int (inject_Z gp * (9 # 10))) min_gas_price ≤ Z.max gp min_gas_price)%Z ∧
  (Z.max gp min_gas_price ≤ Z.max (int (inject_Z gp * (12 # 10))) min_gas_price)%Z.
Proof.
  assert (H9 : int (inject_Z gp * (9 # 10)) = Z.quot (gp * 9) 10) by done.
  assert (H12 : int (inject_Z gp * (12 # 10)) = Z.quot (gp * 12) 10) by done.
  rewrite H9, H12. unfold min_gas_price.
  destruct (Z.le_gt_cases 0 gp) as [Hpos|Hneg].
  - rewrite !Z.quot_div_nonneg by lia.
    assert (gp * 9 / 10 ≤ gp)%Z by (apply Z.div_le_upper_bound; lia).
    assert (gp ≤ gp * 12 / 10)%Z by (apply Z.div_le_lower_bound; lia).
    lia.
  - assert (Z.quot (gp * 9) 10 ≤ 0)%Z.
    { replace (gp * 9)%Z with (- (- gp * 9))%Z by lia.
      rewrite Z.quot_opp_l by lia.
      pose proof (Z.quot_pos (- gp * 9) 10). lia. }
    assert (Z.quot (gp * 12) 10 ≤ 0)%Z.
    { replace (gp * 12)%Z with (- (- gp * 12))%Z by lia.
      rewrite Z.quot_opp_l by lia.
      pose proof (Z.quot_pos (- gp * 12) 10). lia. }
    lia.
Qed.

(** X5.  On a cold cache the three tiers are ordered for every node,
    whatever it answers: with ten samples or more, with fewer (the
    network fee scaled by 1.2, 1.0 and 0.9), and when it fails (the
    20 Gwei fallback for all three). *)
Theorem tiers_ordered_on_any_node (w3 : Web3) (current_time : Q) :
  let estimate strategy :=
    value (get_optimal_gas_price w3 strategy current_time cold) in
  (estimate "economic"%string ≤ estimate "balanced"%string)%Z ∧
  (estimate "balanced"%string ≤ estimate "fast"%string)%Z.
Proof.
  intros estimate.
  destruct (gas_price w3) as [gp|] eqn:Hgp;
    [|unfold estimate, get_optimal_gas_price; simpl; rewrite Hgp; simpl; lia].
  destruct (block_number w3) as [latest|] eqn:Hbn;
    [|unfold estimate, get_optimal_gas_price; simpl; rewrite Hgp, Hbn; simpl; lia].
  destruct (decide (10 ≤ length (collect_gas_prices w3 latest))) as [Hlen|Hlen].
  - destruct (statistics_ordered (merge_sort Z.le (collect_gas_prices w3 latest)))
      as (p90 & p50 & p25 & H90 & H50 & H25 & Hlo & Hhi).
    { apply merge_sort_sorted. }
    { rewrite merge_sort_length. lia. }
    unfold estimate.
    rewrite (cold_estimate w3 gp latest current_time "economic" p25),
            (cold_estimate w3 gp latest current_time "balanced" p50),
            (cold_estimate w3 gp latest current_time "fast" p90) by done.
    split; by apply buffer_floor_mono.
  - assert (Hshort : ∀ strategy,
              estimate strategy
              = Z.max (if decide (strategy = "fast"%string)
                       then int (inject_Z gp * (12 # 10))
                       else if decide (strategy = "economic"%string)
                       then int (inject_Z gp * (9 # 10))
                       else gp) min_gas_price).
    { intros strategy. unfold estimate, get_optimal_gas_price. simpl.
      rewrite Hgp, Hbn. unfold optimal_from. rewrite decide_False by done.
      by repeat case_decide. }
    rewrite !Hshort. simpl. apply scaled_fee_ordered.
Qed.

(** X6.  Whatever requests came before and whatever the node answers,
    the oracle never returns less than the minimum fee of 1 Gwei. *)
Theorem estimate_never_below_floor (requests : list Request) (w3 : Web3)
    (strategy : string) (current_time : Q) :
  (min_gas_price
     ≤ value (get_optimal_gas_price w3 strategy current_time
                (cache_after requests)))%Z.
Proof.
  pose proof (cache_floor_after requests) as Hfloor.
  set (c := cache_after requests) in *.
  unfold get_optimal_gas_price. cbv zeta.
  destruct (last_gas_price c) as [p|] eqn:Hp.
  - specialize (Hfloor p Hp).
    destruct (negb (p =? 0)%Z && Qltb (current_time - last_gas_update c)
                GAS_PRICE_CACHE_TTL); [done|].
    destruct (gas_price w3); [|vm_compute; discriminate].
    destruct (block_number w3); [|vm_compute; discriminate].
    destruct (optimal_from _ _ _) as [v|] eqn:E; [|vm_compute; discriminate].
    simpl. unfold optimal_from in E. apply fmap_Some in E as (q & _ & ->). lia.
  - destruct (gas_price w3); [|vm_compute; discriminate].
    destruct (block_number w3); [|vm_compute; discriminate].
    destruct (optimal_from _ _ _) as [v|] eqn:E; [|vm_compute; discriminate].
    simpl. unfold optimal_from in E. apply fmap_Some in E as (q & _ & ->). lia.
Qed.

(** X7.  An entry that is 30 seconds old or older is never served: the
    node is asked, with at most twelve calls starting with the network
    fee.  Afterwards the cache either is untouched, when the node failed
    and the answer is the 20 Gwei fallback, which is never cached; or it
    holds exactly the value returned, stamped with the time of the
    request. *)
Theorem stale_entry_is_recomputed (w3 : Web3) (strategy : string)
    (current_time : Q) (c : Cache) :
  (GAS_PRICE_CACHE_TTL <= current_time - last_gas_update c)%Q →
  let answer := get_optimal_gas_price w3 strategy current_time c in
  head (io answer) = Some IO_gas_price ∧
  length (io answer) ≤ 12 ∧
  ((cache answer = c ∧ value answer = standard_gas_price) ∨
   cache answer = {| last_gas_price := Some (value answer);
                     last_gas_update := current_time |}).
Proof.
  intros Hstale answer. unfold answer, get_optimal_gas_price. cbv zeta.
  assert (Hmiss : Qltb (current_time - last_gas_update c) GAS_PRICE_CACHE_TTL
                  = false) by by apply Qltb_false.
  rewrite Hmiss.
  assert (Hhit : match last_gas_price c with
                 | Some p => if negb (p =? 0)%Z && false then Some p else None
                 | None => None end = (None : option Z)).
  { destruct (last_gas_price c); [|done]. by rewrite andb_false_r. }
  rewrite Hhit.
  destruct (gas_price w3); [|simpl; split_and!; [done | lia | by left]].
  destruct (block_number w3); [|simpl; split_and!; [done | lia | by left]].
  destruct (optimal_from _ _ _); simpl; split_and!; try done; try (by left);
    try (by right); unfold recent_blocks; rewrite length_map, length_map, length_seq; lia.
Qed.

End GasPriceMore.

Lemma stale_entry_is_recomputed_witness :
  head (GasPrice.io (GasPrice.get_optimal_gas_price Scenario.w3_ten_samples "fast" 130
              (GasPrice.cache_after
                 [ {| GasPrice.node := Scenario.w3_ten_samples;
                      GasPrice.tier := "economic";
                      GasPrice.at_time := 100 |} ])))
    = Some GasPrice.IO_gas_price.
Proof.
  apply (stale_entry_is_recomputed Scenario.w3_ten_samples "fast" 130).
  vm_compute. discriminate.
Defined.

(** ** Slippage estimate and arbitrage test *)

Section SizingFacts.
Import GasPrice Adaptive Sizing Profitability.

Ltac order_cases :=
  repeat match goal with
  | |- context [Qltb ?a ?b] =>
      let E := fresh "E" in
      destruct (Qltb a b) eqn:E;
      [apply Qltb_true in E | apply Qltb_false in E]
  | |- context [Qgtb ?a ?b] =>
      let E := fresh "E" in
      destruct (Qgtb a b) eqn:E;
      [apply Qgtb_true in E | apply Qgtb_false in E]
  end.

Lemma floor_cap_bounds (b : Q) :
  (5 # 100 <= py_max (5 # 100) (py_min 10 b))%Q ∧
  (py_max (5 # 100) (py_min 10 b) <= 10)%Q.
Proof. unfold py_max, py_min. order_cases; split; lra. Qed.

Lemma floor_cap_mono (a b : Q) :
  (a <= b)%Q →
  (py_max (5 # 100) (py_min 10 a) <= py_max (5 # 100) (py_min 10 b))%Q.
Proof. intros Hab. unfold py_max, py_min. order_cases; lra. Qed.

(** X8.  The slippage estimate always lies between 0.05% and 10%,
    whatever the order size, the liquidity and the order book; without a
    positive liquidity it is 5%. *)
Theorem slippage_estimate_bounded (order_size market_liquidity : Q)
    (order_book_depth : option OrderBook) :
  let estimate :=
    estimate_slippage_impact order_size market_liquidity order_book_depth in
  (5 # 100 <= estimate)%Q ∧ (estimate <= 10)%Q ∧
  ((market_liquidity <= 0)%Q → estimate = 5%Q).
Proof.
  intros estimate. unfold estimate, estimate_slippage_impact.
  destruct (Qle_bool market_liquidity 0) eqn:E.
  - split_and!; [lra | lra | done].
  - split_and!; try apply floor_cap_bounds.
    intros H%Qle_bool_iff. congruence.
Qed.

Lemma slippage_estimate_bounded_witness :
  estimate_slippage_impact 50 0 None = 5%Q.
Proof.
  apply (slippage_estimate_bounded 50 0 None). vm_compute. discriminate.
Defined.

Lemma ratio_factor_spec (base volume_ratio : Q) :
  (if Qltb volume_ratio (1 # 100) then base * (5 # 10)
   else if Qltb volume_ratio (5 # 100) then base * (8 # 10)
   else if Qltb volume_ratio (2 # 10) then base * (12 # 10)
   else base * 2)%Q
  = (base * ratio_factor volume_ratio)%Q.
Proof. unfold ratio_factor. by repeat destruct (Qltb _ _). Qed.

Lemma ratio_factor_mono (r1 r2 : Q) :
  (r1 <= r2)%Q →
  (0 < ratio_factor r1)%Q ∧ (ratio_factor r1 <= ratio_factor r2)%Q.
Proof. intros Hr. unfold ratio_factor. order_cases; split; lra. Qed.

Lemma scaled_le (a b c : Q) : (0 < c)%Q → (a <= b)%Q → (a / c <= b / c)%Q.
Proof.
  intros Hc Hab. unfold Qdiv. apply Qmult_le_compat_r; [done|].
  apply Qinv_le_0_compat. lra.
Qed.

(** X9.  For a given liquidity and order book, a larger order never gets
    a smaller slippage estimate. *)
Theorem slippage_estimate_monotone (smaller larger market_liquidity : Q)
    (order_book_depth : option OrderBook) :
  (0 <= smaller)%Q → (smaller <= larger)%Q →
  (estimate_slippage_impact smaller market_liquidity order_book_depth
     <= estimate_slippage_impact larger market_liquidity order_book_depth)%Q.
Proof.
  intros Hpos Hle. unfold estimate_slippage_impact.
  destruct (Qle_bool market_liquidity 0) eqn:E; [lra|].
  assert (Hliq : (0 < market_liquidity)%Q).
  { apply Qnot_le_lt. intros H%Qle_bool_iff. congruence. }
  assert (Hbase : (smaller / market_liquidity * 100
                   <= larger / market_liquidity * 100)%Q).
  { pose proof (scaled_le smaller larger market_liquidity Hliq Hle). lra. }
  assert (Hbase0 : (0 <= larger / market_liquidity * 100)%Q).
  { pose proof (scaled_le 0 larger market_liquidity Hliq ltac:(lra)) as H.
    unfold Qdiv in H at 1. rewrite Qmult_0_l in H. lra. }
  apply floor_cap_mono. destruct order_book_depth as [book|]; [|done].
  rewrite !ratio_factor_spec.
  set (depth := py_min (Qsum (asks book).*2) (Qsum (bids book).*2)).
  assert (Hratio : ((if Qgtb depth 0 then smaller / depth else 1)
                    <= (if Qgtb depth 0 then larger / depth else 1))%Q).
  { destruct (Qgtb depth 0) eqn:Ed; [|lra].
    apply scaled_le; [by apply Qgtb_true | done]. }
  destruct (ratio_factor_mono _ _ Hratio) as [Hf0 Hf].
  set (f1 := ratio_factor _) in *. set (f2 := ratio_factor _) in *.
  apply Qle_trans with (larger / market_liquidity * 100 * f1)%Q.
  - apply Qmult_le_compat_r; [done | lra].
  - rewrite !(Qmult_comm (larger / market_liquidity * 100)).
    by apply Qmult_le_compat_r.
Qed.

Lemma slippage_estimate_monotone_witness :
  (estimate_slippage_impact 1 1000 None
     <= estimate_slippage_impact 50 1000 None)%Q.
Proof.
  apply (slippage_estimate_monotone 1 50 1000 None); vm_compute; discriminate.
Defined.

(** A rounding keeps the sign of what it rounds. *)
Lemma rounding_pos (round : Q → Q) (x : Q) :
  rounding round → (0 < round x)%Q → (0 < x)%Q.
Proof.
  intros [Hmono Hzero] Hpos. apply Qnot_le_lt. intros Hx.
  apply Hmono in Hx. rewrite Hzero in Hx. lra.
Qed.

Lemma rounding_nonneg (round : Q → Q) (x : Q) :
  rounding round → (0 <= x)%Q → (0 <= round x)%Q.
Proof. intros [Hmono Hzero] Hx. rewrite <- Hzero. by apply Hmono. Qed.

(** X10.  Whatever way the float operations round, a price pair is
    reported as an arbitrage opportunity only when both prices are
    positive; with thresholds whose sum is not negative an opportunity
    always sells above the buy price; and when a sell price makes an
    opportunity, so does every higher sell price. *)
Theorem arbitrage_sells_above_buy_price (round : Q → Q)
    (buy_price sell_price higher min_spread_percentage fees_percentage : Q) :
  rounding round →
  (is_arbitrage_opportunity round buy_price sell_price min_spread_percentage
     fees_percentage).1 = true →
  (0 < buy_price)%Q ∧ (0 < sell_price)%Q ∧
  ((0 <= min_spread_percentage + fees_percentage)%Q →
   (buy_price < sell_price)%Q) ∧
  ((sell_price <= higher)%Q →
   (is_arbitrage_opportunity round buy_price higher min_spread_percentage
      fees_percentage).1 = true).
Proof.
  intros Hround. pose proof Hround as [Hmono Hzero].
  unfold is_arbitrage_opportunity.
  destruct (Qle_bool buy_price 0) eqn:Eb; [done|].
  destruct (Qle_bool sell_price 0) eqn:Es; [done|].
  assert (Hb : (0 < buy_price)%Q).
  { apply Qnot_le_lt. intros H%Qle_bool_iff. congruence. }
  assert (Hs : (0 < sell_price)%Q).
  { apply Qnot_le_lt. intros H%Qle_bool_iff. congruence. }
  cbn [orb fst]. intros Hopp%Qgtb_true.
  split_and!; [done | done | |].
  - intros Hfees. apply (rounding_nonneg round) in Hfees; [|done].
    assert (H1 : (0 < round (round (sell_price - buy_price) / buy_price)
                       * 100)%Q).
    { apply (rounding_pos round); [done | lra]. }
    assert (H2 : (0 < round (sell_price - buy_price) / buy_price)%Q).
    { apply (rounding_pos round); [done | lra]. }
    assert (H3 : (0 < round (sell_price - buy_price))%Q).
    { apply Qnot_le_lt. intros H3.
      assert (round (sell_price - buy_price) / buy_price <= 0)%Q; [|lra].
      unfold Qdiv. rewrite <- (Qmult_0_l (/ buy_price)).
      apply Qmult_le_compat_r; [done|]. apply Qinv_le_0_compat. lra. }
    apply (rounding_pos round) in H3; [lra | done].
  - intros Hhigher.
    assert (Hh : Qle_bool higher 0 = false).
    { apply not_true_iff_false. intros H%Qle_bool_iff. lra. }
    rewrite Hh. cbn [orb fst]. apply Qgtb_true.
    eapply Qlt_le_trans; [exact Hopp|].
    apply Hmono. apply Qmult_le_compat_r; [|lra].
    apply Hmono. unfold Qdiv. apply Qmult_le_compat_r;
      [|apply Qinv_le_0_compat; lra].
    apply Hmono. lra.
Qed.

Lemma round_to_grid_rounding : rounding Scenario.round_to_grid.
Proof.
  split.
  - intros x y Hxy. unfold Scenario.round_to_grid, Qdiv.
    apply Qmult_le_compat_r; [|by vm_compute].
    rewrite <- Zle_Qle. apply Qfloor_resp_le. lra.
  - reflexivity.
Qed.

Lemma arbitrage_sells_above_buy_price_witness :
  (100 < 101)%Q ∧
  (is_arbitrage_opportunity Scenario.round_to_grid 100 102
     default_min_spread_percentage default_fees_percentage).1 = true.
Proof.
  destruct (arbitrage_sells_above_buy_price Scenario.round_to_grid 100 101 102
              default_min_spread_percentage default_fees_percentage)
    as (_ & _ & Habove & Hhigher).
  - exact round_to_grid_rounding.
  - reflexivity.
  - split; [apply Habove | apply Hhigher]; vm_compute; discriminate.
Defined.

(** X11.  When the price oracle fails, [calculate_profitability] raises
    if the gas cost was supplied by the caller, but swallows the failure
    if it estimated the cost itself, and then reports the verdict as if
    gas were free.  With no positive investment the profit percentage is
    0 rather than a division by zero. *)
Theorem oracle_failure_raises_only_with_supplied_gas
    (w3 : Web3) (tx_params : TxParams)
    (buy_price sell_price quantity gas_cost_eth fee_percentage : Q)
    (is_flash_loan : bool) (now : Q) (c : Cache) :
  value (calculate_profitability (Some w3) buy_price sell_price quantity
           (Some tx_params) (Some gas_cost_eth) fee_percentage is_flash_loan
           None now c) = None ∧
  value (calculate_profitability (Some w3) buy_price sell_price quantity
           (Some tx_params) None fee_percentage is_flash_loan None now c)
    = value (calculate_profitability None buy_price sell_price quantity
               None None fee_percentage is_flash_loan None now c) ∧
  ∃ v, value (calculate_profitability None buy_price sell_price quantity
                None None fee_percentage is_flash_loan None now c) = Some v ∧
       (is_profitable v = true ↔ (0 < net_profit v)%Q) ∧
       ((buy_price * quantity <= 0)%Q → profit_percentage v = 0%Q).
Proof.
  split_and!; [done | done |]. eexists. split; [reflexivity|]. simpl. split.
  - apply Qgtb_true.
  - intros Hinv. apply Qgtb_false in Hinv. by rewrite Hinv.
Qed.

Lemma oracle_failure_raises_only_with_supplied_gas_witness :
  ∃ v, value (calculate_profitability None 0 5 3 None None
                default_flash_loan_fee_percentage false None 0 cold) = Some v ∧
       profit_percentage v = 0%Q.
Proof.
  destruct (oracle_failure_raises_only_with_supplied_gas
              Scenario.w3_fee_two Scenario.tx_fee_two 0 5 3 0
              default_flash_loan_fee_percentage false 0 cold)
    as (_ & _ & v & Hv & _ & Hpct).
  exists v. split; [exact Hv|]. apply Hpct. vm_compute. discriminate.
Defined.

End SizingFacts.

(** ** Adaptive controller: venue factor, history, counters, recompute *)

Section AdaptiveMore.
Import GasPrice Adaptive.

(** X12.  The performance factor of an exchange always lies between 0.5
    and 1.5, and is 1 for an exchange with no recorded execution. *)
Theorem exchange_factor_bounded (exchange : string) (self : AdaptiveParameters) :
  let factor := _get_exchange_performance_factor exchange self in
  (5 # 10 <= factor)%Q ∧ (factor <= 15 # 10)%Q ∧
  (exchange_performance self !! exchange = None → factor = 1%Q).
Proof.
  intros factor. unfold factor, _get_exchange_performance_factor.
  destruct (exchange_performance self !! exchange) as [perf|];
    [|split_and!; [lra | lra | done]].
  destruct (execution_count perf =? 0)%Z; [split_and!; [lra | lra | done]|].
  split_and!; [| |done]; apply py_clamp_bounds; lra.
Qed.

Lemma exchange_factor_bounded_witness :
  _get_exchange_performance_factor "Uniswap" (init Scenario.default_config 0)
    = 1%Q.
Proof.
  apply (exchange_factor_bounded "Uniswap" (init Scenario.default_config 0)).
  reflexivity.
Defined.

Lemma last_n_length {A} (n : nat) (l : list A) : length (last_n n l) ≤ n.
Proof. unfold last_n. rewrite length_drop. lia. Qed.

Lemma alter_history_keys f strategy h h' :
  alter_history f strategy h = Some h' → h'.*1 = h.*1.
Proof.
  revert h'. induction h as [|[k v] h IH]; intros h'; simpl; [done|].
  destruct (decide (k = strategy)); [by intros [= <-]|].
  destruct (alter_history f strategy h) as [r|]; [|done].
  intros [= <-]. simpl. f_equal. by apply IH.
Qed.

Lemma alter_history_bounded f strategy h h' (bound : nat) :
  (∀ v, length (f v) ≤ bound) →
  Forall (λ e, length e.2 ≤ bound) h →
  alter_history f strategy h = Some h' →
  Forall (λ e, length e.2 ≤ bound) h'.
Proof.
  intros Hf. revert h'. induction h as [|[k v] h IH]; intros h' Hh; simpl; [done|].
  apply Forall_cons in Hh as [Hv Hh].
  destruct (decide (k = strategy)).
  - intros [= <-]. apply Forall_cons. split; [apply Hf | done].
  - destruct (alter_history f strategy h) as [r|]; [|done].
    intros [= <-]. apply Forall_cons. split; [done | by apply IH].
Qed.

Lemma history_step (self : AdaptiveParameters) (c : Call) :
  (execution_history self).*1 = strategies →
  Forall (λ e, length e.2 ≤ max_history) (execution_history self) →
  (execution_history (apply_call self c)).*1 = strategies ∧
  Forall (λ e, length e.2 ≤ max_history) (execution_history (apply_call self c)).
Proof.
  intros Hk Hb. destruct c as [now o|now|]; simpl.
  - unfold update_from_execution.
    destruct (alter_history _ _ _) as [h'|] eqn:E; [|done].
    destruct (record_exchange _ _ _). simpl. split.
    + by rewrite (alter_history_keys _ _ _ _ E).
    + eapply alter_history_bounded; [|exact Hb|exact E].
      intros v. apply last_n_length.
  - destruct (Qgtb _ _); [|done]. simpl.
    unfold _update_parameters. by destruct (averages _).
  - unfold _update_parameters. by destruct (averages _).
Qed.

(** X13.  Whatever calls are made on the controller, it keeps a history
    for exactly the four strategies it started with, and no history ever
    holds more than 100 records. *)
Theorem histories_stay_bounded (cfg : Config) (start : Q) (calls : list Call) :
  let self := after cfg start calls in
  (execution_history self).*1 = strategies ∧
  Forall (λ e, length e.2 ≤ 100) (execution_history self).
Proof.
  unfold after. induction calls as [|c calls [IHk IHb]] using rev_ind.
  - simpl. split; [done | by repeat constructor].
  - rewrite foldl_app. simpl. by apply history_step.
Qed.

Lemma record_exchange_counters (o : Opportunity)
    (performance : gmap string Performance) (exchange : string) :
  map_Forall (λ _, counters_add_up) performance →
  map_Forall (λ _, counters_add_up) (record_exchange o performance exchange).1.
Proof.
  intros Hp. unfold record_exchange.
  assert (Hperf : ∀ perf,
            default {| success_count := 0; failure_count := 0;
                       total_slippage := 0; execution_count := 0 |}
                    (performance !! exchange) = perf →
            (execution_count perf = success_count perf + failure_count perf)%Z ∧
            (0 ≤ success_count perf)%Z ∧ (0 ≤ failure_count perf)%Z ∧
            (0 ≤ execution_count perf)%Z).
  { intros perf <-. destruct (performance !! exchange) as [p|] eqn:E; simpl.
    - destruct (Hp _ _ E) as (? & ? & ? & ?). lia.
    - lia. }
  specialize (Hperf _ eq_refl) as (H1 & H2 & H3 & H4).
  destruct (opp_slippage o); simpl; apply map_Forall_insert_2; try done;
    unfold counters_add_up; simpl;
    destruct (bool_decide _); lia.
Qed.

Lemma counters_step (self : AdaptiveParameters) (c : Call) :
  map_Forall (λ _, counters_add_up) (exchange_performance self) →
  map_Forall (λ _, counters_add_up) (exchange_performance (apply_call self c)).
Proof.
  intros Hp. destruct c as [now o|now|]; simpl.
  - unfold update_from_execution.
    destruct (alter_history _ _ _) as [h'|]; [|done].
    pose proof (record_exchange_counters o (exchange_performance self)
                  (exchange_1 o) Hp) as H1.
    destruct (record_exchange o (exchange_performance self) (exchange_1 o))
      as [performance ok]. simpl in *.
    destruct ok; [|done]. by apply record_exchange_counters.
  - destruct (Qgtb _ _); [|done]. simpl.
    unfold _update_parameters. by destruct (averages _).
  - unfold _update_parameters. by destruct (averages _).
Qed.

(** X14.  Whatever calls are made on the controller, for every exchange
    it has counters for, the executions counted are the successes plus
    the failures, and there is at least one; this holds also after an
    update that raised part-way on a missing slippage. *)
Theorem exchange_counters_add_up (cfg : Config) (start : Q)
    (calls : list Call) (exchange : string) (perf : Performance) :
  exchange_performance (after cfg start calls) !! exchange = Some perf →
  (execution_count perf = success_count perf + failure_count perf)%Z ∧
  (0 ≤ success_count perf)%Z ∧ (0 ≤ failure_count perf)%Z ∧
  (1 ≤ execution_count perf)%Z.
Proof.
  assert (Hall : map_Forall (λ _, counters_add_up)
                   (exchange_performance (after cfg start calls))).
  { unfold after. induction calls as [|c calls IH] using rev_ind.
    - simpl. apply map_Forall_empty.
    - rewrite foldl_app. simpl. by apply counters_step. }
  intros Hperf. exact (Hall _ _ Hperf).
Qed.

Lemma exchange_counters_add_up_witness :
  ∃ perf,
    exchange_performance
      (after Scenario.default_config 0
         [UpdateFromExecution 10 Scenario.filled_trade]) !! "Uniswap"%string
      = Some perf ∧
    (1 ≤ execution_count perf)%Z.
Proof.
  eexists. split; [vm_compute; reflexivity|].
  eapply (exchange_counters_add_up Scenario.default_config 0
            [UpdateFromExecution 10 Scenario.filled_trade] "Uniswap").
  vm_compute. reflexivity.
Defined.

(** X15.  A recompute is idempotent: running it a second time on the
    same history changes nothing. *)
Theorem recompute_is_idempotent (self : AdaptiveParameters) :
  _update_parameters (_update_parameters self) = _update_parameters self.
Proof.
  unfold _update_parameters at 2 3.
  destruct (averages (gather (execution_history self))) as [a|] eqn:E.
  - unfold _update_parameters. simpl. by rewrite E.
  - unfold _update_parameters. by rewrite E.
Qed.

(** X16.  The threshold is recomputed at most once per hour: after any
    read of the threshold, every further read made no later than 3600
    seconds after the last update returns the same threshold and leaves
    the controller as it is, whatever was recorded in between being
    ignored until then. *)
Theorem threshold_read_is_rate_limited (now later : Q)
    (self : AdaptiveParameters) (o : Opportunity) (recorded : Q) :
  let '(threshold, read) := get_min_profit_threshold now self in
  (later - last_update_time read <= 3600)%Q →
  get_min_profit_threshold later read = (threshold, read) ∧
  (get_min_profit_threshold later (update_from_execution recorded o read)).1
    = threshold.
Proof.
  destruct (get_min_profit_threshold now self) as [threshold read] eqn:E.
  intros Hsoon.
  assert (Hthreshold : threshold = min_profit_threshold read).
  { unfold get_min_profit_threshold in E. by injection E as <- <-. }
  apply Qgtb_false in Hsoon. split.
  - unfold get_min_profit_threshold. by rewrite Hsoon, Hthreshold.
  - unfold get_min_profit_threshold, update_from_execution.
    destruct (alter_history _ _ _); [|by rewrite Hsoon, Hthreshold].
    destruct (record_exchange _ _ _). simpl. by rewrite Hsoon, Hthreshold.
Qed.

Lemma threshold_read_is_rate_limited_witness :
  get_min_profit_threshold 100
    (get_min_profit_threshold 50 (init Scenario.default_config 0)).2
  = get_min_profit_threshold 50 (init Scenario.default_config 0).
Proof.
  pose proof (threshold_read_is_rate_limited 50 100
                (init Scenario.default_config 0) Scenario.filled_trade 60) as H.
  destruct (get_min_profit_threshold 50 (init Scenario.default_config 0))
    as [threshold read] eqn:E.
  apply H. injection E as <- <-. vm_compute. discriminate.
Defined.

End AdaptiveMore.

(** ** Mempool monitor: the reconnect loop, further *)

Section ReconnectMore.
Import Mempool.

(** The delay is within its bounds, and no wait so far was longer than
    the delay now. *)
Lemma attempt_delays (s : Monitor * Reconnect) (a : Attempt) :
  (base_delay ≤ retry_delay s.2 ≤ max_delay)%Z →
  (base_delay ≤ retry_delay (attempt s a).2 ≤ max_delay)%Z ∧
  (retry_delay s.2 ≤ retry_delay (attempt s a).2)%Z ∧
  (slept (attempt s a).2 = slept s.2 ∨
   slept (attempt s a).2 = slept s.2 ++ [retry_delay s.2]).
Proof.
  destruct s as [m r]. unfold base_delay, max_delay. simpl. intros Hd.
  destruct (running m); [|simpl; auto with lia].
  destruct a as [| | |[| |]]; simpl; unfold on_connection_error; simpl;
    repeat case_match; simpl; unfold max_delay; auto with lia.
Qed.

Lemma connect_delays (attempts : list Attempt) :
  let s := connect_and_subscribe attempts in
  (base_delay ≤ retry_delay s.2 ≤ max_delay)%Z ∧
  Forall (λ d, base_delay ≤ d ≤ retry_delay s.2)%Z (slept s.2) ∧
  ∀ (i j : nat) (a b : Z),
    i ≤ j → slept s.2 !! i = Some a → slept s.2 !! j = Some b → (a ≤ b)%Z.
Proof.
  unfold connect_and_subscribe.
  induction attempts as [|a attempts (IHd & IHs & IHm)] using rev_ind.
  - simpl. unfold base_delay, max_delay. split_and!; [lia | lia | done |].
    intros i j x y _ Hx. by rewrite lookup_nil in Hx.
  - rewrite foldl_app. cbn [foldl].
    set (s := foldl attempt (started, fresh) attempts) in *.
    destruct (attempt_delays s a IHd) as (Hd & Hup & Hs).
    split; [done|].
    assert (Hold : Forall (λ d, base_delay ≤ d ≤ retry_delay (attempt s a).2)%Z
                          (slept s.2)).
    { eapply Forall_impl; [exact IHs|]. simpl. intros; lia. }
    destruct Hs as [->| ->]; [done|].
    split.
    + apply Forall_app. split; [done|]. apply Forall_singleton. lia.
    + intros i j x y Hij Hx Hy.
      destruct (decide (j < length (slept s.2))) as [Hj|Hj].
      * rewrite lookup_app_l in Hx, Hy by lia. eauto.
      * rewrite lookup_app_r in Hy by lia.
        apply list_lookup_singleton_Some in Hy as [_ <-].
        destruct (decide (i < length (slept s.2))) as [Hi|Hi].
        -- rewrite lookup_app_l in Hx by lia.
           rewrite Forall_lookup in IHs. apply (IHs i x Hx).
        -- rewrite lookup_app_r in Hx by lia.
           apply list_lookup_singleton_Some in Hx as [_ <-]. lia.
Qed.

(** X17.  Whatever the outcomes of the connection attempts, every wait
    of the reconnect loop lasts between 5 and 60 seconds, and the waits
    never get shorter: a later wait is at least as long as an earlier
    one, also across successful subscriptions. *)
Theorem waits_bounded_and_never_shorter (attempts : list Attempt) :
  let r := (connect_and_subscribe attempts).2 in
  Forall (λ d, 5 ≤ d ≤ 60)%Z (slept r) ∧
  ∀ (i j : nat) (a b : Z),
    i ≤ j → slept r !! i = Some a → slept r !! j = Some b → (a ≤ b)%Z.
Proof.
  destruct (connect_delays attempts) as (Hd & Hs & Hm). simpl in *.
  split; [|done].
  eapply Forall_impl; [exact Hs|]. unfold base_delay, max_delay in *.
  simpl. intros; lia.
Qed.

(** X18.  A subscription request answered without a result is logged
    and retried at once: however many such answers follow one another,
    the loop never waits, counts no failure and keeps its delay, so the
    monitor is neither slowed down nor ever stopped by them. *)
Theorem refused_subscription_retried_at_once (prefix : list Attempt) (n : nat) :
  let before := connect_and_subscribe prefix in
  let after := connect_and_subscribe (prefix ++ replicate n NotSubscribed) in
  after.1 = before.1 ∧
  slept after.2 = slept before.2 ∧
  retry_count after.2 = retry_count before.2 ∧
  retry_delay after.2 = retry_delay before.2 ∧
  length (errors after.2)
    = length (errors before.2) + (if running before.1 then n else 0).
Proof.
  unfold connect_and_subscribe. rewrite foldl_app.
  destruct (foldl attempt (started, fresh) prefix) as [m r]. simpl.
  induction n as [|n IH].
  - simpl. split_and!; try done. destruct (running m); lia.
  - rewrite replicate_S_end, foldl_app.
    destruct (foldl attempt (m, r) (replicate n NotSubscribed)) as [m' r'].
    simpl in *. destruct IH as (-> & I2 & I3 & I4 & I5).
    destruct (running m); simpl; [|done].
    rewrite length_app. simpl. split_and!; try done. lia.
Qed.

(** X19.  A successful subscription resets the failure count but not the
    delay: after the stream closes, the monitor again survives up to ten
    connection failures in a row, and their waits go on doubling from
    the delay reached before the subscription, not from 5 seconds. *)
Theorem subscription_resets_count_not_delay (prefix : list Attempt) (k : nat) :
  let before := connect_and_subscribe prefix in
  let after :=
    connect_and_subscribe
      (prefix ++ Streamed Closed :: replicate k ConnectionError) in
  running before.1 = true → k ≤ 10 →
  running after.1 = true ∧
  retry_count after.2 = Z.of_nat k ∧
  slept after.2
    = slept before.2
        ++ map (λ i : nat, Z.min (retry_delay before.2 * 2 ^ Z.of_nat i) 60)
               (seq 0 k).
Proof.
  intros before after Hrun Hk.
  destruct (connect_delays prefix) as (Hd & _). fold before in Hd.
  assert (Hafter : after
            = foldl attempt (attempt before (Streamed Closed))
                    (replicate k ConnectionError)).
  { unfold after, connect_and_subscribe. by rewrite foldl_app. }
  destruct before as [m r]. simpl in *. rewrite Hrun in Hafter.
  rewrite consecutive_failures in Hafter
    by (done || simpl; unfold max_retries; lia).
  rewrite Hafter. simpl. split_and!; [done | lia | done].
Qed.

End ReconnectMore.

Lemma subscription_resets_count_not_delay_witness :
  Mempool.slept
    (Mempool.connect_and_subscribe
       (replicate 2 Mempool.ConnectionError
          ++ Mempool.Streamed Mempool.Closed
               :: replicate 3 Mempool.ConnectionError)).2
    = [5; 10; 20; 40; 60]%Z.
Proof.
  apply (subscription_resets_count_not_delay
           (replicate 2 Mempool.ConnectionError) 3); [reflexivity | lia].
Defined.

(** ** Mempool monitor: ingestion and classification, further *)

Section PipelineMore.
Import Mempool.

Context (slot : TxHash → list TxHash → nat) (filters : Filters).

(** What an interesting transaction carries. *)
Lemma interesting_inv (f : Filters) (t : Transaction) :
  _is_interesting_transaction f t = true →
  ∃ input_data to_address,
    input t = Some input_data ∧ input_data ≠ ""%string ∧
    input_data ≠ "0x"%string ∧
    to t = Some to_address ∧ to_address ≠ ""%string ∧
    (to_address ∈ interesting_addresses f ∨
     ∃ methods callback,
       interesting_methods f !! to_address = Some methods ∧
       10 ≤ String.length input_data ∧
       methods !! String.substring 0 10 input_data = Some callback ∧
       callback t = Some true).
Proof.
  unfold _is_interesting_transaction. intros H.
  destruct (input t) as [input_data|]; [|done].
  destruct (decide (input_data = ""%string ∨ input_data = "0x"%string))
    as [|Hdata]; [done|].
  destruct (to t) as [to_address|]; [|done].
  destruct (decide (to_address = ""%string)); [done|].
  exists input_data, to_address. split_and!; try done; try tauto.
  destruct (decide (to_address ∈ interesting_addresses f)); [by left|].
  right.
  destruct (interesting_methods f !! to_address) as [methods|]; [|done].
  destruct (decide (10 ≤ String.length input_data)); [|done].
  destruct (methods !! String.substring 0 10 input_data) as [callback|] eqn:E;
    [|done].
  exists methods, callback. split_and!; try done.
  by destruct (callback t) as [[]|].
Qed.

(** The event that classification publishes for a hash, if any. *)
Lemma classify_announces (node : TxHash → option Transaction)
    (hashes : list TxHash) (m : Monitor) :
  let m' := foldl (_process_transaction filters node) m hashes in
  let announced :=
    omap (λ h, match node h with
               | Some t =>
                   if _is_interesting_transaction filters t
                   then Some {| topic := "interesting_transaction";
                                tx_hash := h; tx := t |}
                   else None
               | None => None
               end) hashes in
  published m' = published m ++ announced ∧
  interesting_tx_count m' = interesting_tx_count m + length announced.
Proof.
  revert m. induction hashes as [|h hashes IH]; intros m; simpl.
  - rewrite app_nil_r. split; [done | lia].
  - destruct (IH (_process_transaction filters node m h)) as [I1 I2].
    simpl in I1, I2. rewrite I1, I2.
    unfold _process_transaction. cbn [published interesting_tx_count].
    destruct (node h) as [t|]; [destruct (_is_interesting_transaction filters t)|];
      simpl; rewrite <- ?app_assoc; split; try done; lia.
Qed.

Lemma handle_all_count (during : list (Q * WsMessage)) (m : Monitor) :
  interesting_tx_count
    (foldl (λ m e, _handle_websocket_message e.1 e.2 m) m during)
    = interesting_tx_count m.
Proof.
  revert m. induction during as [|[now msg] during IH]; intros m; [done|].
  simpl. rewrite IH. unfold _handle_websocket_message.
  by repeat case_match.
Qed.

Lemma settle_count (hashes : list TxHash) (m : Monitor) :
  interesting_tx_count (settle slot hashes m) = interesting_tx_count m.
Proof.
  unfold settle. revert m. induction hashes as [|h hashes IH]; intros m; [done|].
  simpl. by rewrite IH.
Qed.

Lemma limit_keeps (m : Monitor) :
  let m' := limit slot m in
  pending_txs m' = pending_txs m ∧ published m' = published m ∧
  fetched m' = fetched m ∧ interesting_tx_count m' = interesting_tx_count m.
Proof. unfold limit. by destruct (overflows (processed_txs m)). Qed.

(** What a pass over a non-empty batch leaves. *)
Lemma pass_announces (node : TxHash → option Transaction)
    (during : list (Q * WsMessage)) (m : Monitor) :
  let m' := process_batch slot filters node during m in
  let announced :=
    omap (λ h, match node h with
               | Some t =>
                   if _is_interesting_transaction filters t
                   then Some {| topic := "interesting_transaction";
                                tx_hash := h; tx := t |}
                   else None
               | None => None
               end) (next_batch m) in
  published m' = published m ++ announced ∧
  interesting_tx_count m' = interesting_tx_count m + length announced ∧
  fetched m' = fetched m ++ next_batch m.
Proof.
  unfold process_batch, gathered.
  destruct (next_batch m) as [|h batch] eqn:E.
  { simpl. rewrite !app_nil_r. split_and!; (done || lia). }
  rewrite <- E.
  destruct (classify_announces node (next_batch m) m) as [P1 P2].
  destruct (classify_fields filters node (next_batch m) m) as (_ & _ & P3 & _).
  set (m1 := foldl (_process_transaction filters node) m (next_batch m)) in *.
  destruct (handle_all_fields slot during m1) as (_ & H2 & H3 & _).
  pose proof (handle_all_count during m1) as H4.
  set (m2 := foldl (λ m e, _handle_websocket_message e.1 e.2 m) m1 during) in *.
  destruct (settle_fields slot (next_batch m) m2) as (S1 & S2 & _).
  pose proof (settle_count (next_batch m) m2) as S3.
  destruct (limit_keeps (settle slot (next_batch m) m2)) as (_ & L2 & L3 & L4).
  simpl in *. rewrite L2, L3, L4, S1, S2, S3, H2, H3, H4. done.
Qed.

(** X20.  In every run of the monitor, each event handed to the event
    bus has the topic [interesting_transaction], is for a hash that was
    fetched from the node, and carries a transaction with call data and
    a recipient that is a watched address or has a registered method
    whose callback accepted it; and the counter of interesting
    transactions equals the number of events published. *)
Theorem published_events_are_interesting (steps : list Step) :
  let m := run slot filters steps in
  interesting_tx_count m = length (published m) ∧
  ∀ e, e ∈ published m →
    topic e = "interesting_transaction"%string ∧
    tx_hash e ∈ fetched m ∧
    ∃ input_data to_address,
      input (tx e) = Some input_data ∧ input_data ≠ ""%string ∧
      input_data ≠ "0x"%string ∧
      to (tx e) = Some to_address ∧ to_address ≠ ""%string ∧
      (to_address ∈ interesting_addresses filters ∨
       ∃ methods callback,
         interesting_methods filters !! to_address = Some methods ∧
         10 ≤ String.length input_data ∧
         methods !! String.substring 0 10 input_data = Some callback ∧
         callback (tx e) = Some true).
Proof.
  unfold run. induction steps as [|s steps [IHc IHe]] using rev_ind.
  - simpl. split; [done|]. intros e He. by apply elem_of_nil in He.
  - rewrite foldl_app. cbn [foldl].
    set (m := foldl (step slot filters) started steps) in *.
    destruct s as [now message|node during]; cbn [step].
    + destruct (handle_fields slot now message m) as (_ & H2 & H3 & _).
      pose proof (handle_all_count [(now, message)] m) as H4.
      simpl in *. by rewrite H2, H3, H4.
    + destruct (pass_announces node during m) as (P1 & P2 & P3).
      simpl in *. rewrite P1, P2, P3, length_app. split; [lia|].
      intros e [He|He]%elem_of_app.
      * destruct (IHe e He) as (T & F & I).
        split_and!; [done | apply elem_of_app; by left | done].
      * apply list_elem_of_omap in He as (h & Hh & He).
        destruct (node h) as [t|]; [|done].
        destruct (_is_interesting_transaction filters t) eqn:Hi; [|done].
        injection He as <-. simpl.
        split_and!; [done | apply elem_of_app; by right |].
        by apply interesting_inv.
Qed.

(** X21.  A pass of the processing loop fetches the first twenty pending
    hashes, in the order in which they arrived, and no other; afterwards
    none of them is pending, also if the feed delivered it again while
    the batch was being classified, and every other pending hash is
    still pending. *)
Theorem pass_takes_oldest_twenty (node : TxHash → option Transaction)
    (during : list (Q * WsMessage)) (m : Monitor) :
  let m' := process_batch slot filters node during m in
  let batch := take 20 (pending_txs m).*1 in
  fetched m' = fetched m ++ batch ∧
  (∀ h, h ∈ batch → h ∉ (pending_txs m').*1) ∧
  (∀ h, h ∈ (pending_txs m).*1 → h ∉ batch → h ∈ (pending_txs m').*1).
Proof.
  intros m' batch.
  destruct (pass_announces node during m) as (_ & _ & P3).
  split; [done|]. subst m' batch. unfold process_batch, gathered.
  change (take 20 (pending_txs m).*1) with (next_batch m).
  destruct (next_batch m) as [|h0 rest] eqn:E.
  { split; [intros h Hh; by apply elem_of_nil in Hh | done]. }
  rewrite <- E.
  destruct (classify_fields filters node (next_batch m) m) as (Q1 & _).
  set (m1 := foldl (_process_transaction filters node) m (next_batch m)) in *.
  destruct (handle_all_fields slot during m1) as (_ & _ & _ & _ & H5 & _).
  set (m2 := foldl (λ m e, _handle_websocket_message e.1 e.2 m) m1 during) in *.
  destruct (settle_fields slot (next_batch m) m2) as (_ & _ & _ & S4 & _).
  destruct (limit_keeps (settle slot (next_batch m) m2)) as (L1 & _).
  cbv zeta in *. rewrite L1. split.
  - intros h Hh Hin. apply S4 in Hin. tauto.
  - intros h Hh Hnb. apply S4. split; [|done]. apply H5. by rewrite Q1.
Qed.




End PipelineMore.


(** ** Mempool monitor: registration *)

Section RegistrationFacts.
Import Mempool.

Context (to_checksum_address : string → option string)
        (keccak_hex : string → string).

(** X23.  A registered method decides on the calls to it.  Once a
    callback is registered for a method of a contract, a transaction
    sent to the checksummed address of that contract, which is not a
    watched address, and whose call data starts with the method id, is
    interesting exactly when the callback returns true for it; a
    callback that raises makes it not interesting.  The callback
    registered last for a method replaces the earlier one. *)
Theorem registered_method_decides
    (contract_address method_signature : string) (callback : MethodCallback)
    (f f' : Filters) (t : Transaction) (address input_data : string) :
  register_interesting_method to_checksum_address keccak_hex
    contract_address method_signature callback f = Some f' →
  to_checksum_address contract_address = Some address →
  to t = Some address → address ≠ ""%string →
  address ∉ interesting_addresses f →
  input t = Some input_data → 10 ≤ String.length input_data →
  String.substring 0 10 input_data = method_id_of keccak_hex method_signature →
  _is_interesting_transaction f' t = default false (callback t).
Proof.
  unfold register_interesting_method. intros Hreg Hsum Hto Hne Hnw Hin Hlen Hid.
  rewrite Hsum in Hreg. injection Hreg as <-.
  unfold _is_interesting_transaction. rewrite Hin, Hto.
  destruct (decide (input_data = ""%string ∨ input_data = "0x"%string))
    as [[->| ->]|_]; [simpl in Hlen; lia | simpl in Hlen; lia |].
  destruct (decide (address = ""%string)); [done|].
  cbn [interesting_addresses interesting_methods].
  destruct (decide (address ∈ interesting_addresses f)); [done|].
  rewrite lookup_insert_eq.
  destruct (decide (10 ≤ String.length input_data)); [|done].
  by rewrite Hid, lookup_insert_eq.
Qed.

(** X24.  Registering a method changes the classification of the calls
    to that method of that contract only: a transaction sent elsewhere,
    or whose call data does not start with the method id, is classified
    as before, so the other registered methods keep their callbacks. *)
Theorem method_registration_is_local
    (contract_address method_signature : string) (callback : MethodCallback)
    (f f' : Filters) (t : Transaction) :
  register_interesting_method to_checksum_address keccak_hex
    contract_address method_signature callback f = Some f' →
  (to t ≠ to_checksum_address contract_address ∨
   ∀ input_data,
     input t = Some input_data →
     String.substring 0 10 input_data
       ≠ method_id_of keccak_hex method_signature) →
  _is_interesting_transaction f' t = _is_interesting_transaction f t.
Proof.
  unfold register_interesting_method. intros Hreg Hother.
  destruct (to_checksum_address contract_address) as [address|]; [|done].
  injection Hreg as <-.
  unfold _is_interesting_transaction.
  destruct (input t) as [input_data|]; [|done].
  destruct (decide (input_data = ""%string ∨ input_data = "0x"%string)); [done|].
  destruct (to t) as [to_address|]; [|done].
  destruct (decide (to_address = ""%string)); [done|].
  cbn [interesting_addresses interesting_methods].
  destruct (decide (to_address ∈ interesting_addresses f)); [done|].
  destruct (decide (address = to_address)) as [->|Hne].
  - rewrite lookup_insert_eq.
    destruct Hother as [Hto|Hid]; [done|]. specialize (Hid input_data eq_refl).
    rewrite lookup_insert_ne by done.
    destruct (interesting_methods f !! to_address) as [methods|]; simpl; [done|].
    rewrite lookup_empty. by destruct (decide (10 ≤ String.length input_data)).
  - by rewrite lookup_insert_ne.
Qed.

End RegistrationFacts.

Section WatchFacts.
Import Mempool.

Context (to_checksum_address : string → option string).

(** X25.  Watching an address adds the calls to it and nothing else:
    after the registration a transaction is interesting exactly when it
    was interesting before, or carries call data and is sent to the
    checksummed form of the registered address. *)
Theorem watched_address_adds_its_calls (address : string) (f f' : Filters)
    (t : Transaction) :
  register_interesting_address to_checksum_address address f = Some f' →
  (_is_interesting_transaction f' t = true ↔
   _is_interesting_transaction f t = true ∨
   ∃ input_data checksummed,
     to_checksum_address address = Some checksummed ∧
     input t = Some input_data ∧ input_data ≠ ""%string ∧
     input_data ≠ "0x"%string ∧
     to t = Some checksummed ∧ checksummed ≠ ""%string).
Proof.
  unfold register_interesting_address. intros Hreg.
  destruct (to_checksum_address address) as [checksummed|]; [|done].
  injection Hreg as <-.
  unfold _is_interesting_transaction.
  destruct (input t) as [input_data|];
    [|split; [done | intros [?|(? & ? & ? & ? & _)]; done]].
  destruct (decide (input_data = ""%string ∨ input_data = "0x"%string))
    as [Hempty|Hdata].
  { split; [done|]. intros [?|(d & c & _ & [= <-] & ? & ? & _)]; [done | tauto]. }
  destruct (to t) as [to_address|];
    [|split; [done | intros [?|(? & ? & ? & ? & ? & ? & ? & _)]; done]].
  destruct (decide (to_address = ""%string)) as [->|Hto].
  { split; [done|].
    intros [?|(d & c & _ & _ & _ & _ & [= <-] & ?)]; done. }
  cbn [interesting_addresses interesting_methods].
  destruct (decide (to_address ∈ interesting_addresses f)) as [Hw|Hw].
  { rewrite decide_True by set_solver. tauto. }
  destruct (decide (to_address = checksummed)) as [->|Hne].
  - rewrite decide_True by set_solver. split; [|done]. intros _. right.
    exists input_data, checksummed. split_and!; try done; tauto.
  - rewrite decide_False by (rewrite elem_of_union, elem_of_singleton; tauto).
    split; [tauto|].
    intros [?|(d & c & [= <-] & _ & _ & _ & [= Hc] & _)]; done.
Qed.

End WatchFacts.

Lemma registered_method_decides_witness :
  let swap := {| Mempool.input := Some "0x38ed1739"%string;
                 Mempool.to := Some "0xRouter"%string |} in
  match
    Mempool.register_interesting_method Some (λ _, "0x38ed1739ab54"%string)
      "0xRouter" "swapExactTokensForTokens" (λ _, Some true)
      {| Mempool.interesting_addresses := ∅;
         Mempool.interesting_methods := ∅ |}
  with
  | Some f' => Mempool._is_interesting_transaction f' swap = true
  | None => False
  end.
Proof.
  intros swap.
  destruct (Mempool.register_interesting_method _ _ _ _ _ _) as [f'|] eqn:E;
    [|discriminate E].
  apply (registered_method_decides _ _ _ _ _ _ _ swap
           "0xRouter"%string "0x38ed1739"%string E);
    [reflexivity | reflexivity | discriminate | apply not_elem_of_empty
    | reflexivity | simpl; lia | reflexivity].
Defined.

Lemma method_registration_is_local_witness :
  let transfer := {| Mempool.input := Some "0xa9059cbb"%string;
                     Mempool.to := Some "0xRouter"%string |} in
  match
    Mempool.register_interesting_method Some (λ _, "0x38ed1739ab54"%string)
      "0xRouter" "swapExactTokensForTokens" (λ _, Some true)
      {| Mempool.interesting_addresses := ∅;
         Mempool.interesting_methods := ∅ |}
  with
  | Some f' => Mempool._is_interesting_transaction f' transfer = false
  | None => False
  end.
Proof.
  intros transfer.
  destruct (Mempool.register_interesting_method _ _ _ _ _ _) as [f'|] eqn:E;
    [|discriminate E].
  rewrite (method_registration_is_local _ _ _ _ _ _ _ transfer E);
    [reflexivity|].
  right. intros input_data [= <-]. discriminate.
Defined.

Lemma watched_address_adds_its_calls_witness :
  let swap := {| Mempool.input := Some "0x38ed1739"%string;
                 Mempool.to := Some "0xRouter"%string |} in
  match
    Mempool.register_interesting_address Some "0xRouter"
      {| Mempool.interesting_addresses := ∅;
         Mempool.interesting_methods := ∅ |}
  with
  | Some f' => Mempool._is_interesting_transaction f' swap = true
  | None => False
  end.
Proof.
  intros swap.
  destruct (Mempool.register_interesting_address _ _ _) as [f'|] eqn:E;
    [|discriminate E].
  apply (watched_address_adds_its_calls _ _ _ _ swap E). right.
  exists "0x38ed1739"%string, "0xRouter"%string.
  split_and!; (reflexivity || discriminate).
Defined.

(** ** Bundle submission, further *)

Section FlashbotsMore.
Import Flashbots.

Context (bytes_hex : list N → string) (hex : Z → string)
        (sign : Payload → option string)
        (post : string → Payload → string → HttpResult).

(** What one [submit_bundle] adds. *)
Lemma submit_bundle_step (data : BundleData) (self : Manager) :
  let after := (submit_bundle bytes_hex hex sign post data self).1 in
  ∃ sent announced,
    posted after = posted self ++ sent ∧
    published after = published self ++ announced ∧
    bundles_submitted after
      = (bundles_submitted self + Z.of_nat (length announced))%Z ∧
    length announced ≤ 1 ∧
    length sent ≤ 2 * length announced ∧
    Forall (λ e, event_target_block e ≠ 0%Z) announced ∧
    Forall (λ r, (r.1 = flashbots_endpoint ∨ r.1 = eden_endpoint) ∧
                 method r.2 = "eth_sendBundle"%string ∧
                 blockNumber r.2 ∈ hex <$> (event_target_block <$> announced))
           sent.
Proof.
  unfold submit_bundle.
  assert (Hrejected :
    ∃ sent announced : list _,
      posted self = posted self ++ sent ∧
      published self = published self ++ announced ∧
      bundles_submitted self
        = (bundles_submitted self + Z.of_nat (length announced))%Z ∧
      length announced ≤ 1 ∧ length sent ≤ 2 * length announced ∧
      Forall (λ e, event_target_block e ≠ 0%Z) announced ∧
      Forall (λ r : string * Payload,
                (r.1 = flashbots_endpoint ∨ r.1 = eden_endpoint) ∧
                method r.2 = "eth_sendBundle"%string ∧
                blockNumber r.2 ∈ hex <$> (event_target_block <$> announced))
             sent).
  { exists [], []. rewrite !app_nil_r. simpl.
    split_and!; try done; try lia; constructor. }
  destruct (default [] (transactions data)) as [|tx rest]; [done|].
  destruct (target_block data) as [target_block|]; [|done].
  destruct (decide (target_block = 0%Z)); [done|].
  unfold _submit_to_flashbots, _submit_to_eden.
  destruct (tx_list bytes_hex (tx :: rest)) as [hex_txs|]; cbn -[Nat.mul].
  - pose proof (send_sent sign post flashbots_endpoint
                    (flashbots_payload hex hex_txs target_block)) as Hf.
    pose proof (send_sent sign post eden_endpoint
                    (eden_payload hex hex_txs target_block)) as He.
    destruct (send sign post flashbots_endpoint _) as [fr fs].
    destruct (send sign post eden_endpoint _) as [er es].
    cbn [snd] in Hf, He. subst fs es.
    eexists _, [_]. cbn -[Nat.mul]. split_and!; try done.
    + destruct (sign _), (sign _); simpl; lia.
    + by repeat constructor.
    + destruct (sign _), (sign _); repeat constructor; cbn; auto;
        apply list_elem_of_here.
  - eexists [], [_]. split_and!; try done; cbn; try lia.
    by repeat constructor.
Qed.

(** X26.  Over any sequence of [submit_bundle] events the submitted
    counter equals the number of [bundle_submitted] events published;
    at most two requests are sent per event, each to the Flashbots or
    the Eden relay with method [eth_sendBundle] and for the target
    block of a published event; and no event is for block zero. *)
Theorem counter_counts_published_bundles (requests : list BundleData) :
  let m := handled bytes_hex hex sign post requests in
  bundles_submitted m = Z.of_nat (length (published m)) ∧
  length (posted m) ≤ 2 * length (published m) ∧
  Forall (λ e, event_target_block e ≠ 0%Z) (published m) ∧
  Forall (λ r, (r.1 = flashbots_endpoint ∨ r.1 = eden_endpoint) ∧
               method r.2 = "eth_sendBundle"%string ∧
               blockNumber r.2 ∈ hex <$> (event_target_block <$> published m))
         (posted m).
Proof.
  unfold handled.
  induction requests as [|data requests (IHc & IHl & IHe & IHp)] using rev_ind.
  - simpl. split_and!; try done; constructor.
  - rewrite foldl_app. cbn [foldl].
    set (m := foldl _ init requests) in *.
    destruct (submit_bundle_step data m)
      as (sent & announced & -> & -> & -> & Ha & Hs & He & Hp).
    rewrite !length_app. split_and!; [lia | lia | by apply Forall_app |].
    apply Forall_app. split.
    + eapply Forall_impl; [exact IHp|]. intros r (? & ? & Hb).
      split_and!; try done. rewrite !fmap_app. apply elem_of_app. by left.
    + eapply Forall_impl; [exact Hp|]. intros r (? & ? & Hb).
      split_and!; try done. rewrite !fmap_app. apply elem_of_app. by right.
Qed.

(** X27.  The conversion of a bundle's transactions fails exactly when
    some element is neither a hex string nor a signed transaction that
    carries [rawTransaction]; otherwise it yields one hex string per
    transaction, in the same order, with the strings given as such
    passed on unchanged. *)
Theorem tx_list_converts_or_rejects (transactions : list Tx) :
  (tx_list bytes_hex transactions = None ↔
   ∃ tx, tx ∈ transactions ∧ (tx = TxDict None ∨ tx = TxOther)) ∧
  (∀ hex_txs, tx_list bytes_hex transactions = Some hex_txs →
     length hex_txs = length transactions ∧
     ∀ (i : nat) (s : string),
       (transactions !! i = Some (TxStr s) ∨
        transactions !! i = Some (TxDict (Some (RawStr s)))) →
       hex_txs !! i = Some s).
Proof.
  induction transactions as [|tx rest [IHn IHs]].
  - split.
    + split; [done|]. intros (tx & Htx & _). by apply elem_of_nil in Htx.
    + intros hex_txs [= <-]. split; [done|]. intros i s [H|H]; done.
  - cbn [tx_list]. split.
    + split.
      * intros Hnone.
        destruct tx as [[[s|b]|]|s|]; simpl in Hnone;
          try (exists (TxDict None); split; [left | by left]; fail);
          try (exists TxOther; split; [left | by right]; fail);
          (destruct (tx_list bytes_hex rest); [done|];
           destruct IHn as [IHn _]; destruct (IHn eq_refl) as (x & Hx & Hbad);
           exists x; split; [by right | done]).
      * intros (x & [->|Hx]%elem_of_cons & Hbad).
        -- by destruct Hbad as [-> | ->].
        -- destruct IHn as [_ IHn]. rewrite IHn by eauto.
           by destruct tx as [[[s|b]|]|s|].
    + intros hex_txs H.
      destruct (tx_list bytes_hex rest) as [l|];
        [|by destruct tx as [[[s|b]|]|s|]].
      destruct (IHs l eq_refl) as [Hlen Hstr].
      destruct tx as [[[s|b]|]|s|]; simpl in H; try done;
        injection H as <-; (split; [simpl; by rewrite Hlen|]);
        intros [|i] s' [Hi|Hi]; simpl in *; try done;
        try (by injection Hi as ->); eauto.
Qed.

End FlashbotsMore.

Lemma tx_list_converts_or_rejects_witness :
  match
    Flashbots.tx_list Scenario.no_hex_bytes
      [Flashbots.TxStr "0xf86b";
       Flashbots.TxDict (Some (Flashbots.RawBytes [1%N]))]
  with
  | Some hex_txs => length hex_txs = 2 ∧ hex_txs !! 0 = Some "0xf86b"%string
  | None => False
  end.
Proof.
  destruct (Flashbots.tx_list _ _) as [hex_txs|] eqn:E; [|discriminate E].
  destruct (tx_list_converts_or_rejects Scenario.no_hex_bytes
              [Flashbots.TxStr "0xf86b";
               Flashbots.TxDict (Some (Flashbots.RawBytes [1%N]))])
    as [_ H].
  destruct (H hex_txs E) as [Hlen Hstr].
  split; [exact Hlen | apply Hstr; by left].
Defined.

(** ** Starting and stopping the bundle manager *)

Section ServiceFacts.
Import EventBus Flashbots.

Context {Data : Type} (raises : Callback → Data → bool).

Lemma list_remove_last (c : Callback) (l : list Callback) :
  c ∉ l → list_remove c (l ++ [c]) = l.
Proof.
  induction l as [|x l IH]; intros Hc; simpl.
  - by rewrite decide_True.
  - rewrite decide_False by (intros ->; apply Hc; left).
    f_equal. apply IH. intros Hin. apply Hc. by right.
Qed.

(** X28.  However often the bundle manager is started and stopped, its
    handler is subscribed to [submit_bundle] exactly while the manager
    runs: a publish on that topic calls it once when the manager is
    running and not at all when it is stopped, the handlers that others
    subscribed stay in place, and no other topic is touched. *)
Theorem handler_subscribed_while_running (handler : Callback)
    (bus : Subscribers) (commands : list Command) (data : Data) :
  handler ∉ default [] (bus !! "submit_bundle"%string) →
  let s := foldl (command handler) (constructed bus) commands in
  invocations handler
    (publish raises "submit_bundle" data (Flashbots.event_bus s))
    = (if Flashbots.running s then 1 else 0) ∧
  default [] (Flashbots.event_bus s !! "submit_bundle"%string)
    = default [] (bus !! "submit_bundle"%string)
        ++ (if Flashbots.running s then [handler] else []) ∧
  ∀ t, t ≠ "submit_bundle"%string → Flashbots.event_bus s !! t = bus !! t.
Proof.
  intros Hfresh s.
  assert (Hinv :
    default [] (Flashbots.event_bus s !! "submit_bundle"%string)
      = default [] (bus !! "submit_bundle"%string)
          ++ (if Flashbots.running s then [handler] else []) ∧
    ∀ t, t ≠ "submit_bundle"%string → Flashbots.event_bus s !! t = bus !! t).
  { subst s. induction commands as [|c commands [IHl IHt]] using rev_ind.
    - simpl. by rewrite app_nil_r.
    - rewrite foldl_app. cbn [foldl].
      set (s := foldl (command handler) (constructed bus) commands) in *.
      destruct c; unfold command, start, stop;
        destruct (Flashbots.running s) eqn:Hrun; simpl; rewrite ?Hrun;
        try done.
      + rewrite app_nil_r in IHl. unfold subscribe.
        destruct (Flashbots.event_bus s !! "submit_bundle"%string)
          as [l|] eqn:El; simpl in IHl.
        * rewrite El. simpl. rewrite decide_False by by rewrite IHl.
          rewrite lookup_insert_eq. simpl. rewrite IHl. split; [done|].
          intros t Ht. rewrite lookup_insert_ne by done. auto.
        * rewrite lookup_insert_eq. simpl.
          rewrite ?decide_False by apply not_elem_of_nil.
          rewrite ?lookup_insert_eq. simpl. rewrite <- IHl. split; [done|].
          intros t Ht. rewrite !lookup_insert_ne by done. auto.
      + unfold unsubscribe.
        destruct (Flashbots.event_bus s !! "submit_bundle"%string)
          as [l|] eqn:El; simpl in IHl.
        * subst l. rewrite decide_True by (apply elem_of_app; right; left).
          rewrite lookup_insert_eq. simpl.
          rewrite list_remove_last, app_nil_r by done. split; [done|].
          intros t Ht. rewrite lookup_insert_ne by done. auto.
        * by destruct (default [] (bus !! "submit_bundle"%string)). }
  destruct Hinv as [Hl Ht]. split; [|done].
  unfold publish.
  destruct (Flashbots.event_bus s !! "submit_bundle"%string) as [l|] eqn:El;
    simpl in Hl.
  - rewrite (invocations_run_callbacks raises), Hl, filter_app, length_app.
    rewrite absent_count_zero by done.
    destruct (Flashbots.running s); [|done].
    by rewrite filter_cons, decide_True.
  - destruct (Flashbots.running s); [|done].
    by destruct (default [] (bus !! "submit_bundle"%string)).
Qed.

End ServiceFacts.

Lemma handler_subscribed_while_running_witness :
  let s :=
    foldl (Flashbots.command 1) (Flashbots.constructed EventBus.init)
      [Flashbots.Start; Flashbots.Start; Flashbots.Stop; Flashbots.Start] in
  EventBus.invocations 1
    (EventBus.publish (λ _ _, false) "submit_bundle" Scenario.bundle
       (Flashbots.event_bus s)) = 1.
Proof.
  intros s.
  destruct (handler_subscribed_while_running (λ _ _, false) 1 EventBus.init
              [Flashbots.Start; Flashbots.Start; Flashbots.Stop; Flashbots.Start]
              Scenario.bundle) as (H & _).
  - apply not_elem_of_nil.
  - exact H.
Defined.

(** ** The type of the estimated cost *)

Section CostTyping.
Import GasPrice.



End CostTyping.


(** ** What the relays are sent and what comes back *)

Section RelayFacts.
Import Flashbots.

Context (bytes_hex : list N → string) (hex : Z → string)
        (sign : Payload → option string)
        (post : string → Payload → string → HttpResult).

(** A submission always ends with an exception. *)
Lemma send_raises (endpoint : string) (payload : Payload) :
  result_or_none (send sign post endpoint payload).1 = None.
Proof.
  unfold send. destruct (sign payload) as [signature|]; [|done].
  cbn [fst]. destruct (post endpoint payload signature) as [|code]; [done|].
  by destruct (decide (code ≠ 200%Z)).
Qed.

Lemma submit_bundle_nulls (data : BundleData) (self : Manager) :
  let after := (submit_bundle bytes_hex hex sign post data self).1 in
  ∃ announced,
    published after = published self ++ announced ∧
    Forall (λ e, flashbots_result e = None ∧ eden_result e = None) announced ∧
    ((∀ payload, sign payload = None) → posted after = posted self).
Proof.
  unfold submit_bundle.
  destruct (default [] (transactions data)) as [|tx rest];
    [exists []; by rewrite app_nil_r|].
  destruct (target_block data) as [target_block|];
    [|exists []; by rewrite app_nil_r].
  destruct (decide (target_block = 0%Z)); [exists []; by rewrite app_nil_r|].
  unfold _submit_to_flashbots, _submit_to_eden.
  destruct (tx_list bytes_hex (tx :: rest)) as [hex_txs|].
  - pose proof (send_raises flashbots_endpoint
                  (flashbots_payload hex hex_txs target_block)) as Hf.
    pose proof (send_raises eden_endpoint
                  (eden_payload hex hex_txs target_block)) as He.
    pose proof (send_sent sign post flashbots_endpoint
                  (flashbots_payload hex hex_txs target_block)) as Sf.
    pose proof (send_sent sign post eden_endpoint
                  (eden_payload hex hex_txs target_block)) as Se.
    destruct (send sign post flashbots_endpoint _) as [fr fs].
    destruct (send sign post eden_endpoint _) as [er es].
    cbn [fst snd] in *. eexists [_]. cbn [fst published posted].
    split_and!; [done | by repeat constructor |].
    intros Hsign. subst fs es. rewrite !Hsign. by rewrite app_nil_r.
  - eexists [_]. cbn [fst published posted].
    split_and!; [done | by repeat constructor |].
    intros _. by rewrite app_nil_r.
Qed.

(** X30.  No relay submission yields an answer: over any sequence of
    [submit_bundle] events, whatever the relays reply, every
    [bundle_submitted] event carries null for both relays.  And when
    the signing of a request raises, as it does where [sign_message] is
    handed a digest, nothing is sent to any relay. *)
Theorem relay_results_always_null (requests : list BundleData) :
  let m := handled bytes_hex hex sign post requests in
  Forall (λ e, flashbots_result e = None ∧ eden_result e = None)
         (published m) ∧
  ((∀ payload, sign payload = None) → posted m = []).
Proof.
  unfold handled.
  induction requests as [|data requests [IHp IHs]] using rev_ind.
  - split; [constructor | done].
  - rewrite foldl_app. cbn [foldl].
    set (m := foldl _ init requests) in *.
    destruct (submit_bundle_nulls data m) as (announced & -> & Ha & Hs).
    split; [by apply Forall_app|].
    intros Hsign. rewrite Hs by done. by apply IHs.
Qed.

End RelayFacts.

Lemma relay_results_always_null_witness :
  let m :=
    Flashbots.handled Scenario.no_hex_bytes Scenario.no_hex Scenario.no_sign
      Scenario.one_relay_down [Scenario.bundle; Scenario.bundle] in
  Flashbots.posted m = [] ∧ length (Flashbots.published m) = 2.
Proof.
  destruct (relay_results_always_null Scenario.no_hex_bytes Scenario.no_hex
              Scenario.no_sign Scenario.one_relay_down
              [Scenario.bundle; Scenario.bundle]) as [_ Hposted].
  split; [by apply Hposted | reflexivity].
Defined.
